(** * aiosxm: the SiriusXM client, its streams and the playlist proxy

    A shallow embedding of [aiosxm/client.py], [aiosxm/stream.py] and the
    playlist handler of [aiosxm/proxy.py].  The management of the aiohttp
    session is modelled apart from the requests, on the session fields of
    the client alone; of the proxy, the other handlers and the start-up
    of the application are left out.

    - Python values that travel through the client (decoded JSON bodies,
      text and binary bodies) are the untyped [PyVal]; subscripts and
      truthiness follow Python and may raise.
    - Exceptions are a class name with a message and an optional cause.
    - An [async def] is a resumption: it runs atomically up to the point
      where [session.request] suspends and continues from the transport's
      outcome on whatever state the event loop hands back.
    - Strings are sequences of code points below 256. *)

From Stdlib Require Import String Ascii List ZArith Lia Bool Arith.
From Stdlib Require Import DecimalString.
From ExtLib Require Import Structures.Monad Structures.MonadExc.
Import ListNotations.
Import MonadNotation.
Set Warnings "-register-all".
Local Open Scope string_scope.
Local Open Scope list_scope.
Local Open Scope monad_scope.

(* ================================================================== *)
(** ** Python [str] operations used by the sources *)
(* ================================================================== *)

Module PyStr.

Definition newline : ascii := "010"%char.
Definition slash : ascii := "/"%char.
Definition dquote : ascii := "034"%char.
Definition backslash : ascii := "\"%char.

(** [sub in s]: the substring test. *)
Fixpoint contains (sub s : string) : bool :=
  if String.prefix sub s then true
  else match s with
       | EmptyString => false
       | String _ s' => contains sub s'
       end.

(** [c in s] for a single character. *)
Fixpoint mem (c : ascii) (s : string) : bool :=
  match s with
  | EmptyString => false
  | String d s' => Ascii.eqb c d || mem c s'
  end.

(** [s.split(sep)] for a one-character separator: never empty. *)
Fixpoint split (sep : ascii) (s : string) : list string :=
  match s with
  | EmptyString => [EmptyString]
  | String c s' =>
      if Ascii.eqb c sep then EmptyString :: split sep s'
      else match split sep s' with
           | [] => [String c EmptyString]
           | p :: ps => String c p :: ps
           end
  end.

(** The cut of [s] at its last [sep], when it has one. *)
Fixpoint rcut (sep : ascii) (s : string) : option (string * string) :=
  match s with
  | EmptyString => None
  | String c s' =>
      match rcut sep s' with
      | Some (a, b) => Some (String c a, b)
      | None => if Ascii.eqb c sep then Some (EmptyString, s') else None
      end
  end.

(** [s.rsplit(sep, 1)]. *)
Definition rsplit1 (sep : ascii) (s : string) : list string :=
  match rcut sep s with
  | Some (a, b) => [a; b]
  | None => [s]
  end.

(** The white space [str.strip()] removes, below code point 256. *)
Definition isspace (c : ascii) : bool :=
  let n := nat_of_ascii c in
  (Nat.leb 9 n && Nat.leb n 13) || (Nat.leb 28 n && Nat.leb n 32)
  || Nat.eqb n 133 || Nat.eqb n 160.

Fixpoint lstrip (s : string) : string :=
  match s with
  | EmptyString => EmptyString
  | String c s' => if isspace c then lstrip s' else s
  end.

Fixpoint rstrip (s : string) : string :=
  match s with
  | EmptyString => EmptyString
  | String c s' =>
      match rstrip s' with
      | EmptyString => if isspace c then EmptyString else String c EmptyString
      | r => String c r
      end
  end.

(** [s.strip()]. *)
Definition strip (s : string) : string := rstrip (lstrip s).

(** [sep.join(parts)] *)
Fixpoint join (sep : ascii) (parts : list string) : string :=
  match parts with
  | [] => EmptyString
  | [p] => p
  | p :: ps => (p ++ String sep (join sep ps))%string
  end.

(** [xs[-2]]. *)
Fixpoint second_to_last {A : Type} (xs : list A) : option A :=
  match xs with
  | [] => None
  | [_] => None
  | [x; _] => Some x
  | _ :: xs' => second_to_last xs'
  end.

End PyStr.

(* ================================================================== *)
(** ** Python values and exceptions *)
(* ================================================================== *)

(** Decoded JSON documents, text and binary bodies.  JSON numbers are
    restricted to integers. *)
Inductive PyVal : Type :=
| PNone
| PBool (b : bool)
| PInt (z : Z)
| PStr (s : string)
| PBytes (b : list Byte.byte)
| PList (xs : list PyVal)
| PDict (kvs : list (string * PyVal)).

(** An exception object: its class, [str(e)] and, when it wraps another
    one ([original_exception], [raise ... from err]), that one. *)
Inductive Exn : Type :=
| MkExn (cls : string) (msg : string) (cause : option Exn).

Definition exn_class (e : Exn) : string := let 'MkExn c _ _ := e in c.
Definition exn_msg (e : Exn) : string := let 'MkExn _ m _ := e in m.
Definition exn_cause (e : Exn) : option Exn := let 'MkExn _ _ c := e in c.

(** What evaluating an expression gives: a value, or a raised exception
    ([inl], as in the error monad on sums). *)
Definition Result (A : Type) : Type := (Exn + A)%type.

Definition TypeError (msg : string) : Exn := MkExn "TypeError" msg None.
Definition KeyError (key : string) : Exn := MkExn "KeyError" key None.
Definition IndexError (msg : string) : Exn := MkExn "IndexError" msg None.
Definition AttributeError (msg : string) : Exn := MkExn "AttributeError" msg None.
Definition ValueError (msg : string) : Exn := MkExn "ValueError" msg None.
Definition RecursionError : Exn :=
  MkExn "RecursionError" "maximum recursion depth exceeded" None.

(** [bool(v)]. *)
Definition truthy (v : PyVal) : bool :=
  match v with
  | PNone => false
  | PBool b => b
  | PInt z => negb (Z.eqb z 0)
  | PStr s => negb (String.eqb s "")
  | PBytes b => match b with [] => false | _ => true end
  | PList xs => match xs with [] => false | _ => true end
  | PDict kvs => match kvs with [] => false | _ => true end
  end.

(** Python dictionaries keep insertion order: association lists where
    an assignment to a present key updates it in place. *)
Section Dict.
Context {K V : Type} (eqb : K -> K -> bool).

Fixpoint dict_get (d : list (K * V)) (k : K) : option V :=
  match d with
  | [] => None
  | (k', v) :: d' => if eqb k k' then Some v else dict_get d' k
  end.

Fixpoint dict_set (d : list (K * V)) (k : K) (v : V) : list (K * V) :=
  match d with
  | [] => [(k, v)]
  | (k', v') :: d' =>
      if eqb k k' then (k', v) :: d' else (k', v') :: dict_set d' k v
  end.

End Dict.

(** [v[key]] for a string key. *)
Definition getitem (v : PyVal) (key : string) : Result PyVal :=
  match v with
  | PDict kvs =>
      match dict_get String.eqb kvs key with
      | Some x => inr x
      | None => inl (KeyError key)
      end
  | PNone => inl (TypeError "'NoneType' object is not subscriptable")
  | PBool _ => inl (TypeError "'bool' object is not subscriptable")
  | PInt _ => inl (TypeError "'int' object is not subscriptable")
  | PStr _ => inl (TypeError "string indices must be integers, not 'str'")
  | PBytes _ => inl (TypeError "byte indices must be integers or slices, not str")
  | PList _ => inl (TypeError "list indices must be integers or slices, not str")
  end.

(** [v[0]]. *)
Definition getitem0 (v : PyVal) : Result PyVal :=
  match v with
  | PList (x :: _) => inr x
  | PList [] => inl (IndexError "list index out of range")
  | PStr (String c _) => inr (PStr (String c ""))
  | PStr EmptyString => inl (IndexError "string index out of range")
  | PBytes (b :: _) => inr (PInt (Z.of_N (Byte.to_N b)))
  | PBytes [] => inl (IndexError "index out of range")
  | PDict _ => inl (MkExn "KeyError" "0" None)
  | PNone => inl (TypeError "'NoneType' object is not subscriptable")
  | PBool _ => inl (TypeError "'bool' object is not subscriptable")
  | PInt _ => inl (TypeError "'int' object is not subscriptable")
  end.

(** [datetime]: an instant on the UTC time line, or a naive reading that
    carries no offset. *)
Inductive datetime : Type :=
| Aware (t : Z)
| Naive (t : Z).

(** [datetime.now(tz=UTC) >= d]. *)
Definition now_ge (now : Z) (d : datetime) : Result bool :=
  match d with
  | Aware t => inr (Z.leb t now)
  | Naive _ =>
      inl (TypeError "can't compare offset-naive and offset-aware datetimes")
  end.

(** The interpreter's built-ins the sources call and whose code is not
    theirs. *)
Record Builtins : Type := {
  (** [datetime.fromisoformat] on a string; [None] where it raises
      [ValueError]. *)
  parse_iso : string -> option datetime;
  (** [str(v)] for a bytes object, a list or a dictionary. *)
  str_other : PyVal -> string;
  (** What [_load_config] computes from the text of the player page:
      [json.loads] of its [hydrated_data] script element (of an empty
      object when the page has none), then [.get] of the config. *)
  hydrated_config : string -> Result PyVal
}.

(** [str(v)], as an f-string field formats it. *)
Definition py_str (py : Builtins) (v : PyVal) : string :=
  match v with
  | PStr s => s
  | PNone => "None"
  | PBool true => "True"
  | PBool false => "False"
  | PInt z => NilEmpty.string_of_int (Z.to_int z)
  | _ => str_other py v
  end.

Definition str_opt (o : option string) : string :=
  match o with
  | Some s => s
  | None => "None"
  end.

(** [datetime.fromisoformat(v)]. *)
Definition fromisoformat (py : Builtins) (v : PyVal) : Result datetime :=
  match v with
  | PStr s =>
      match parse_iso py s with
      | Some d => inr d
      | None => inl (ValueError ("Invalid isoformat string: " ++ s))
      end
  | _ => inl (TypeError "fromisoformat: argument must be str")
  end.

(* ================================================================== *)
(** ** The transport and the client's state *)
(* ================================================================== *)

Definition Headers : Type := list (string * string).

(** What [session.request(method, url, **kwargs)] is called with. *)
Record HttpRequest : Type := {
  req_method : string;
  req_url : PyVal;
  req_headers : Headers;
  req_json : option PyVal
}.

(** A response that passed [raise_for_status]: its content type and
    what [resp.json()], [resp.text()] and [resp.read()] give
    ([resp_json] is [None] where decoding raises). *)
Record HttpResponse : Type := {
  content_type : string;
  resp_json : option PyVal;
  resp_text : string;
  resp_read : list Byte.byte
}.

(** How the [async with session.request(...)] block ends: with a
    response, with one of the aiohttp errors [request] catches (a
    response of status 400 or above is the [ClientResponseError] that
    [raise_for_status] raises), or with any other exception. *)
Inductive HttpOutcome : Type :=
| Responded (r : HttpResponse)
| ClientFailure (e : Exn)
| OtherFailure (e : Exn).

(** The keyword arguments of [SxmClient.request]. *)
Record Kwargs : Type := {
  kw_headers : option Headers;
  kw_json : option PyVal
}.

Definition no_kwargs : Kwargs := {| kw_headers := None; kw_json := None |}.

(** [aiosxm/const.py] *)
Definition BITRATE_256 : string := "256k".
Definition BITRATE_96 : string := "96k".
Definition BITRATE_64 : string := "64k".
Definition BITRATE_32 : string := "32k".

Definition user_agent : string :=
  "Mozilla/5.0 (Macintosh; Intel Mac OS X 10_15_7) AppleWebKit/537.36 (KHTML, like Gecko) Chrome/120.0.0.0 Safari/537.36 Edg/120.0.0.0".

(** The initial content of the module-level dictionary
    [SXM_REQUEST_HEADERS]. *)
Definition SXM_REQUEST_HEADERS_init : Headers :=
  [ ("Accept", "application/json; charset=utf-8");
    ("Accept-Language", "en-US,en;q=0.9");
    ("Baggage", "sentry-environment=prod,sentry-release=release-sxm-player-7.0");
    ("Content-Type", "application/json; charset=UTF-8");
    ("Dnt", "1");
    ("Origin", "https://www.siriusxm.com");
    ("Referer", "https://www.siriusxm.com/");
    ("Sec-Ch-Ua", "'Not_A Brand';v='8', 'Chromium';v='120', 'Microsoft Edge';v='120'");
    ("Sec-Ch-Ua-Mobile", "?0");
    ("Sec-Ch-Ua-Platform", "'macOS'");
    ("Sec-Fetch-Dest", "empty");
    ("Sec-Fetch-Mode", "cors");
    ("Sec-Fetch-Site", "same-site");
    ("User-Agent", user_agent);
    ("X-Sxm-Clock", "[0,0]");
    ("X-Sxm-Platform", "browser");
    ("X-Sxm-Tenant", "sxm") ].

Definition SXM_DEVICE_PAYLOAD : PyVal :=
  PDict
    [ ("devicePlatform", PStr "web-desktop");
      ("deviceAttributes",
       PDict
         [ ("browser",
            PDict
              [ ("browserVersion", PStr "120.0.0.0");
                ("browser", PStr "Edge");
                ("userAgent", PStr user_agent);
                ("sdk", PStr "web");
                ("app", PStr "web");
                ("sdkVersion", PStr "120.0.0.0");
                ("appVersion", PStr "120.0.0.0") ]) ]) ].

(** [class SxmStream]: the fields [__init__] sets, but for the client
    (there is one) and [_playback_key] (never read).
    [_streams_by_bitrate] holds a URL or [None] per bitrate. *)
Record SxmStream : Type := {
  entity_type : string;
  entity_id : string;
  initialized : bool;
  _tune_source : PyVal;
  _streams_by_bitrate : list (string * option string)
}.

Definition EntityKey : Type := (string * string)%type.

Definition key_eqb (a b : EntityKey) : bool :=
  String.eqb (fst a) (fst b) && String.eqb (snd a) (snd b).

(** [class SxmClient]: the fields [__init__] sets, and [_config].
    [_streams] maps an entity pair to its [SxmStream] object, named by
    its address in the object store.  The aiohttp session belongs to the
    transport. *)
Record SxmClient : Type := {
  _username : option string;
  _password : option string;
  _device_session : PyVal;
  _anonymous_session : PyVal;
  _authentication_response : PyVal;
  _authenticated_session : PyVal;
  _access_token : PyVal;
  _access_token_expiration : option datetime;
  _config : PyVal;
  _streams : list (EntityKey * nat)
}.

(** [value or os.getenv(name)]: the variable of the environment stands
    in for a value that is [None] or the empty string. *)
Definition or_getenv (environ : string -> option string)
  (value : option string) (name : string) : option string :=
  match value with
  | Some (String _ _) => value
  | _ => environ name
  end.

(** [SxmClient(username, password)], in a process whose environment is
    [environ]. *)
Definition SxmClient__init__ (environ : string -> option string)
  (username password : option string) : SxmClient :=
  {| _username := or_getenv environ username "SXM_USERNAME";
     _password := or_getenv environ password "SXM_PASSWORD";
     _device_session := PNone;
     _anonymous_session := PNone;
     _authentication_response := PNone;
     _authenticated_session := PNone;
     _access_token := PNone;
     _access_token_expiration := None;
     _config := PNone;
     _streams := [] |}.

(** What an observer of a run sees: the records the module's logger
    receives, the calls of the functions the properties count, and the
    requests handed to the transport. *)
Inductive Event : Type :=
| EvLog (msg : string)
| EvCall (fn : string)
| EvHttp (req : HttpRequest).

(** The interpreter state a coroutine of the package runs on: the one
    client, the module-level header dictionary (shared by every request
    that passes no headers), the [SxmStream] objects by address (those
    below [allocated] have been created), the reading of the UTC clock,
    and the events so far (latest last). *)
Record State : Type := {
  client : SxmClient;
  SXM_REQUEST_HEADERS : Headers;
  objects : nat -> SxmStream;
  allocated : nat;
  clock : Z;
  trace : list Event
}.

Definition set_client (f : SxmClient -> SxmClient) (s : State) : State :=
  {| client := f (client s);
     SXM_REQUEST_HEADERS := SXM_REQUEST_HEADERS s;
     objects := objects s; allocated := allocated s;
     clock := clock s; trace := trace s |}.

Definition set_global_headers (f : Headers -> Headers) (s : State) : State :=
  {| client := client s;
     SXM_REQUEST_HEADERS := f (SXM_REQUEST_HEADERS s);
     objects := objects s; allocated := allocated s;
     clock := clock s; trace := trace s |}.

Definition set_objects (f : (nat -> SxmStream) -> nat -> SxmStream)
  (s : State) : State :=
  {| client := client s;
     SXM_REQUEST_HEADERS := SXM_REQUEST_HEADERS s;
     objects := f (objects s); allocated := allocated s;
     clock := clock s; trace := trace s |}.

Definition set_allocated (n : nat) (s : State) : State :=
  {| client := client s;
     SXM_REQUEST_HEADERS := SXM_REQUEST_HEADERS s;
     objects := objects s; allocated := n;
     clock := clock s; trace := trace s |}.

Definition set_clock (t : Z) (s : State) : State :=
  {| client := client s;
     SXM_REQUEST_HEADERS := SXM_REQUEST_HEADERS s;
     objects := objects s; allocated := allocated s;
     clock := t; trace := trace s |}.

Definition emit (e : Event) (s : State) : State :=
  {| client := client s;
     SXM_REQUEST_HEADERS := SXM_REQUEST_HEADERS s;
     objects := objects s; allocated := allocated s;
     clock := clock s; trace := trace s ++ [e] |}.

Definition with_device_session (v : PyVal) (c : SxmClient) : SxmClient :=
  {| _username := _username c; _password := _password c;
     _device_session := v;
     _anonymous_session := _anonymous_session c;
     _authentication_response := _authentication_response c;
     _authenticated_session := _authenticated_session c;
     _access_token := _access_token c;
     _access_token_expiration := _access_token_expiration c;
     _config := _config c; _streams := _streams c |}.

Definition with_anonymous_session (v : PyVal) (c : SxmClient) : SxmClient :=
  {| _username := _username c; _password := _password c;
     _device_session := _device_session c;
     _anonymous_session := v;
     _authentication_response := _authentication_response c;
     _authenticated_session := _authenticated_session c;
     _access_token := _access_token c;
     _access_token_expiration := _access_token_expiration c;
     _config := _config c; _streams := _streams c |}.

Definition with_authentication_response (v : PyVal) (c : SxmClient) : SxmClient :=
  {| _username := _username c; _password := _password c;
     _device_session := _device_session c;
     _anonymous_session := _anonymous_session c;
     _authentication_response := v;
     _authenticated_session := _authenticated_session c;
     _access_token := _access_token c;
     _access_token_expiration := _access_token_expiration c;
     _config := _config c; _streams := _streams c |}.

Definition with_authenticated_session (v : PyVal) (c : SxmClient) : SxmClient :=
  {| _username := _username c; _password := _password c;
     _device_session := _device_session c;
     _anonymous_session := _anonymous_session c;
     _authentication_response := _authentication_response c;
     _authenticated_session := v;
     _access_token := _access_token c;
     _access_token_expiration := _access_token_expiration c;
     _config := _config c; _streams := _streams c |}.

Definition with_access_token (v : PyVal) (c : SxmClient) : SxmClient :=
  {| _username := _username c; _password := _password c;
     _device_session := _device_session c;
     _anonymous_session := _anonymous_session c;
     _authentication_response := _authentication_response c;
     _authenticated_session := _authenticated_session c;
     _access_token := v;
     _access_token_expiration := _access_token_expiration c;
     _config := _config c; _streams := _streams c |}.

Definition with_access_token_expiration (d : option datetime) (c : SxmClient)
  : SxmClient :=
  {| _username := _username c; _password := _password c;
     _device_session := _device_session c;
     _anonymous_session := _anonymous_session c;
     _authentication_response := _authentication_response c;
     _authenticated_session := _authenticated_session c;
     _access_token := _access_token c;
     _access_token_expiration := d;
     _config := _config c; _streams := _streams c |}.

Definition with_config (v : PyVal) (c : SxmClient) : SxmClient :=
  {| _username := _username c; _password := _password c;
     _device_session := _device_session c;
     _anonymous_session := _anonymous_session c;
     _authentication_response := _authentication_response c;
     _authenticated_session := _authenticated_session c;
     _access_token := _access_token c;
     _access_token_expiration := _access_token_expiration c;
     _config := v; _streams := _streams c |}.

Definition with_streams (r : list (EntityKey * nat)) (c : SxmClient) : SxmClient :=
  {| _username := _username c; _password := _password c;
     _device_session := _device_session c;
     _anonymous_session := _anonymous_session c;
     _authentication_response := _authentication_response c;
     _authenticated_session := _authenticated_session c;
     _access_token := _access_token c;
     _access_token_expiration := _access_token_expiration c;
     _config := _config c; _streams := r |}.

(* ================================================================== *)
(** ** Coroutines *)
(* ================================================================== *)

(** A coroutine that has been run as far as it goes without the event
    loop: it has returned or raised ([Done]), or it is suspended on a
    request to the transport ([Await]) and continues from the outcome on
    the state it is resumed with. *)
Inductive Susp (A : Type) : Type :=
| Done (st : State) (r : Result A)
| Await (st : State) (req : HttpRequest) (k : HttpOutcome -> State -> Susp A).

Arguments Done {A} st r.
Arguments Await {A} st req k.

Definition Coro (A : Type) : Type := State -> Susp A.

Fixpoint susp_bind {A B : Type} (m : Susp A) (f : A -> Coro B) : Susp B :=
  match m with
  | Done st (inr a) => f a st
  | Done st (inl e) => Done st (inl e)
  | Await st req k => Await st req (fun out st' => susp_bind (k out st') f)
  end.

Fixpoint susp_catch {A : Type} (m : Susp A) (h : Exn -> Coro A) : Susp A :=
  match m with
  | Done st (inr a) => Done st (inr a)
  | Done st (inl e) => h e st
  | Await st req k => Await st req (fun out st' => susp_catch (k out st') h)
  end.

#[export] Instance Monad_Coro : Monad Coro :=
  {| ret := fun _ a st => Done st (inr a);
     bind := fun _ _ m f st => susp_bind (m st) f |}.

#[export] Instance MonadExc_Coro : MonadExc Exn Coro :=
  {| raise := fun _ e st => Done st (inl e);
     catch := fun _ m h st => susp_catch (m st) h |}.

Definition get_state : Coro State := fun st => Done st (inr st).

Definition gets {A : Type} (f : State -> A) : Coro A :=
  fun st => Done st (inr (f st)).

Definition modify (f : State -> State) : Coro unit :=
  fun st => Done (f st) (inr tt).

(** An expression that evaluates without suspending. *)
Definition eval {A : Type} (r : Result A) : Coro A := fun st => Done st r.

(** [try: body except cls as err: handler err] *)
Definition try_except {A : Type} (body : Coro A) (cls : string)
  (handler : Exn -> Coro A) : Coro A :=
  catch body
    (fun e => if String.eqb (exn_class e) cls then handler e else raise e).

(** [async with session.request(...)]: the request goes to the
    transport and the coroutine is suspended until its outcome. *)
Definition session_request (req : HttpRequest) : Coro HttpOutcome :=
  fun st => Await (emit (EvHttp req) st) req (fun out st' => Done st' (inr out)).

Definition log (msg : string) : Coro unit := modify (emit (EvLog msg)).
Definition called (fn : string) : Coro unit := modify (emit (EvCall fn)).

(* ================================================================== *)
(** ** [aiosxm/client.py] *)
(* ================================================================== *)

(** [RequestError(url, original_exception)] *)
Definition RequestError (py : Builtins) (url : PyVal) (original_exception : Exn)
  : Exn :=
  MkExn "RequestError"
    ("Error for URL " ++ py_str py url ++ ": " ++ exn_msg original_exception)
    (Some original_exception).

(** A positional argument of a constructor call. *)
Inductive Arg : Type :=
| ArgVal (v : PyVal)
| ArgExn (e : Exn).

(** [AuthenticationError(...)]: the class declares
    [__init__(self, message, original_exception)], both required; a call
    with another number of arguments raises [TypeError]. *)
Definition AuthenticationError (py : Builtins) (args : list Arg) : Result Exn :=
  match args with
  | [ArgVal message; original_exception] =>
      inr (MkExn "AuthenticationError" (py_str py message)
             (match original_exception with
              | ArgExn e => Some e
              | ArgVal _ => None
              end))
  | [ArgExn e; original_exception] =>
      inr (MkExn "AuthenticationError" (exn_msg e)
             (match original_exception with
              | ArgExn e' => Some e'
              | ArgVal _ => None
              end))
  | [] =>
      inl (TypeError
             "AuthenticationError.__init__() missing 2 required positional arguments: 'message' and 'original_exception'")
  | [_] =>
      inl (TypeError
             "AuthenticationError.__init__() missing 1 required positional argument: 'original_exception'")
  | _ =>
      inl (TypeError
             "AuthenticationError.__init__() takes 3 positional arguments but more were given")
  end.

Definition bearer (py : Builtins) (token : PyVal) : string :=
  "Bearer " ++ py_str py token.

Definition text_content_types : list string :=
  ["text/html"; "application/x-mpegurl"; "application/vnd.apple.mpegurl"].

Definition opt_str (o : option string) : PyVal :=
  match o with
  | Some s => PStr s
  | None => PNone
  end.

Definition tune_source_url : string :=
  "https://api.edge-gateway.siriusxm.com/playback/play/v1/tuneSource".

Definition password_url : string :=
  "https://api.edge-gateway.siriusxm.com/identity/v1/identities/authenticate/password".

Section Client.

Variable py : Builtins.

(** [SxmClient.request], first part: the expiry check.
    [_authenticate] is the coroutine that [self._authenticate()] starts
    from this frame. *)
Definition refresh_if_expired (_authenticate : Coro unit) : Coro unit :=
  st <- get_state ;;
  expired <-
    match _access_token_expiration (client st) with
    | None => ret false
    | Some expiration => eval (now_ge (clock st) expiration)
    end ;;
  if expired : bool then
    log "Access token expired; requesting a new one." ;;
    modify (set_client (with_access_token PNone)) ;;
    modify (set_client (with_access_token_expiration None)) ;;
    _authenticate
  else ret tt.

(** The headers the request goes out with: the caller's dictionary, or
    the module's own where the caller passed none; with a token held,
    [Authorization] is assigned in that dictionary. *)
Definition prepare_headers (kwargs : Kwargs) : Coro Headers :=
  token <- gets (fun st => _access_token (client st)) ;;
  match kw_headers kwargs with
  | Some own =>
      ret (if truthy token
           then dict_set String.eqb own "Authorization" (bearer py token)
           else own)
  | None =>
      (if truthy token
       then modify (set_global_headers
                      (fun h => dict_set String.eqb h "Authorization"
                                  (bearer py token)))
       else ret tt) ;;
      gets SXM_REQUEST_HEADERS
  end.

(** What [request] returns or raises for an outcome of the transport. *)
Definition receive (url : PyVal) (outcome : HttpOutcome) : Coro PyVal :=
  match outcome with
  | Responded resp =>
      if String.eqb (content_type resp) "application/json" then
        match resp_json resp with
        | Some v => ret v
        | None => raise (MkExn "JSONDecodeError" "" None)
        end
      else if existsb (String.eqb (content_type resp)) text_content_types then
        ret (PStr (resp_text resp))
      else
        ret (PBytes (resp_read resp))
  | ClientFailure err =>
      log ("Error occurred while requesting " ++ py_str py url) ;;
      raise (RequestError py url err)
  | OtherFailure err => raise err
  end.

(** [SxmClient.request], second part: from the headers on. *)
Definition send (method : string) (url : PyVal) (kwargs : Kwargs) : Coro PyVal :=
  headers <- prepare_headers kwargs ;;
  outcome <- session_request
               {| req_method := method; req_url := url;
                  req_headers := headers; req_json := kw_json kwargs |} ;;
  receive url outcome.

(** [SxmClient.request], one frame. *)
Definition request_frame (_authenticate : Coro unit)
  (method : string) (url : PyVal) (kwargs : Kwargs) : Coro PyVal :=
  refresh_if_expired _authenticate ;;
  send method url kwargs.

Section Authenticate.

(** The bound method [self.request] as the methods below call it. *)
Variable request : string -> PyVal -> Kwargs -> Coro PyVal.

Definition _create_device_session : Coro unit :=
  resp <- request "POST"
            (PStr "https://api.edge-gateway.siriusxm.com/device/v1/devices")
            {| kw_headers := None; kw_json := Some SXM_DEVICE_PAYLOAD |} ;;
  modify (set_client (with_device_session resp)).

Definition _create_anonymous_session (device_grant : PyVal) : Coro unit :=
  hdrs <- gets (fun st =>
            dict_set String.eqb (SXM_REQUEST_HEADERS st) "Authorization"
              (bearer py device_grant)) ;;
  resp <- request "POST"
            (PStr "https://api.edge-gateway.siriusxm.com/session/v1/sessions/anonymous")
            {| kw_headers := Some hdrs; kw_json := Some (PBool true) |} ;;
  modify (set_client (with_anonymous_session resp)).

Definition _get_identity_status (username : option string)
  (anonymous_access_token : PyVal) : Coro PyVal :=
  hdrs <- gets (fun st =>
            dict_set String.eqb (SXM_REQUEST_HEADERS st) "Authorization"
              (bearer py anonymous_access_token)) ;;
  request "GET"
    (PStr ("https://api.edge-gateway.siriusxm.com/identity/v1/identities/status?handle="
           ++ str_opt username))
    {| kw_headers := Some hdrs; kw_json := Some (PBool true) |}.

Definition _authenticate_with_password (anonymous_access_token : PyVal)
  : Coro unit :=
  hdrs <- gets (fun st =>
            dict_set String.eqb (SXM_REQUEST_HEADERS st) "Authorization"
              (bearer py anonymous_access_token)) ;;
  c <- gets client ;;
  resp <- request "POST" (PStr password_url)
            {| kw_headers := Some hdrs;
               kw_json := Some (PDict [("handle", opt_str (_username c));
                                       ("password", opt_str (_password c))]) |} ;;
  modify (set_client (with_authentication_response resp)).

Definition _create_authenticated_session (authentication_grant : PyVal)
  : Coro unit :=
  hdrs <- gets (fun st =>
            dict_set String.eqb (SXM_REQUEST_HEADERS st) "Authorization"
              (bearer py authentication_grant)) ;;
  resp <- request "POST"
            (PStr "https://api.edge-gateway.siriusxm.com/session/v1/sessions/authenticated")
            {| kw_headers := Some hdrs; kw_json := Some (PBool true) |} ;;
  modify (set_client (with_authenticated_session resp)).

(** The [try] block of [_authenticate]. *)
Definition authentication_chain : Coro unit :=
  c <- gets client ;;
  (if negb (truthy (_device_session c))
   then _create_device_session else ret tt) ;;
  c <- gets client ;;
  device_grant <- eval (getitem (_device_session c) "grant") ;;
  _create_anonymous_session device_grant ;;
  c <- gets client ;;
  anonymous_token <- eval (getitem (_anonymous_session c) "accessToken") ;;
  identity_status <- _get_identity_status (_username c) anonymous_token ;;
  has_password <- eval (getitem identity_status "hasPassword") ;;
  (if negb (truthy has_password) then
     c <- gets client ;;
     err <- eval (AuthenticationError py
                    [ArgVal (PStr ("User " ++ str_opt (_username c)
                                   ++ " does not have a password set."))]) ;;
     raise err
   else ret tt) ;;
  c <- gets client ;;
  anonymous_token <- eval (getitem (_anonymous_session c) "accessToken") ;;
  _authenticate_with_password anonymous_token ;;
  c <- gets client ;;
  authentication_grant <-
    eval (getitem (_authentication_response c) "grant") ;;
  _create_authenticated_session authentication_grant ;;
  c <- gets client ;;
  access_token <- eval (getitem (_authenticated_session c) "accessToken") ;;
  modify (set_client (with_access_token access_token)) ;;
  c <- gets client ;;
  expires_at <-
    eval (getitem (_authenticated_session c) "accessTokenExpiresAt") ;;
  expiration <- eval (fromisoformat py expires_at) ;;
  modify (set_client (with_access_token_expiration (Some expiration))).

(** The [except RequestError as err] block of [_authenticate]. *)
Definition authentication_failed (err : Exn) : Coro unit :=
  c <- gets client ;;
  exn <- eval (AuthenticationError py
                 [ArgVal (PStr ("An error occurred during authentication of user "
                                ++ str_opt (_username c)))]) ;;
  raise (MkExn (exn_class exn) (exn_msg exn) (Some err)).

(** [SxmClient._authenticate] *)
Definition _authenticate : Coro unit :=
  called "_authenticate" ;;
  try_except authentication_chain "RequestError" authentication_failed.

(** [SxmClient._load_config()] *)
Definition _load_config : Coro unit :=
  player_html <- request "GET" (PStr "https://www.siriusxm.com/player")
                   no_kwargs ;;
  match player_html with
  | PStr html =>
      config <- eval (hydrated_config py html) ;;
      modify (set_client (with_config config))
  | PBytes _ =>
      raise (TypeError "cannot use a string pattern on a bytes-like object")
  | _ => raise (TypeError "expected string or bytes-like object")
  end.

End Authenticate.

(** [SxmClient.request]: [depth] bounds the nesting of [request] frames
    (the interpreter's recursion limit); a call below the last frame
    raises [RecursionError]. *)
Fixpoint request (depth : nat) (method : string) (url : PyVal)
  (kwargs : Kwargs) : Coro PyVal :=
  match depth with
  | O => raise RecursionError
  | S d => request_frame (_authenticate (request d)) method url kwargs
  end.

(** [SxmClient.connect] *)
Definition connect (depth : nat) : Coro unit :=
  _create_device_session (request depth) ;;
  _authenticate (request depth) ;;
  _load_config (request depth).

End Client.

(* ================================================================== *)
(** ** [aiosxm/stream.py] *)
(* ================================================================== *)

Fixpoint update_nth {A : Type} (n : nat) (f : A -> A) (xs : list A) : list A :=
  match xs, n with
  | [], _ => []
  | x :: xs', O => f x :: xs'
  | x :: xs', S n' => x :: update_nth n' f xs'
  end.

(** The object store with the object at [self] replaced. *)
Definition store (self : nat) (o : SxmStream) (h : nat -> SxmStream)
  : nat -> SxmStream :=
  fun addr => if Nat.eqb addr self then o else h addr.

(** Reading the object at an address. *)
Definition deref (self : nat) : Coro SxmStream :=
  gets (fun st => objects st self).

(** An assignment to an attribute of the object at [self]. *)
Definition assign (self : nat) (f : SxmStream -> SxmStream) : Coro unit :=
  modify (set_objects (fun h => store self (f (h self)) h)).

(** A new object, at the next address. *)
Definition new_object (o : SxmStream) : Coro nat :=
  fun st =>
    Done (set_allocated (S (allocated st))
            (set_objects (store (allocated st) o) st))
         (inr (allocated st)).

(** [SxmStream(client, entity_type, entity_id)] *)
Definition SxmStream__init__ (entity_type entity_id : string) : SxmStream :=
  {| entity_type := entity_type; entity_id := entity_id;
     initialized := false; _tune_source := PNone;
     _streams_by_bitrate := [] |}.

Definition with_tune_source (v : PyVal) (o : SxmStream) : SxmStream :=
  {| entity_type := entity_type o; entity_id := entity_id o;
     initialized := initialized o; _tune_source := v;
     _streams_by_bitrate := _streams_by_bitrate o |}.

Definition with_initialized (b : bool) (o : SxmStream) : SxmStream :=
  {| entity_type := entity_type o; entity_id := entity_id o;
     initialized := b; _tune_source := _tune_source o;
     _streams_by_bitrate := _streams_by_bitrate o |}.

Definition with_bitrate (bitrate : string) (url : option string) (o : SxmStream)
  : SxmStream :=
  {| entity_type := entity_type o; entity_id := entity_id o;
     initialized := initialized o; _tune_source := _tune_source o;
     _streams_by_bitrate :=
       dict_set String.eqb (_streams_by_bitrate o) bitrate url |}.

Definition and_then {A B : Type} (r : Result A) (f : A -> Result B) : Result B :=
  match r with
  | inl e => inl e
  | inr a => f a
  end.

(** [tune_source["streams"][0]] *)
Definition first_stream (tune_source : PyVal) : Result PyVal :=
  and_then (getitem tune_source "streams") getitem0.


(** [SxmStream.streams_by_bitrate_url] *)
Definition streams_by_bitrate_url (o : SxmStream) : Result PyVal :=
  and_then (first_stream (_tune_source o)) (fun s =>
  and_then (getitem s "urls") (fun urls =>
  and_then (getitem0 urls) (fun u => getitem u "url"))).

(** [url.rsplit("/", 1)[0]] *)
Definition rsplit_head (url : PyVal) : Result string :=
  match url with
  | PStr s => inr (hd s (PyStr.rsplit1 PyStr.slash s))
  | PBytes _ => inl (TypeError "a bytes-like object is required, not 'str'")
  | _ => inl (AttributeError "object has no attribute 'rsplit'")
  end.

(** [SxmStream.base_url] *)
Definition base_url (o : SxmStream) : Result string :=
  and_then (streams_by_bitrate_url o) rsplit_head.

(** What [match.group(0)] is for
    [re.search(rf"^.*_{bitrate}_full_v3\.m3u8.*$", text, re.MULTILINE)]:
    with [re.MULTILINE], [^] and [$] delimit the lines that the newline
    character separates, and [.] matches every other character, so the
    leftmost match is the whole first line that contains
    [_{bitrate}_full_v3.m3u8]. *)
Definition playlist_needle (bitrate : string) : string :=
  "_" ++ bitrate ++ "_full_v3.m3u8".

Definition search_playlist_line (bitrate : string) (text : string)
  : option string :=
  find (PyStr.contains (playlist_needle bitrate))
       (PyStr.split PyStr.newline text).

(** [re.search(pattern, v, re.MULTILINE)] on the value a request gave. *)
Definition re_search_playlist (bitrate : string) (v : PyVal)
  : Result (option string) :=
  match v with
  | PStr text => inr (search_playlist_line bitrate text)
  | PBytes _ =>
      inl (TypeError "cannot use a string pattern on a bytes-like object")
  | _ => inl (TypeError "expected string or bytes-like object")
  end.

Fixpoint for_each {A : Type} (xs : list A) (body : A -> Coro unit) : Coro unit :=
  match xs with
  | [] => ret tt
  | x :: xs' => body x ;; for_each xs' body
  end.

Definition probe_order : list string :=
  [BITRATE_256; BITRATE_96; BITRATE_64; BITRATE_32].



(** [dict.get(key)] on a dictionary whose values may be [None]. *)
Definition get_or_none (d : list (string * option string)) (key : string)
  : option string :=
  match dict_get String.eqb d key with
  | Some v => v
  | None => None
  end.

(** The keyword arguments of the tune-source request of a handle. *)
Definition tune_kwargs (o : SxmStream) : Kwargs :=
  {| kw_headers := None;
     kw_json := Some (PDict [("id", PStr (entity_id o));
                             ("type", PStr (entity_type o));
                             ("hlsVersion", PStr "V3");
                             ("manifestVariant", PStr "FULL");
                             ("mtcVersion", PStr "V2")]) |}.

(** What the loop of [initialize] assigns for a bitrate. *)
Definition probe (text base bitrate : string) : option string :=
  match search_playlist_line bitrate text with
  | Some line => Some (base ++ "/" ++ PyStr.strip line)%string
  | None => None
  end.

Section Stream.

Variable py : Builtins.
Variable depth : nat.

(** The body of the loop of [initialize]. *)
Definition probe_bitrate (self : nat) (streams_by_bitrate : PyVal)
  (bitrate : string) : Coro unit :=
  found <- eval (re_search_playlist bitrate streams_by_bitrate) ;;
  match found with
  | Some line =>
      o <- deref self ;;
      base <- eval (base_url o) ;;
      assign self
        (with_bitrate bitrate (Some (base ++ "/" ++ PyStr.strip line)%string))
  | None => assign self (with_bitrate bitrate None)
  end.

(** [SxmStream.initialize] *)
Definition initialize (self : nat) : Coro unit :=
  called "initialize" ;;
  o <- deref self ;;
  tune_source <-
    request py depth "POST" (PStr tune_source_url) (tune_kwargs o) ;;
  assign self (with_tune_source tune_source) ;;
  o <- deref self ;;
  manifest_url <- eval (streams_by_bitrate_url o) ;;
  streams_by_bitrate <- request py depth "GET" manifest_url no_kwargs ;;
  for_each probe_order (probe_bitrate self streams_by_bitrate) ;;
  assign self (with_initialized true).

(** [SxmStream.get_playlist] *)
Definition get_playlist (self : nat) (bitrate : string) : Coro PyVal :=
  o <- deref self ;;
  request py depth "GET"
    (opt_str (get_or_none (_streams_by_bitrate o) bitrate)) no_kwargs.

(** [SxmStream.get_segment] *)
Definition get_segment (self : nat) (segment_file : string) (bitrate : string)
  : Coro PyVal :=
  o <- deref self ;;
  bitrate_dir <-
    match get_or_none (_streams_by_bitrate o) bitrate with
    | None => raise (AttributeError "'NoneType' object has no attribute 'split'")
    | Some url =>
        match PyStr.second_to_last (PyStr.split PyStr.slash url) with
        | Some d => ret d
        | None => raise (IndexError "list index out of range")
        end
    end ;;
  base <- eval (base_url o) ;;
  request py depth "GET"
    (PStr (base ++ "/" ++ bitrate_dir ++ "/" ++ segment_file)) no_kwargs.


(** [SxmClient.get_stream] *)
Definition get_stream (entity_type entity_id : string) : Coro nat :=
  called "get_stream" ;;
  c <- gets client ;;
  match dict_get key_eqb (_streams c) (entity_type, entity_id) with
  | Some _ => ret tt
  | None =>
      addr <- new_object (SxmStream__init__ entity_type entity_id) ;;
      modify (set_client
                (fun c => with_streams
                            (dict_set key_eqb (_streams c)
                               (entity_type, entity_id) addr) c))
  end ;;
  c <- gets client ;;
  stream <-
    match dict_get key_eqb (_streams c) (entity_type, entity_id) with
    | Some addr => ret addr
    | None => raise (KeyError (entity_type ++ "," ++ entity_id))
    end ;;
  o <- deref stream ;;
  (if negb (initialized o) then initialize stream else ret tt) ;;
  ret stream.

End Stream.

(* ================================================================== *)
(** ** [aiosxm/proxy.py]: the playlist handler *)
(* ================================================================== *)

Module Proxy.

(** The text before the group of
    [find = r'#EXT-X-KEY:METHOD=AES-128,URI="(.+?)"']. *)
Definition key_prefix : string :=
  "#EXT-X-KEY:METHOD=AES-128,URI=" ++ String PyStr.dquote "".

Fixpoint strip_prefix (p s : string) : option string :=
  match p with
  | EmptyString => Some s
  | String a p' =>
      match s with
      | EmptyString => None
      | String b s' => if Ascii.eqb a b then strip_prefix p' s' else None
      end
  end.

(** The shortest run of characters other than the newline that a double
    quote follows: the run, and the text after the quote. *)
Fixpoint until_quote (s : string) : option (string * string) :=
  match s with
  | EmptyString => None
  | String c s' =>
      if Ascii.eqb c PyStr.dquote then Some (EmptyString, s')
      else if Ascii.eqb c PyStr.newline then None
      else match until_quote s' with
           | Some (g, rest) => Some (String c g, rest)
           | None => None
           end
  end.

(** The lazy group [(.+?)] and the closing quote: one character that is
    not the newline, then as few more as reach a double quote. *)
Definition lazy_group (s : string) : option (string * string) :=
  match s with
  | EmptyString => None
  | String c s' =>
      if Ascii.eqb c PyStr.newline then None
      else match until_quote s' with
           | Some (g, rest) => Some (String c g, rest)
           | None => None
           end
  end.

(** A match of [find] that starts at the head of [s]: group 1 and the
    text after the match. *)
Definition match_here (s : string) : option (string * string) :=
  match strip_prefix key_prefix s with
  | Some after => lazy_group after
  | None => None
  end.

(** A parsed replacement template: literal characters and references to
    group 0 (the match) or group 1. *)
Inductive Piece : Type :=
| Lit (c : ascii)
| Group (n : nat).

Definition re_error (msg : string) : Exn := MkExn "re.error" msg None.

Definition is_digit (c : ascii) : bool :=
  let n := nat_of_ascii c in Nat.leb 48 n && Nat.leb n 57.

Definition is_octdigit (c : ascii) : bool :=
  let n := nat_of_ascii c in Nat.leb 48 n && Nat.leb n 55.

Definition is_ascii_letter (c : ascii) : bool :=
  let n := nat_of_ascii c in
  (Nat.leb 65 n && Nat.leb n 90) || (Nat.leb 97 n && Nat.leb n 122).

Definition digit_val (c : ascii) : nat := nat_of_ascii c - 48.

(** The escapes a template turns into one character. *)
Definition escape_char (c : ascii) : option ascii :=
  if Ascii.eqb c "a" then Some (ascii_of_nat 7)
  else if Ascii.eqb c "b" then Some (ascii_of_nat 8)
  else if Ascii.eqb c "f" then Some (ascii_of_nat 12)
  else if Ascii.eqb c "n" then Some (ascii_of_nat 10)
  else if Ascii.eqb c "r" then Some (ascii_of_nat 13)
  else if Ascii.eqb c "t" then Some (ascii_of_nat 9)
  else if Ascii.eqb c "v" then Some (ascii_of_nat 11)
  else if Ascii.eqb c PyStr.backslash then Some PyStr.backslash
  else None.

Fixpoint take_until (stop : ascii) (s : string) : option (string * string) :=
  match s with
  | EmptyString => None
  | String c s' =>
      if Ascii.eqb c stop then Some (EmptyString, s')
      else match take_until stop s' with
           | Some (a, b) => Some (String c a, b)
           | None => None
           end
  end.

Fixpoint all_chars (p : ascii -> bool) (s : string) : bool :=
  match s with
  | EmptyString => true
  | String c s' => p c && all_chars p s'
  end.

Fixpoint decimal_value (acc : nat) (s : string) : nat :=
  match s with
  | EmptyString => acc
  | String c s' => decimal_value (10 * acc + digit_val c) s'
  end.

(** The characters that start an identifier, below code point 256: the
    ASCII letters, the underscore, the ordinal indicators, the micro sign
    and the letters of Latin-1. *)
Definition is_id_start (c : ascii) : bool :=
  let n := nat_of_ascii c in
  is_ascii_letter c || Ascii.eqb c "_"
  || Nat.eqb n 170 || Nat.eqb n 181 || Nat.eqb n 186
  || (Nat.leb 192 n && Nat.leb n 214) || (Nat.leb 216 n && Nat.leb n 246)
  || Nat.leb 248 n.

(** Those that continue one: also the digits and the middle dot. *)
Definition is_id_continue (c : ascii) : bool :=
  is_id_start c || is_digit c || Nat.eqb (nat_of_ascii c) 183.

(** [str.isidentifier()]. *)
Definition is_identifier (s : string) : bool :=
  match s with
  | EmptyString => false
  | String c s' => is_id_start c && all_chars is_id_continue s'
  end.

(** A reference to group [index] of a pattern that has one group. *)
Definition group_ref (index : nat) : Result Piece :=
  if Nat.leb index 1 then inr (Group index)
  else inl (re_error "invalid group reference").

(** The replacement template of [re.sub] for a pattern with one
    unnamed group, as [re] parses it: [fuel] bounds the number of escapes
    and characters read.  The messages of the errors are shortened. *)
Fixpoint parse_template (fuel : nat) (s : string) : Result (list Piece) :=
  match fuel with
  | O => inr []
  | S fuel' =>
      let continue piece rest :=
        and_then (parse_template fuel' rest) (fun ps => inr (piece ++ ps)) in
      match s with
      | EmptyString => inr []
      | String c s1 =>
          if negb (Ascii.eqb c PyStr.backslash) then continue [Lit c] s1
          else
            match s1 with
            | EmptyString => inl (re_error "bad escape (end of pattern)")
            | String e s2 =>
                if Ascii.eqb e "g" then
                  match s2 with
                  | String "<" s3 =>
                      match take_until ">" s3 with
                      | None => inl (re_error "missing >, unterminated name")
                      | Some (EmptyString, _) =>
                          inl (re_error "missing group name")
                      | Some (name, s4) =>
                          if all_chars is_digit name then
                            and_then (group_ref (decimal_value 0 name))
                              (fun g => continue [g] s4)
                          else if is_identifier name then
                            inl (IndexError "unknown group name")
                          else inl (re_error "bad character in group name")
                      end
                  | _ => inl (re_error "missing <")
                  end
                else if Ascii.eqb e "0" then
                  match s2 with
                  | String d1 s3 =>
                      if is_octdigit d1 then
                        match s3 with
                        | String d2 s4 =>
                            if is_octdigit d2 then
                              continue
                                [Lit (ascii_of_nat
                                        ((8 * digit_val d1 + digit_val d2) mod 256))]
                                s4
                            else continue [Lit (ascii_of_nat (digit_val d1))] s3
                        | EmptyString =>
                            continue [Lit (ascii_of_nat (digit_val d1))] s3
                        end
                      else continue [Lit (ascii_of_nat 0)] s2
                  | EmptyString => continue [Lit (ascii_of_nat 0)] s2
                  end
                else if is_digit e then
                  match s2 with
                  | String d1 s3 =>
                      if is_digit d1 then
                        match s3 with
                        | String d2 s4 =>
                            if is_octdigit e && is_octdigit d1 && is_octdigit d2
                            then
                              let code := 64 * digit_val e + 8 * digit_val d1
                                          + digit_val d2 in
                              if Nat.leb code 255
                              then continue [Lit (ascii_of_nat code)] s4
                              else inl (re_error "octal escape value outside of range 0-0o377")
                            else
                              and_then
                                (group_ref (10 * digit_val e + digit_val d1))
                                (fun g => continue [g] s3)
                        | EmptyString =>
                            and_then
                              (group_ref (10 * digit_val e + digit_val d1))
                              (fun g => continue [g] s3)
                        end
                      else
                        and_then (group_ref (digit_val e))
                          (fun g => continue [g] s2)
                  | EmptyString =>
                      and_then (group_ref (digit_val e))
                        (fun g => continue [g] s2)
                  end
                else
                  match escape_char e with
                  | Some ch => continue [Lit ch] s2
                  | None =>
                      if is_ascii_letter e then inl (re_error "bad escape")
                      else continue [Lit c; Lit e] s2
                  end
            end
      end
  end.

Fixpoint expand (template : list Piece) (whole group1 : string) : string :=
  match template with
  | [] => EmptyString
  | Lit c :: t => String c (expand t whole group1)
  | Group O :: t => whole ++ expand t whole group1
  | Group _ :: t => group1 ++ expand t whole group1
  end.

(** The scan of [re.sub]: at each position that no earlier match
    covers ([skip] counts the characters of the last match still to pass),
    a match of [find] is replaced by the expanded template and every
    other character is copied. *)
Fixpoint sub_scan (template : list Piece) (skip : nat) (s : string) : string :=
  match s with
  | EmptyString => EmptyString
  | String c s' =>
      match skip with
      | S n => sub_scan template n s'
      | O =>
          match match_here s with
          | Some (uri, rest) =>
              let size := String.length s - String.length rest in
              expand template (substring 0 size s) uri
              ++ sub_scan template (size - 1) s'
          | None => String c (sub_scan template O s')
          end
      end
  end.

(** [re.sub(find, replace, text)]: the template is compiled before the
    text is scanned. *)
Definition re_sub_key (replace : string) (text : string) : Result string :=
  and_then (parse_template (S (String.length replace)) replace)
    (fun template => inr (sub_scan template O text)).

(** The local key path of an entity. *)
Definition key_path (entity_type entity_id : string) : string :=
  "/stream/" ++ entity_type ++ "/" ++ entity_id ++ "/key".

(** The f-string [replace] of the handler. *)
Definition replacement (entity_type entity_id : string) : string :=
  key_prefix ++ key_path entity_type entity_id ++ String PyStr.dquote "".

(** The rewriting step of the handler:
    [re.sub(find, replace, playlist_data)]. *)
Definition rewrite_playlist (playlist_data entity_type entity_id : string)
  : Result string :=
  re_sub_key (replacement entity_type entity_id) playlist_data.

(** The same on the value a request gave: [re.sub] compiles the
    template before it looks at the subject, which must be a [str] for
    the [str] pattern. *)
Definition rewrite_playlist_value (playlist_data : PyVal)
  (entity_type entity_id : string) : Result string :=
  let replace := replacement entity_type entity_id in
  match playlist_data with
  | PStr text => rewrite_playlist text entity_type entity_id
  | PBytes _ =>
      and_then (parse_template (S (String.length replace)) replace)
        (fun _ =>
           inl (TypeError "cannot use a string pattern on a bytes-like object"))
  | _ =>
      and_then (parse_template (S (String.length replace)) replace)
        (fun _ => inl (TypeError "expected string or bytes-like object"))
  end.

(** [web.Response(body=..., content_type=...)] *)
Record Response : Type := {
  body : string;
  response_content_type : string
}.

Section Handlers.

Variable py : Builtins.
Variable depth : nat.

(** [get_playlist(request)], for the path
    [/stream/{entity_type}/{entity_id}/playlist.m3u8]. *)
Definition get_playlist (entity_type entity_id : string) : Coro Response :=
  stream <- get_stream py depth entity_type entity_id ;;
  initialize py depth stream ;;
  playlist_data <- get_playlist py depth stream BITRATE_256 ;;
  proxy_playlist_data <-
    eval (rewrite_playlist_value playlist_data entity_type entity_id) ;;
  ret {| body := proxy_playlist_data;
         response_content_type := "application/x-mpegURL" |}.

End Handlers.

End Proxy.

(* ================================================================== *)
(** ** The event loop *)
(* ================================================================== *)

(** The world outside the process: the transport with the service
    behind it, and the clock.  The transport answers a request from the
    state of the world and changes it. *)
Record Env : Type := {
  World : Type;
  serve : World -> HttpRequest -> HttpOutcome * World;
  time : World -> Z
}.

Section Loop.

Variable E : Env.

(** One task alone on the loop: every suspension is resumed with the
    outcome the transport gives, on the state the task left with the
    clock read again. *)
Fixpoint run {A : Type} (w : World E) (m : Susp A)
  : State * Result A * World E :=
  match m with
  | Done st r => (st, r, w)
  | Await st req k =>
      let (outcome, w') := serve E w req in
      run w' (k outcome (set_clock (time E w') st))
  end.

(** A task of the loop: not started yet, suspended on a request, or
    finished. *)
Inductive Task (A : Type) : Type :=
| Ready (c : Coro A)
| Suspended (req : HttpRequest) (k : HttpOutcome -> State -> Susp A)
| Finished (r : Result A).

Arguments Ready {A} c.
Arguments Suspended {A} req k.
Arguments Finished {A} r.

(** The loop: the state the tasks share, the tasks, and the world. *)
Record Loop (A : Type) : Type := {
  shared : State;
  tasks : list (Task A);
  world : World E
}.

Arguments shared {A} l.
Arguments tasks {A} l.
Arguments world {A} l.

Definition settle {A : Type} (m : Susp A) : State * Task A :=
  match m with
  | Done st r => (st, Finished r)
  | Await st req k => (st, Suspended req k)
  end.

(** The loop runs task [i] up to its next suspension. *)
Definition step {A : Type} (l : Loop A) (i : nat) : Loop A :=
  match nth_error (tasks l) i with
  | Some (Ready c) =>
      let (st, t) := settle (c (shared l)) in
      {| shared := st; tasks := update_nth i (fun _ => t) (tasks l);
         world := world l |}
  | Some (Suspended req k) =>
      let (outcome, w') := serve E (world l) req in
      let (st, t) := settle (k outcome (set_clock (time E w') (shared l))) in
      {| shared := st; tasks := update_nth i (fun _ => t) (tasks l);
         world := w' |}
  | Some (Finished _) => l
  | None => l
  end.

(** The loop runs the tasks in the order given. *)
Definition schedule {A : Type} (order : list nat) (l : Loop A) : Loop A :=
  fold_left step order l.

End Loop.

Arguments Ready {A} c.
Arguments Suspended {A} req k.
Arguments Finished {A} r.
Arguments shared {E A} l.
Arguments tasks {E A} l.
Arguments world {E A} l.

(** The events of a trace that are calls of [fn]. *)
Definition calls (fn : string) (tr : list Event) : nat :=
  length (filter (fun e => match e with
                           | EvCall f => String.eqb f fn
                           | _ => false
                           end) tr).

(** The requests of a trace, in order. *)
Fixpoint requests (tr : list Event) : list HttpRequest :=
  match tr with
  | [] => []
  | EvHttp r :: tr' => r :: requests tr'
  | _ :: tr' => requests tr'
  end.

Definition url_is (u : string) (r : HttpRequest) : bool :=
  match req_url r with
  | PStr s => String.eqb s u
  | _ => false
  end.


(** The state a run ends in, and what it returned or raised. *)
Definition final {E : Env} {A : Type} (x : State * Result A * World E) : State :=
  fst (fst x).

Definition result {E : Env} {A : Type} (x : State * Result A * World E)
  : Result A :=
  snd (fst x).


(* ================================================================== *)
(** ** [aiosxm/client.py]: the listing methods *)
(* ================================================================== *)

(** [v[k1][k2]...]: the subscripts from left to right. *)
Fixpoint path (v : PyVal) (keys : list string) : Result PyVal :=
  match keys with
  | [] => inr v
  | k :: ks => and_then (getitem v k) (fun x => path x ks)
  end.

(** The entries of a dictionary in the order of insertion: of the
    bindings of a key, the first is the entry. *)
Fixpoint dict_items (seen : list string) (kvs : list (string * PyVal))
  : list (string * PyVal) :=
  match kvs with
  | [] => []
  | (k, v) :: rest =>
      if existsb (String.eqb k) seen then dict_items seen rest
      else (k, v) :: dict_items (k :: seen) rest
  end.

(** [type(v).__name__] *)
Definition type_name (v : PyVal) : string :=
  match v with
  | PNone => "NoneType"
  | PBool _ => "bool"
  | PInt _ => "int"
  | PStr _ => "str"
  | PBytes _ => "bytes"
  | PList _ => "list"
  | PDict _ => "dict"
  end.

Definition no_attribute (v : PyVal) (name : string) : Exn :=
  AttributeError ("'" ++ type_name v ++ "' object has no attribute '" ++ name ++ "'").

(** [list(v.values())] *)
Definition py_values (v : PyVal) : Result (list PyVal) :=
  match v with
  | PDict kvs => inr (map snd (dict_items [] kvs))
  | _ => inl (no_attribute v "values")
  end.

(** [v.get(key)] *)
Definition py_get (v : PyVal) (key : string) : Result PyVal :=
  match v with
  | PDict kvs =>
      inr (match dict_get String.eqb kvs key with
           | Some x => x
           | None => PNone
           end)
  | _ => inl (no_attribute v "get")
  end.

(** The values [for c in v] goes through. *)
Definition py_iter (v : PyVal) : Result (list PyVal) :=
  match v with
  | PList xs => inr xs
  | PDict kvs => inr (map (fun kv => PStr (fst kv)) (dict_items [] kvs))
  | PStr s => inr (map (fun c => PStr (String c "")) (list_ascii_of_string s))
  | PBytes bs => inr (map (fun b => PInt (Z.of_N (Byte.to_N b))) bs)
  | _ => inl (TypeError ("'" ++ type_name v ++ "' object is not iterable"))
  end.

(** [[f(x) for x in xs]]: the first element on which [f] raises ends
    the comprehension. *)
Fixpoint comprehension {A B : Type} (f : A -> Result B) (xs : list A)
  : Result (list B) :=
  match xs with
  | [] => inr []
  | x :: xs' =>
      and_then (f x) (fun y =>
      and_then (comprehension f xs') (fun ys => inr (y :: ys)))
  end.

Definition library_url : string :=
  "https://api.edge-gateway.siriusxm.com/ondemand/v1/library/all".

Definition channels_url : string :=
  "https://api.edge-gateway.siriusxm.com/relationship/v1/container/all-channels?entityType=curated-grouping&entityId=&offset=0&size=1000".

Definition podcast_url (podcast_entity_id : string) : string :=
  "https://api.edge-gateway.siriusxm.com/relationship/v1/container/aod?&entityType=show-podcast&entityId="
  ++ podcast_entity_id ++ "&offset=0&size=1000&maxResponses=1000".

(** The keyword arguments [json=True]. *)
Definition json_true : Kwargs :=
  {| kw_headers := None; kw_json := Some (PBool true) |}.

(** [resp["container"]["sets"][0]["items"]], as a [for] goes through
    it. *)
Definition container_items (resp : PyVal) : Result (list PyVal) :=
  and_then (getitem resp "container") (fun container =>
  and_then (getitem container "sets") (fun sets =>
  and_then (getitem0 sets) (fun set0 =>
  and_then (getitem set0 "items") py_iter))).

(** The dictionary display of [get_channels] for an item [c]: its
    values are evaluated in the order written. *)
Definition channel_summary (c : PyVal) : Result PyVal :=
  and_then (path c ["decorations"; "channelNumber"]) (fun channelNumber =>
  and_then (path c ["decorations"; "unentitled"]) (fun unentitled =>
  and_then (path c ["entity"; "type"]) (fun type =>
  and_then (path c ["entity"; "id"]) (fun id =>
  and_then (path c ["entity"; "texts"; "title"; "default"]) (fun title =>
  and_then (and_then (path c ["entity"; "texts"; "title"])
              (fun t => py_get t "short")) (fun title_short =>
  and_then (path c ["entity"; "texts"; "description"; "default"])
    (fun description =>
  and_then (path c ["entity"; "images"]) (fun images =>
  inr (PDict [("channelNumber", channelNumber);
              ("unentitled", unentitled);
              ("type", type);
              ("id", id);
              ("title", title);
              ("title_short", title_short);
              ("description", description);
              ("images", images)]))))))))).

Section Listing.

Variable py : Builtins.
Variable depth : nat.

(** [SxmClient.get_library] *)
Definition get_library : Coro PyVal :=
  resp <- request py depth "GET" (PStr library_url) json_true ;;
  all_data <- eval (getitem resp "allDataMap") ;;
  values <- eval (py_values all_data) ;;
  ret (PList values).

(** [SxmClient.get_channels] *)
Definition get_channels : Coro PyVal :=
  resp <- request py depth "GET" (PStr channels_url) json_true ;;
  items <- eval (container_items resp) ;;
  channels <- eval (comprehension channel_summary items) ;;
  ret (PList channels).

(** [SxmClient.get_podcast_episodes] *)
Definition get_podcast_episodes (podcast_entity_id : string) : Coro PyVal :=
  resp <- request py depth "GET" (PStr (podcast_url podcast_entity_id))
            json_true ;;
  items <- eval (container_items resp) ;;
  episodes <- eval (comprehension (fun r => getitem r "entity") items) ;;
  ret (PList episodes).

End Listing.

(* ================================================================== *)
(** ** [aiosxm/client.py]: the aiohttp session *)
(* ================================================================== *)

(** The part of the interpreter state the session methods work on: the
    two session fields of the client, and the [ClientSession] objects by
    address (those below [created] exist) with their [closed]
    property. *)
Record Http : Type := {
  _http_client_session : option nat;
  _http_client_session_internal : bool;
  closed : nat -> bool;
  created : nat
}.

(** What [SxmClient.__init__] sets for [session]. *)
Definition session__init__ (session : option nat) (closed : nat -> bool)
  (created : nat) : Http :=
  {| _http_client_session := session;
     _http_client_session_internal := false;
     closed := closed; created := created |}.

(** [ClientSession(timeout=...)]: a new object, open, at the next
    address. *)
Definition ClientSession (h : Http) : nat * Http :=
  (created h,
   {| _http_client_session := _http_client_session h;
      _http_client_session_internal := _http_client_session_internal h;
      closed := fun a => if Nat.eqb a (created h) then false else closed h a;
      created := S (created h) |}).

(** [await session.close()] *)
Definition close (session : nat) (h : Http) : Http :=
  {| _http_client_session := _http_client_session h;
     _http_client_session_internal := _http_client_session_internal h;
     closed := fun a => if Nat.eqb a session then true else closed h a;
     created := created h |}.

(** [SxmClient._get_http_client_session]: a session object counts as
    true. *)
Definition _get_http_client_session (h : Http) : nat * Http :=
  match _http_client_session h with
  | Some s =>
      if closed h s then
        let (s', h') := ClientSession h in
        (s', {| _http_client_session := Some s';
                _http_client_session_internal := true;
                closed := closed h'; created := created h' |})
      else (s, h)
  | None =>
      let (s', h') := ClientSession h in
      (s', {| _http_client_session := Some s';
              _http_client_session_internal := true;
              closed := closed h'; created := created h' |})
  end.

(** [SxmClient.disconnect] *)
Definition disconnect (h : Http) : Http :=
  match _http_client_session_internal h, _http_client_session h with
  | true, Some s =>
      let h' := close s h in
      {| _http_client_session := None;
         _http_client_session_internal := false;
         closed := closed h'; created := created h' |}
  | _, _ => h
  end.

(** [SxmClient.__aexit__] *)
Definition __aexit__ (h : Http) : Http := disconnect h.

(** What a program does with the client's session, one after the
    other: a [request] (which asks for the session), [disconnect], or
    the owner of a session closing it. *)
Inductive SessionOp : Type :=
| OpRequest
| OpDisconnect
| OpClose (session : nat).

Definition session_step (h : Http) (op : SessionOp) : Http :=
  match op with
  | OpRequest => snd (_get_http_client_session h)
  | OpDisconnect => disconnect h
  | OpClose s => close s h
  end.

Definition session_run (ops : list SessionOp) (h : Http) : Http :=
  fold_left session_step ops h.

(* ================================================================== *)
(** ** The vocabulary of the properties *)
(* ================================================================== *)

(** ** Invariants along a run

    [Keeps I R c]: from a state in [I], the run of [c] ends in a state
    in [I] that [R] relates to the first.  [Moves I R c] drops the
    invariant at the end. *)

Definition Keeps (E : Env) {A : Type} (I : State -> Prop)
  (R : State -> State -> Prop) (c : Coro A) : Prop :=
  forall st w, I st ->
    R st (final (run E w (c st))) /\ I (final (run E w (c st))).

Definition Moves (E : Env) {A : Type} (I : State -> Prop)
  (R : State -> State -> Prop) (c : Coro A) : Prop :=
  forall st w, I st -> R st (final (run E w (c st))).

(** [Agree I c1 c2]: from a state in [I], [c1] and [c2] run alike. *)
Definition Agree (E : Env) {A : Type} (I : State -> Prop) (c1 c2 : Coro A)
  : Prop :=
  forall st w, I st -> run E w (c1 st) = run E w (c2 st).

(** [Ensures Q c]: a run of [c] that returns ends in [Q]. *)
Definition Ensures (E : Env) {A : Type} (Q : State -> Prop) (c : Coro A)
  : Prop :=
  forall st w a, result (run E w (c st)) = inr a -> Q (final (run E w (c st))).

(** A state change that keeps [I] and stays within [R]. *)
Definition Respects (I : State -> Prop) (R : State -> State -> Prop)
  (f : State -> State) : Prop :=
  forall st, I st -> R st (f st) /\ I (f st).

(** [I] and [R] are indifferent to what a request and the sessions of
    the authentication chain change: the events of the transport and of
    the logger, the clock, the header dictionary, the session fields and
    the token. *)
Record Stable (I : State -> Prop) (R : State -> State -> Prop) : Prop := {
  stable_refl : forall st, R st st;
  stable_trans : forall a b c, R a b -> R b c -> R a c;
  stable_http : forall r, Respects I R (emit (EvHttp r));
  stable_log : forall m, Respects I R (emit (EvLog m));
  stable_clock : forall t, Respects I R (set_clock t);
  stable_headers : forall f, Respects I R (set_global_headers f);
  stable_device : forall v, Respects I R (set_client (with_device_session v));
  stable_anonymous :
    forall v, Respects I R (set_client (with_anonymous_session v));
  stable_response :
    forall v, Respects I R (set_client (with_authentication_response v));
  stable_authenticated :
    forall v, Respects I R (set_client (with_authenticated_session v));
  stable_token : forall v, Respects I R (set_client (with_access_token v));
  stable_config : forall v, Respects I R (set_client (with_config v))
}.

(** No expiration is held. *)
Definition no_expiry (st : State) : Prop :=
  _access_token_expiration (client st) = None.

(** The state in which [request] starts the chain: the expiry is
    logged, the token and its expiration are cleared. *)
Definition cleared (st : State) : State :=
  set_client (with_access_token_expiration None)
    (set_client (with_access_token PNone)
       (emit (EvLog "Access token expired; requesting a new one.") st)).

(** The number of authentication chains started is the same. *)
Definition same_chains (a b : State) : Prop :=
  calls "_authenticate" (trace b) = calls "_authenticate" (trace a).

(** The stream objects and the registry are the same. *)
Definition same_streams (a b : State) : Prop :=
  objects b = objects a /\ allocated b = allocated a
  /\ _streams (client b) = _streams (client a).

(** The request a [send] hands to the transport from [st], and the
    state it leaves when it does. *)
Definition outgoing_headers (py : Builtins) (kw : Kwargs) (st : State)
  : Headers :=
  let token := _access_token (client st) in
  match kw_headers kw with
  | Some own =>
      if truthy token
      then dict_set String.eqb own "Authorization" (bearer py token) else own
  | None =>
      if truthy token
      then dict_set String.eqb (SXM_REQUEST_HEADERS st) "Authorization"
             (bearer py token)
      else SXM_REQUEST_HEADERS st
  end.

Definition outgoing (py : Builtins) (m : string) (u : PyVal) (kw : Kwargs)
  (st : State) : HttpRequest :=
  {| req_method := m; req_url := u;
     req_headers := outgoing_headers py kw st; req_json := kw_json kw |}.

Definition sending (py : Builtins) (m : string) (u : PyVal) (kw : Kwargs)
  (st : State) : State :=
  emit (EvHttp (outgoing py m u kw st))
    (match kw_headers kw with
     | Some _ => st
     | None =>
         if truthy (_access_token (client st))
         then set_global_headers
                (fun h => dict_set String.eqb h "Authorization"
                            (bearer py (_access_token (client st)))) st
         else st
     end).

(** The token state asks for no refresh: no expiration is held, or the
    clock has not reached it. *)
Definition no_refresh (st : State) : Prop :=
  forall exp, _access_token_expiration (client st) = Some exp ->
              now_ge (clock st) exp = inr false.

(** The chain, when it returns, has stored the access token of the
    authenticated session it created, and an expiration. *)
Definition token_stored (st : State) : Prop :=
  getitem (_authenticated_session (client st)) "accessToken" =
    inr (_access_token (client st))
  /\ _access_token_expiration (client st) <> None.

(** What the loop of [initialize] makes of a handle. *)
Definition probe_all (text base : string) (bitrates : list string)
  (o : SxmStream) : SxmStream :=
  fold_left (fun o b => with_bitrate b (probe text base b) o) bitrates o.

(** [AllReturns Q m]: however the transport answers and whatever state
    the loop resumes the coroutine with, when it returns [a] in state
    [st], [Q st a] holds. *)
Fixpoint AllReturns {A : Type} (Q : State -> A -> Prop) (m : Susp A) : Prop :=
  match m with
  | Done st (inr a) => Q st a
  | Done st (inl _) => True
  | Await st req k => forall outcome st', AllReturns Q (k outcome st')
  end.

(** The pair has no initialized handle. *)
Definition uninitialized (t i : string) (st : State) : Prop :=
  forall addr, dict_get key_eqb (_streams (client st)) (t, i) = Some addr ->
               initialized (objects st addr) = false.

(** The vocabulary of the playlist rewrite. *)
Module ProxySpec.
Import Proxy.

Definition quote : string := String PyStr.dquote "".

(** A value of the group of [find]: one character that is not the
    newline, then characters that are neither the newline nor the double
    quote. *)
Definition uri_ok (uri : string) : Prop :=
  exists c r, uri = String c r /\ c <> PyStr.newline
              /\ PyStr.mem PyStr.newline r = false
              /\ PyStr.mem PyStr.dquote r = false.

(** [s] begins with a match of [find]. *)
Definition key_match (s : string) : Prop :=
  exists uri rest, uri_ok uri /\ s = (key_prefix ++ uri ++ quote ++ rest)%string.

(** The template of a replacement without backslash: its characters. *)
Fixpoint lits (s : string) : list Piece :=
  match s with
  | EmptyString => []
  | String c s' => Lit c :: lits s'
  end.

End ProxySpec.


(* ================================================================== *)
(** ** More vocabulary: what the further properties speak of *)
(* ================================================================== *)

(** What [request] gives for an outcome of the transport, and the state
    it leaves: an aiohttp error is logged. *)
Definition reply (py : Builtins) (url : PyVal) (outcome : HttpOutcome)
  : Result PyVal :=
  match outcome with
  | Responded resp =>
      if String.eqb (content_type resp) "application/json" then
        match resp_json resp with
        | Some v => inr v
        | None => inl (MkExn "JSONDecodeError" "" None)
        end
      else if existsb (String.eqb (content_type resp)) text_content_types then
        inr (PStr (resp_text resp))
      else inr (PBytes (resp_read resp))
  | ClientFailure err => inl (RequestError py url err)
  | OtherFailure err => inl err
  end.

Definition received (py : Builtins) (url : PyVal) (outcome : HttpOutcome)
  (st : State) : State :=
  match outcome with
  | ClientFailure _ =>
      emit (EvLog ("Error occurred while requesting " ++ py_str py url)) st
  | _ => st
  end.

(** [Raising I J c]: from a state in [I], a run of [c] that raises ends
    in [J]. *)
Definition Raising (E : Env) {A : Type} (I J : State -> Prop) (c : Coro A)
  : Prop :=
  forall st w e, I st -> result (run E w (c st)) = inl e ->
                 J (final (run E w (c st))).

(** [Throws P c]: what a run of [c] raises is in [P]. *)
Definition Throws (E : Env) {A : Type} (P : Exn -> Prop) (c : Coro A) : Prop :=
  forall st w e, result (run E w (c st)) = inl e -> P e.

(** [I] and [R] are indifferent to what a request and its
    re-authentication change. *)
Record Indifferent (I : State -> Prop) (R : State -> State -> Prop) : Prop := {
  indifferent_stable : Stable I R;
  indifferent_call : Respects I R (emit (EvCall "_authenticate"));
  indifferent_expiration :
    forall d, Respects I R (set_client (with_access_token_expiration d))
}.


(** The state after an assignment to an attribute of the handle at
    [self]. *)
Definition assigned (self : nat) (f : SxmStream -> SxmStream) (st : State)
  : State :=
  set_objects (fun h => store self (f (h self)) h) st.

(** The state in which [get_stream] looks the pair up: the call is
    recorded, and a pair that had no handle has a new one, registered. *)
Definition looked_up (t i : string) (st : State) : State :=
  let st0 := emit (EvCall "get_stream") st in
  match dict_get key_eqb (_streams (client st)) (t, i) with
  | Some _ => st0
  | None =>
      set_client
        (fun c => with_streams
                    (dict_set key_eqb (_streams c) (t, i) (allocated st)) c)
        (set_allocated (S (allocated st))
           (set_objects (store (allocated st) (SxmStream__init__ t i)) st0))
  end.

(** The handle of the pair in that state. *)
Definition handle_of (t i : string) (st : State) : nat :=
  match dict_get key_eqb (_streams (client st)) (t, i) with
  | Some addr => addr
  | None => allocated st
  end.


(** The registry of the handles is the same, and no object has been
    created. *)
Definition same_registry (a b : State) : Prop :=
  _streams (client b) = _streams (client a) /\ allocated b = allocated a.

(** As many calls of [initialize] have been recorded. *)
Definition same_initializations (a b : State) : Prop :=
  calls "initialize" (trace b) = calls "initialize" (trace a).

(** The handle at [addr] is registered for the pair and is not
    initialized. *)
Definition pending (t i : string) (addr : nat) (st : State) : Prop :=
  dict_get key_eqb (_streams (client st)) (t, i) = Some addr
  /\ initialized (objects st addr) = false.

(** The object at [addr] and the handle registered for [key] are the
    same. *)
Definition same_elsewhere (addr : nat) (key : EntityKey) (a b : State) : Prop :=
  objects b addr = objects a addr
  /\ dict_get key_eqb (_streams (client b)) key =
     dict_get key_eqb (_streams (client a)) key.


(** The client holds no expiration and no token that counts as true. *)
Definition quiet (st : State) : Prop :=
  no_expiry st /\ truthy (_access_token (client st)) = false.

(** The module-level header dictionary is the same. *)
Definition same_headers (a b : State) : Prop :=
  SXM_REQUEST_HEADERS b = SXM_REQUEST_HEADERS a.

(** The transport raises none of the package's exceptions. *)
Definition foreign_failures (E : Env) : Prop :=
  forall (w w' : World E) req e,
    serve E w req = (OtherFailure e, w') ->
    exn_class e <> "AuthenticationError" /\ exn_class e <> "RequestError".


(** An exception that is not the package's [AuthenticationError]. *)
Definition not_AuthenticationError (e : Exn) : Prop :=
  exn_class e <> "AuthenticationError".


(** The request that goes out for a call of [request] while the client
    holds no token: with the headers passed, or the shared ones. *)
Definition plain_request (m : string) (u : PyVal) (kw : Kwargs) (st : State)
  : HttpRequest :=
  {| req_method := m; req_url := u;
     req_headers := match kw_headers kw with
                    | Some own => own
                    | None => SXM_REQUEST_HEADERS st
                    end;
     req_json := kw_json kw |}.

(** The state a request that returned has left, on a client that holds
    no token: the request is recorded and the clock read. *)
Definition answered (t : Z) (req : HttpRequest) (st : State) : State :=
  set_clock t (emit (EvHttp req) st).

(** The [Authorization] header of a request. *)
Definition authorization (req : HttpRequest) : option string :=
  dict_get String.eqb (req_headers req) "Authorization".


(** A string that neither begins nor ends with white space, and is not
    empty. *)
Definition trimmed (s : string) : Prop :=
  (exists c r, s = String c r /\ PyStr.isspace c = false)
  /\ (exists r c, s = (r ++ String c "")%string /\ PyStr.isspace c = false).

(** The sessions the client has created, those from [first] on, are
    closed, but for the one it holds as its own. *)
Definition tidy (first : nat) (h : Http) : Prop :=
  first <= created h
  /\ forall a, first <= a < created h -> closed h a = false ->
       _http_client_session h = Some a
       /\ _http_client_session_internal h = true.


(** The chain, when it returns, has stored as expiration what
    [datetime.fromisoformat] makes of the [accessTokenExpiresAt] of the
    authenticated session. *)
Definition expiration_stored (py : Builtins) (st : State) : Prop :=
  exists expires_at expiration,
    getitem (_authenticated_session (client st)) "accessTokenExpiresAt" =
      inr expires_at
    /\ fromisoformat py expires_at = inr expiration
    /\ _access_token_expiration (client st) = Some expiration.


(** The shared header dictionary carries the bearer of the token the
    client holds, when that token counts as true. *)
Definition bearer_shared (py : Builtins) (st : State) : Prop :=
  truthy (_access_token (client st)) = true ->
  dict_get String.eqb (SXM_REQUEST_HEADERS st) "Authorization" =
  Some (bearer py (_access_token (client st))).


(* ================================================================== *)
(** ** A service to run the client against *)
(* ================================================================== *)

Module Scenario.

(** Stand-ins for the built-ins: a timestamp is written as its number
    of seconds. *)
Definition seconds (s : string) : option datetime :=
  match s with
  | EmptyString => None
  | _ => if Proxy.all_chars Proxy.is_digit s
         then Some (Aware (Z.of_nat (Proxy.decimal_value 0 s)))
         else None
  end.

Definition py : Builtins :=
  {| parse_iso := seconds;
     str_other := fun _ => "<object>";
     hydrated_config := fun _ => inr (PDict []) |}.

Definition json_response (v : PyVal) : HttpOutcome :=
  Responded {| content_type := "application/json"; resp_json := Some v;
               resp_text := ""; resp_read := [] |}.

Definition text_response (ctype text : string) : HttpOutcome :=
  Responded {| content_type := ctype; resp_json := None;
               resp_text := text; resp_read := [] |}.

Definition lines (ls : list string) : string :=
  String.concat (String PyStr.newline "") ls.

Definition manifest_url : string := "https://cdn.example.com/live/ch9/index.m3u8".

Definition tune_source : PyVal :=
  PDict [("streams",
          PList [PDict [("id", PStr "stream-9");
                        ("urls", PList [PDict [("url", PStr manifest_url)]])]])].

(** A manifest with playlists for 256k and 64k only; the 64k line
    carries white space around the name. *)
Definition manifest : string :=
  lines ["#EXTM3U";
         "#EXT-X-STREAM-INF:BANDWIDTH=281600";
         "256k/ch9_256k_full_v3.m3u8";
         "#EXT-X-STREAM-INF:BANDWIDTH=70400";
         "  64k/ch9_64k_full_v3.m3u8 "].

(** A playlist whose key is at [uri]. *)
Definition playlist_with_key (uri : string) : string :=
  lines ["#EXTM3U";
         (Proxy.key_prefix ++ uri ++ String PyStr.dquote ",IV=0x01")%string;
         "#EXTINF:9.75,";
         "ch9_256k_1.aac"].

Definition key_uri : string := "https://keys.example.com/k1".

Definition playlist : string := playlist_with_key key_uri.

(** The service: what it reports for the identity, and the sessions it
    grants (the [n]-th request of a run gets access token [token-n],
    valid until [valid_until n]). *)
Record Service : Type := {
  has_password : PyVal;
  valid_until : nat -> string
}.

Definition token_of (n : nat) : string :=
  ("token-" ++ String (ascii_of_nat (48 + n mod 10)) "")%string.

Definition answer (svc : Service) (n : nat) (req : HttpRequest) : HttpOutcome :=
  match req_url req with
  | PStr u =>
      if String.eqb u "https://api.edge-gateway.siriusxm.com/device/v1/devices"
      then json_response (PDict [("grant", PStr "device-grant")])
      else if String.eqb u "https://api.edge-gateway.siriusxm.com/session/v1/sessions/anonymous"
      then json_response (PDict [("accessToken", PStr "anonymous-token")])
      else if String.prefix "https://api.edge-gateway.siriusxm.com/identity/v1/identities/status" u
      then json_response (PDict [("hasPassword", has_password svc)])
      else if String.eqb u password_url
      then json_response (PDict [("grant", PStr "authentication-grant")])
      else if String.eqb u "https://api.edge-gateway.siriusxm.com/session/v1/sessions/authenticated"
      then json_response (PDict [("accessToken", PStr (token_of n));
                                 ("accessTokenExpiresAt", PStr (valid_until svc n))])
      else if String.eqb u "https://www.siriusxm.com/player"
      then text_response "text/html" "<html></html>"
      else if String.eqb u tune_source_url
      then json_response tune_source
      else if String.eqb u manifest_url
      then text_response "application/x-mpegurl" manifest
      else if String.eqb u "https://cdn.example.com/live/ch9/256k/ch9_256k_full_v3.m3u8"
      then text_response "application/x-mpegurl" playlist
      else ClientFailure (MkExn "ClientResponseError" "404, message='Not Found'" None)
  | _ => OtherFailure (TypeError "Constructor parameter should be str")
  end.

(** The world counts the requests served; the clock advances by ten
    seconds with each. *)
Definition env (svc : Service) : Env :=
  {| World := nat;
     serve := fun n req => (answer svc n req, S n);
     time := fun n => Z.of_nat (10 * n) |}.

Definition with_password : Service :=
  {| has_password := PBool true; valid_until := fun _ => "100" |}.

Definition without_password : Service :=
  {| has_password := PBool false; valid_until := fun _ => "100" |}.

(** The interpreter at start-up, with a client for [user], in an empty
    environment. *)
Definition fresh : State :=
  {| client := SxmClient__init__ (fun _ => None) (Some "user") (Some "secret");
     SXM_REQUEST_HEADERS := SXM_REQUEST_HEADERS_init;
     objects := fun _ => SxmStream__init__ "" ""; allocated := 0;
     clock := 0; trace := [] |}.

(** The client after [connect()] against [with_password]. *)
Definition connected : State :=
  final (run (env with_password) 0 (connect py 2 fresh)).

(** The same client two minutes after start-up, past the expiration. *)
Definition expired : State := set_clock 120 connected.

Definition player_url : PyVal := PStr "https://www.siriusxm.com/player".

(** The connected client after [get_stream("channel-linear", "ch9")]:
    nine requests have been served and the handle is at address 0. *)
Definition tuned : State :=
  final (run (env with_password) 7
           (get_stream py 2 "channel-linear" "ch9" connected)).

(** The connected client with a handle created and not yet
    initialized. *)
Definition registered : State :=
  set_allocated 1
    (set_objects (store 0 (SxmStream__init__ "channel-linear" "ch9"))
       connected).

(** Two calls of [get_stream] for the same pair on the connected
    client, each resumed in turn until both have returned. *)
Definition two_calls : Loop (env with_password) nat :=
  schedule (env with_password) [0; 1; 0; 1; 0; 1]
    (Build_Loop (env with_password) nat connected
       [Ready (get_stream py 2 "channel-linear" "ch9");
        Ready (get_stream py 2 "channel-linear" "ch9")]
       7).

Definition tune_requests (st : State) : nat :=
  length (filter (url_is tune_source_url) (requests (trace st))).

End Scenario.

(* ================================================================== *)
(** ** More services to run the client against *)
(* ================================================================== *)

Module Catalog.

(** A library of two shows. *)
Definition library : PyVal :=
  PDict [("allDataMap",
          PDict [("show-a", PDict [("title", PStr "A")]);
                 ("show-b", PDict [("title", PStr "B")])])].

(** The service of [Scenario], which also answers for the library. *)
Definition env : Env :=
  {| World := nat;
     serve := fun n req =>
       (match req_url req with
        | PStr u =>
            if String.eqb u library_url then Scenario.json_response library
            else Scenario.answer Scenario.with_password n req
        | _ => Scenario.answer Scenario.with_password n req
        end, S n);
     time := fun n => Z.of_nat (10 * n) |}.

(** The service of [Scenario], but that the authenticated sessions it
    grants carry an empty access token. *)
Definition empty_token : Env :=
  {| World := nat;
     serve := fun n req =>
       (match req_url req with
        | PStr u =>
            if String.eqb u "https://api.edge-gateway.siriusxm.com/session/v1/sessions/authenticated"
            then Scenario.json_response
                   (PDict [("accessToken", PStr "");
                           ("accessTokenExpiresAt", PStr "1000")])
            else Scenario.answer Scenario.with_password n req
        | _ => Scenario.answer Scenario.with_password n req
        end, S n);
     time := fun n => Z.of_nat (10 * n) |}.

(** A service that answers every request with a page of HTML. *)
Definition html_env : Env :=
  {| World := nat;
     serve := fun n _ =>
       (Scenario.text_response "text/html" "<html>Sign in</html>", S n);
     time := fun n => Z.of_nat (10 * n) |}.

(** A service that cannot be reached. *)
Definition offline : Env :=
  {| World := nat;
     serve := fun n _ =>
       (ClientFailure
          (MkExn "ClientConnectorError" "Cannot connect to host" None), S n);
     time := fun n => Z.of_nat (10 * n) |}.

(** Built-ins for which every timestamp is a naive datetime, as
    [datetime.fromisoformat] makes of a timestamp without offset. *)
Definition naive_py : Builtins :=
  {| parse_iso := fun _ => Some (Naive 100);
     str_other := fun _ => "<object>";
     hydrated_config := fun _ => inr (PDict []) |}.

(** A client made with the open session at address 0 of its caller. *)
Definition with_session : Http := session__init__ (Some 0) (fun _ => false) 1.

(** The run of [initialize] on the handle that [Scenario.registered]
    has created. *)
Definition initialized_run :
  State * Result unit * World (Scenario.env Scenario.with_password) :=
  run (Scenario.env Scenario.with_password) 7
    (initialize Scenario.py 2 0 Scenario.registered).

End Catalog.

(* ================================================================== *)
(** ** Reasoning about runs *)
(* ================================================================== *)

Section Runs.

Variable E : Env.

Lemma run_bind {A B : Type} (m : Susp A) (f : A -> Coro B) (w : World E) :
  run E w (susp_bind m f) =
  match run E w m with
  | (st, inr a, w') => run E w' (f a st)
  | (st, inl e, w') => (st, inl e, w')
  end.
Proof.
  revert w; induction m as [st r | st req k IH]; intro w; simpl.
  - destruct r; reflexivity.
  - destruct (serve E w req) as [o w']. apply IH.
Qed.

Lemma run_catch {A : Type} (m : Susp A) (h : Exn -> Coro A) (w : World E) :
  run E w (susp_catch m h) =
  match run E w m with
  | (st, inr a, w') => (st, inr a, w')
  | (st, inl e, w') => run E w' (h e st)
  end.
Proof.
  revert w; induction m as [st r | st req k IH]; intro w; simpl.
  - destruct r; reflexivity.
  - destruct (serve E w req) as [o w']. apply IH.
Qed.

Lemma run_bind_coro {A B : Type} (c : Coro A) (f : A -> Coro B) st w :
  run E w (bind c f st) =
  match run E w (c st) with
  | (st', inr a, w') => run E w' (f a st')
  | (st', inl e, w') => (st', inl e, w')
  end.
Proof. apply run_bind. Qed.

Lemma run_try_except {A : Type} (c : Coro A) cls (h : Exn -> Coro A) st w :
  run E w (try_except c cls h st) =
  match run E w (c st) with
  | (st', inr a, w') => (st', inr a, w')
  | (st', inl e, w') =>
      if String.eqb (exn_class e) cls then run E w' (h e st')
      else (st', inl e, w')
  end.
Proof.
  unfold try_except. cbn. rewrite run_catch.
  destruct (run E w (c st)) as [[st' [e | a]] w']; [|reflexivity].
  destruct (String.eqb (exn_class e) cls); reflexivity.
Qed.

(** *** Rules for the invariants of a run *)

Section Rules.

Variable I : State -> Prop.
Variable R : State -> State -> Prop.
Hypothesis R_refl : forall st, R st st.
Hypothesis R_trans : forall a b c, R a b -> R b c -> R a c.

Lemma Keeps_Moves {A} (c : Coro A) : Keeps E I R c -> Moves E I R c.
Proof. intros H st w HI. apply H, HI. Qed.

Lemma Keeps_ret {A} (a : A) : Keeps E I R (ret a).
Proof. intros st w HI; cbn; auto. Qed.

Lemma Keeps_raise {A} (e : Exn) : Keeps E I R (raise e : Coro A).
Proof. intros st w HI; cbn; auto. Qed.

Lemma Keeps_eval {A} (r : Result A) : Keeps E I R (eval r).
Proof. intros st w HI; cbn; auto. Qed.

Lemma Keeps_gets {A} (f : State -> A) : Keeps E I R (gets f).
Proof. intros st w HI; cbn; auto. Qed.

Lemma Keeps_get_state : Keeps E I R get_state.
Proof. intros st w HI; cbn; auto. Qed.

Lemma Keeps_modify (f : State -> State) :
  (forall st, I st -> R st (f st) /\ I (f st)) -> Keeps E I R (modify f).
Proof. intros H st w HI; cbn; auto. Qed.

Lemma Keeps_deref self : Keeps E I R (deref self).
Proof. apply Keeps_gets. Qed.

Lemma Keeps_bind {A B} (c : Coro A) (f : A -> Coro B) :
  Keeps E I R c -> (forall a, Keeps E I R (f a)) -> Keeps E I R (bind c f).
Proof.
  intros Hc Hf st w HI. rewrite run_bind_coro.
  destruct (Hc st w HI) as [H1 H2].
  destruct (run E w (c st)) as [[st' [e | a]] w']; cbn in *; auto.
  destruct (Hf a st' w' H2) as [H3 H4]. split; eauto.
Qed.

Lemma Moves_bind {A B} (c : Coro A) (f : A -> Coro B) :
  Keeps E I R c -> (forall a, Moves E I R (f a)) -> Moves E I R (bind c f).
Proof.
  intros Hc Hf st w HI. rewrite run_bind_coro.
  destruct (Hc st w HI) as [H1 H2].
  destruct (run E w (c st)) as [[st' [e | a]] w']; cbn in *; auto.
  eapply R_trans; [exact H1|]. apply (Hf a st' w' H2).
Qed.

Lemma Keeps_try_except {A} (c : Coro A) cls (h : Exn -> Coro A) :
  Keeps E I R c -> (forall e, Keeps E I R (h e)) -> Keeps E I R (try_except c cls h).
Proof.
  intros Hc Hh st w HI. rewrite run_try_except.
  destruct (Hc st w HI) as [H1 H2].
  destruct (run E w (c st)) as [[st' [e | a]] w']; cbn in *; auto.
  destruct (String.eqb (exn_class e) cls); cbn; auto.
  destruct (Hh e st' w' H2) as [H3 H4]. split; eauto.
Qed.

Lemma Moves_try_except {A} (c : Coro A) cls (h : Exn -> Coro A) :
  Moves E I R c -> (forall e, Moves E (fun _ => True) R (h e)) ->
  Moves E I R (try_except c cls h).
Proof.
  intros Hc Hh st w HI. rewrite run_try_except.
  pose proof (Hc st w HI) as H1.
  destruct (run E w (c st)) as [[st' [e | a]] w']; cbn in *; auto.
  destruct (String.eqb (exn_class e) cls); cbn; auto.
  eapply R_trans; [exact H1|]. apply (Hh e st' w' Logic.I).
Qed.

Lemma Keeps_session_request req :
  (forall st, I st -> R st (emit (EvHttp req) st) /\ I (emit (EvHttp req) st)) ->
  (forall st t, I st -> R st (set_clock t st) /\ I (set_clock t st)) ->
  Keeps E I R (session_request req).
Proof.
  intros He Hc st w HI. unfold session_request; cbn.
  destruct (serve E w req) as [o w']; cbn.
  destruct (He st HI) as [H1 H2].
  destruct (Hc _ (time E w') H2) as [H3 H4]. split; eauto.
Qed.

Lemma Keeps_for_each {A} (xs : list A) (body : A -> Coro unit) :
  (forall x, Keeps E I R (body x)) -> Keeps E I R (for_each xs body).
Proof.
  intro H. induction xs as [|x xs IH]; cbn [for_each].
  - apply Keeps_ret.
  - apply Keeps_bind; auto.
Qed.

End Rules.

Lemma Agree_refl {A} I (c : Coro A) : Agree E I c c.
Proof. intros st w _; reflexivity. Qed.

Lemma Agree_bind {A B} I (c1 c2 : Coro A) (f1 f2 : A -> Coro B) :
  Agree E I c1 c2 -> Keeps E I (fun _ _ => True) c1 ->
  (forall a, Agree E I (f1 a) (f2 a)) -> Agree E I (bind c1 f1) (bind c2 f2).
Proof.
  intros Hc Hk Hf st w HI. rewrite !run_bind_coro, <- (Hc st w HI).
  destruct (Hk st w HI) as [_ H2].
  destruct (run E w (c1 st)) as [[st' [e | a]] w']; cbn in *; auto.
  apply Hf, H2.
Qed.

Lemma Agree_try_except {A} I (c1 c2 : Coro A) cls (h : Exn -> Coro A) :
  Agree E I c1 c2 -> Agree E I (try_except c1 cls h) (try_except c2 cls h).
Proof.
  intros Hc st w HI. rewrite !run_try_except, (Hc st w HI). reflexivity.
Qed.

Lemma Ensures_bind {A B} Q (c : Coro A) (f : A -> Coro B) :
  (forall a, Ensures E Q (f a)) -> Ensures E Q (bind c f).
Proof.
  intros Hf st w b. rewrite run_bind_coro.
  destruct (run E w (c st)) as [[st' [e | a]] w']; cbn; [discriminate|].
  apply Hf.
Qed.

Lemma Ensures_try_except {A} Q (c : Coro A) cls (h : Exn -> Coro A) :
  Ensures E Q c -> (forall e, Ensures E Q (h e)) -> Ensures E Q (try_except c cls h).
Proof.
  intros Hc Hh st w b. rewrite run_try_except.
  pose proof (Hc st w) as H1.
  destruct (run E w (c st)) as [[st' [e | a]] w']; cbn in *.
  - destruct (String.eqb (exn_class e) cls); cbn; [apply Hh | discriminate].
  - intros _. eapply H1; reflexivity.
Qed.

End Runs.

(* ================================================================== *)
(** ** Invariants of the client's coroutines *)
(* ================================================================== *)

(** One step of a walk along the binds of a coroutine. *)
Ltac keep_step HS :=
  first
    [ apply (Keeps_bind _ _ _ (stable_trans _ _ HS)); [|intro]
    | apply (Keeps_ret _ _ _ (stable_refl _ _ HS))
    | apply (Keeps_raise _ _ _ (stable_refl _ _ HS))
    | apply (Keeps_eval _ _ _ (stable_refl _ _ HS))
    | apply (Keeps_gets _ _ _ (stable_refl _ _ HS))
    | apply (Keeps_get_state _ _ _ (stable_refl _ _ HS))
    | apply (Keeps_deref _ _ _ (stable_refl _ _ HS))
    | apply (Keeps_session_request _ _ _ (stable_trans _ _ HS));
      [ apply (stable_http _ _ HS)
      | intros ? ? ?; apply (stable_clock _ _ HS); assumption ]
    | apply Keeps_modify; first
        [ apply (stable_log _ _ HS) | apply (stable_headers _ _ HS)
        | apply (stable_device _ _ HS) | apply (stable_anonymous _ _ HS)
        | apply (stable_response _ _ HS) | apply (stable_authenticated _ _ HS)
        | apply (stable_token _ _ HS) | apply (stable_config _ _ HS) ]
    | match goal with
      | |- Keeps _ _ _ (if ?b then _ else _) => destruct b
      | |- Keeps _ _ _ (match ?x with _ => _ end) => destruct x
      end ].

Section ClientRules.

Variable E : Env.
Variable py : Builtins.
Variable I : State -> Prop.
Variable R : State -> State -> Prop.
Hypothesis HS : Stable I R.

Let R_trans := stable_trans I R HS.

Ltac keeps := repeat keep_step HS.

Lemma prepare_headers_Keeps kw : Keeps E I R (prepare_headers py kw).
Proof. unfold prepare_headers. keeps. Qed.

Lemma receive_Keeps url o : Keeps E I R (receive py url o).
Proof. unfold receive, log. keeps. Qed.

Lemma send_Keeps m u kw : Keeps E I R (send py m u kw).
Proof.
  unfold send. keeps. apply receive_Keeps.
Qed.

Section Chain.

Variable req : string -> PyVal -> Kwargs -> Coro PyVal.
Hypothesis req_Keeps : forall m u kw, Keeps E I R (req m u kw).

Ltac keeps_req := repeat first [ apply req_Keeps | keep_step HS ].

Lemma _create_device_session_Keeps :
  Keeps E I R (_create_device_session req).
Proof. unfold _create_device_session. keeps_req. Qed.

Lemma _create_anonymous_session_Keeps g :
  Keeps E I R (_create_anonymous_session py req g).
Proof. unfold _create_anonymous_session. keeps_req. Qed.

Lemma _get_identity_status_Keeps u t :
  Keeps E I R (_get_identity_status py req u t).
Proof. unfold _get_identity_status. keeps_req. Qed.

Lemma _authenticate_with_password_Keeps t :
  Keeps E I R (_authenticate_with_password py req t).
Proof. unfold _authenticate_with_password. keeps_req. Qed.

Lemma _create_authenticated_session_Keeps g :
  Keeps E I R (_create_authenticated_session py req g).
Proof. unfold _create_authenticated_session. keeps_req. Qed.

Lemma _load_config_Keeps : Keeps E I R (_load_config py req).
Proof. unfold _load_config. keeps_req. Qed.

Lemma authentication_failed_Keeps err :
  Keeps E I R (authentication_failed py err).
Proof. unfold authentication_failed. keeps. Qed.

(** The chain stays within [R] up to its last assignment, that of the
    new expiration. *)
Lemma authentication_chain_Moves :
  (forall d st, I st ->
     R st (set_client (with_access_token_expiration d) st)) ->
  Moves E I R (authentication_chain py req).
Proof.
  intro Hexp. unfold authentication_chain.
  repeat
    lazymatch goal with
    | |- Moves _ _ _ (bind _ _) => apply (Moves_bind E I R R_trans); [|intro]
    | |- Keeps _ _ _ (_create_device_session _) =>
        apply _create_device_session_Keeps
    | |- Keeps _ _ _ (_create_anonymous_session _ _ _) =>
        apply _create_anonymous_session_Keeps
    | |- Keeps _ _ _ (_get_identity_status _ _ _ _) =>
        apply _get_identity_status_Keeps
    | |- Keeps _ _ _ (_authenticate_with_password _ _ _) =>
        apply _authenticate_with_password_Keeps
    | |- Keeps _ _ _ (_create_authenticated_session _ _ _) =>
        apply _create_authenticated_session_Keeps
    | |- Keeps _ _ _ _ => keep_step HS
    end.
  intros st w HI. cbn. apply Hexp, HI.
Qed.

End Chain.

End ClientRules.

(* ================================================================== *)
(** ** The request and the authentication chain *)
(* ================================================================== *)

Lemma dict_get_set_same {V : Type} (d : list (string * V)) k v :
  dict_get String.eqb (dict_set String.eqb d k v) k = Some v.
Proof.
  induction d as [|[k' v'] d IH]; cbn.
  - now rewrite String.eqb_refl.
  - destruct (String.eqb k k') eqn:Hk; cbn; rewrite Hk; auto.
Qed.

Lemma dict_get_set_other {V : Type} (d : list (string * V)) k k' v :
  k' <> k ->
  dict_get String.eqb (dict_set String.eqb d k v) k' =
  dict_get String.eqb d k'.
Proof.
  intro Hne. induction d as [|[k0 v0] d IH]; cbn.
  - destruct (String.eqb k' k) eqn:Hk; auto.
    apply String.eqb_eq in Hk. contradiction.
  - destruct (String.eqb k k0) eqn:Hk; cbn.
    + apply String.eqb_eq in Hk; subst k0.
      destruct (String.eqb k' k) eqn:Hk'; auto.
      apply String.eqb_eq in Hk'. contradiction.
    + destruct (String.eqb k' k0); auto.
Qed.

Lemma dict_get_set_same_key {V : Type} (d : list (EntityKey * V)) k v :
  dict_get key_eqb (dict_set key_eqb d k v) k = Some v.
Proof.
  assert (Hrefl : key_eqb k k = true).
  { unfold key_eqb. now rewrite !String.eqb_refl. }
  induction d as [|[k' v'] d IH]; cbn.
  - now rewrite Hrefl.
  - destruct (key_eqb k k') eqn:Hk; cbn; rewrite Hk; auto.
Qed.

Lemma calls_app fn t1 t2 : calls fn (t1 ++ t2) = calls fn t1 + calls fn t2.
Proof. unfold calls. now rewrite filter_app, length_app. Qed.

Lemma Stable_no_expiry_chains : Stable no_expiry same_chains.
Proof.
  unfold no_expiry, same_chains.
  split; try (intros; congruence);
    intros x st H; cbn -[calls]; rewrite ?calls_app; cbn; split; auto; lia.
Qed.

Lemma Stable_no_expiry : Stable no_expiry (fun _ _ => True).
Proof. split; try (intros; exact Logic.I); intros x st H; cbn; auto. Qed.

Lemma Stable_streams : Stable (fun _ => True) same_streams.
Proof.
  unfold same_streams.
  split;
    [ intros; tauto
    | intros a b c (H1 & H2 & H3) (H4 & H5 & H6); repeat split; congruence
    | intros x st H; cbn; auto .. ].
Qed.

Section ClientFacts.

Variable E : Env.
Variable py : Builtins.

(** The expiry check on a state that holds no expiration does nothing. *)
Lemma refresh_no_expiry A st :
  no_expiry st -> refresh_if_expired A st = Done st (inr tt).
Proof. unfold no_expiry, refresh_if_expired. intro H. cbn. now rewrite H. Qed.

Lemma refresh_not_expired A st exp :
  _access_token_expiration (client st) = Some exp ->
  now_ge (clock st) exp = inr false ->
  refresh_if_expired A st = Done st (inr tt).
Proof. unfold refresh_if_expired. intros H1 H2. cbn. now rewrite H1, H2. Qed.

Lemma refresh_incomparable A st exp e :
  _access_token_expiration (client st) = Some exp ->
  now_ge (clock st) exp = inl e ->
  refresh_if_expired A st = Done st (inl e).
Proof. unfold refresh_if_expired. intros H1 H2. cbn. now rewrite H1, H2. Qed.

(** On an expired token it clears the token state and runs the chain. *)
Lemma refresh_expired A st exp :
  _access_token_expiration (client st) = Some exp ->
  now_ge (clock st) exp = inr true ->
  refresh_if_expired A st = A (cleared st).
Proof. unfold refresh_if_expired. intros H1 H2. cbn. now rewrite H1, H2. Qed.

Lemma no_expiry_cleared st : no_expiry (cleared st).
Proof. reflexivity. Qed.

Lemma send_suspends m u kw st :
  send py m u kw st =
  Await (sending py m u kw st) (outgoing py m u kw st)
    (fun o st' => receive py u o st').
Proof.
  unfold send, sending, outgoing, outgoing_headers, prepare_headers.
  destruct kw as [[own|] js]; cbn;
    destruct (truthy (_access_token (client st))); cbn; reflexivity.
Qed.

Lemma receive_run u o st (w : World E) :
  exists logs,
    trace (final (run E w (receive py u o st))) = trace st ++ logs
    /\ requests logs = [] /\ calls "_authenticate" logs = 0
    /\ client (final (run E w (receive py u o st))) = client st
    /\ objects (final (run E w (receive py u o st))) = objects st.
Proof.
  destruct o as [r | e | e]; unfold receive.
  - exists []. rewrite app_nil_r.
    destruct (String.eqb (content_type r) "application/json");
      [destruct (resp_json r)|
       destruct (existsb (String.eqb (content_type r)) text_content_types)];
      cbn; repeat split; auto.
  - eexists [_]. cbn. repeat split; auto.
  - exists []. rewrite app_nil_r. cbn. repeat split; auto.
Qed.

(** What a [send] does: one request goes out, with the held token as
    bearer when there is one, and nothing else changes but the header
    dictionary, the clock and the log. *)
Lemma send_run m u kw st (w : World E) :
  exists logs,
    trace (final (run E w (send py m u kw st))) =
      trace st ++ EvHttp (outgoing py m u kw st) :: logs
    /\ requests logs = [] /\ calls "_authenticate" logs = 0
    /\ client (final (run E w (send py m u kw st))) = client st
    /\ objects (final (run E w (send py m u kw st))) = objects st.
Proof.
  rewrite send_suspends. cbn [run].
  destruct (serve E w (outgoing py m u kw st)) as [o w'].
  destruct (receive_run u o (set_clock (time E w') (sending py m u kw st)) w')
    as (logs & Ht & Hr & Hc & Hcl & Ho).
  exists logs. rewrite Ht, Hcl, Ho. unfold sending.
  destruct (kw_headers kw); [|destruct (truthy _)]; cbn;
    rewrite <- app_assoc; repeat split; auto.
Qed.

Lemma outgoing_bearer m u kw st :
  truthy (_access_token (client st)) = true ->
  dict_get String.eqb (req_headers (outgoing py m u kw st)) "Authorization" =
  Some (bearer py (_access_token (client st))).
Proof.
  intro H. unfold outgoing, outgoing_headers; cbn. rewrite H.
  destruct (kw_headers kw); apply dict_get_set_same.
Qed.

Lemma request_unfold d m u kw st :
  request py (S d) m u kw st =
  susp_bind (refresh_if_expired (_authenticate py (request py d)) st)
    (fun _ => send py m u kw).
Proof. reflexivity. Qed.

(** A request on a state that holds no expiration is the [send] alone. *)
Lemma request_no_expiry d m u kw st :
  no_expiry st -> request py (S d) m u kw st = send py m u kw st.
Proof.
  intro H. rewrite request_unfold, refresh_no_expiry by exact H. reflexivity.
Qed.

Lemma refresh_noop A st :
  no_refresh st -> refresh_if_expired A st = Done st (inr tt).
Proof.
  intro H. destruct (_access_token_expiration (client st)) as [exp|] eqn:He.
  - apply (refresh_not_expired A st exp He (H exp He)).
  - now apply refresh_no_expiry.
Qed.

(** A request on such a state is the [send] alone. *)
Lemma request_no_refresh d m u kw st :
  no_refresh st -> request py (S d) m u kw st = send py m u kw st.
Proof.
  intro H. rewrite request_unfold, refresh_noop by exact H. reflexivity.
Qed.

Lemma request_Keeps_no_expiry R d m u kw :
  Stable no_expiry R -> Keeps E no_expiry R (request py (S d) m u kw).
Proof.
  intros HS st w H. rewrite request_no_expiry by exact H.
  now apply send_Keeps.
Qed.

(** From a state that holds no expiration, the chain is the only one
    started. *)
Lemma _authenticate_one_chain d st (w : World E) :
  no_expiry st ->
  calls "_authenticate"
    (trace (final (run E w (_authenticate py (request py (S d)) st)))) =
  S (calls "_authenticate" (trace st)).
Proof.
  intro H. unfold _authenticate. rewrite run_bind_coro. cbn [called modify run].
  assert (Hm : Moves E no_expiry same_chains
                 (try_except (authentication_chain py (request py (S d)))
                    "RequestError" (authentication_failed py))).
  { apply Moves_try_except.
    - apply Stable_no_expiry_chains.
    - apply authentication_chain_Moves.
      + apply Stable_no_expiry_chains.
      + intros. apply request_Keeps_no_expiry, Stable_no_expiry_chains.
      + intros; reflexivity.
    - intros e st' w' _.
      pose proof (authentication_failed_Keeps E py (fun _ => True) same_chains)
        as Hf.
      refine (proj1 (Hf _ e st' w' Logic.I)).
      unfold same_chains.
      split; try (intros; congruence);
        intros x s _; cbn -[calls]; rewrite ?calls_app; cbn; split; auto; lia. }
  specialize (Hm (emit (EvCall "_authenticate") st) w H).
  unfold same_chains in Hm. rewrite Hm. cbn -[calls]. rewrite calls_app. cbn. lia.
Qed.

End ClientFacts.

(** *** Two frames are as good as any number *)

Section Depth.

Variable E : Env.
Variable py : Builtins.
Variables req1 req2 : string -> PyVal -> Kwargs -> Coro PyVal.
Hypothesis req_Agree :
  forall m u kw, Agree E no_expiry (req1 m u kw) (req2 m u kw).
Hypothesis req_Keeps :
  forall m u kw, Keeps E no_expiry (fun _ _ => True) (req1 m u kw).

Ltac agree_step :=
  first
    [ apply Agree_refl
    | apply req_Agree
    | apply Agree_try_except
    | apply Agree_bind;
      [ | repeat first [ apply req_Keeps | keep_step Stable_no_expiry ] | intro ]
    | match goal with
      | |- Agree _ _ (if ?b then _ else _) _ => destruct b
      | |- Agree _ _ (match ?x with _ => _ end) _ => destruct x
      end ].

Lemma _authenticate_Agree :
  Agree E no_expiry (_authenticate py req1) (_authenticate py req2).
Proof.
  unfold _authenticate, authentication_chain.
  apply Agree_bind; [apply Agree_refl | | intro].
  - intros st w H; cbn; auto.
  - repeat agree_step.
Qed.

End Depth.

Section ClientTheorems.

Variable E : Env.
Variable py : Builtins.

Lemma request_Agree_no_expiry d m u kw :
  Agree E no_expiry (request py (S d) m u kw) (request py 1 m u kw).
Proof. intros st w H. now rewrite !request_no_expiry. Qed.

Lemma request_depth d m u kw st (w : World E) :
  run E w (request py (S (S d)) m u kw st) =
  run E w (request py 2 m u kw st).
Proof.
  rewrite !request_unfold, !run_bind.
  assert (Hr : run E w (refresh_if_expired
                          (_authenticate py (request py (S d))) st) =
               run E w (refresh_if_expired
                          (_authenticate py (request py 1)) st)).
  { destruct (_access_token_expiration (client st)) as [exp|] eqn:He.
    - destruct (now_ge (clock st) exp) as [e | [|]] eqn:Hn.
      + now rewrite !(refresh_incomparable _ _ _ _ He Hn).
      + rewrite !(refresh_expired _ _ _ He Hn).
        apply _authenticate_Agree.
        * intros; apply request_Agree_no_expiry.
        * intros; apply request_Keeps_no_expiry, Stable_no_expiry.
        * apply no_expiry_cleared.
      + now rewrite !(refresh_not_expired _ _ _ He Hn).
    - now rewrite !refresh_no_expiry. }
  now rewrite Hr.
Qed.

Lemma _authenticate_stores_token req :
  Ensures E token_stored (_authenticate py req).
Proof.
  unfold _authenticate. apply Ensures_bind; intros _.
  apply Ensures_try_except.
  - unfold authentication_chain.
    do 16 (apply Ensures_bind; intro).
    intros st w r. unfold token_stored. cbn.
    destruct (getitem (_authenticated_session (client st)) "accessToken")
      as [e | tok] eqn:Ht; cbn; [discriminate|].
    destruct (getitem (_authenticated_session (client st))
                "accessTokenExpiresAt") as [e | ex]; cbn; [discriminate|].
    destruct (fromisoformat py ex) as [e | dt]; cbn; [discriminate|].
    intros _. rewrite Ht. split; [reflexivity | discriminate].
  - intros e st w r. cbn. discriminate.
Qed.

Lemma Moves_Keeps_True {A} R (c : Coro A) :
  Moves E (fun _ => True) R c -> Keeps E (fun _ => True) R c.
Proof. intros H st w HI. split; [now apply H | exact Logic.I]. Qed.

(** No request, at any depth and from any state, touches the stream
    objects or the registry. *)
Lemma request_same_streams d m u kw :
  Keeps E (fun _ => True) same_streams (request py d m u kw).
Proof.
  revert m u kw. induction d as [|d IH]; intros m u kw.
  - cbn [request]. apply Keeps_raise. apply Stable_streams.
  - cbn [request]. unfold request_frame.
    apply (Keeps_bind _ _ _ (stable_trans _ _ Stable_streams));
      [|intro; apply send_Keeps, Stable_streams].
    unfold refresh_if_expired, log.
    repeat keep_step Stable_streams;
      lazymatch goal with
      | |- Keeps _ _ _ (modify _) =>
          apply Keeps_modify; intros st _; cbn; unfold same_streams; auto
      | |- Keeps _ _ _ (called _) =>
          apply Keeps_modify; intros st _; cbn; unfold same_streams; auto
      | |- Keeps _ _ _ (try_except _ _ _) =>
          apply Keeps_try_except;
          [ apply Stable_streams
          | apply Moves_Keeps_True, authentication_chain_Moves;
            [ apply Stable_streams
            | exact IH
            | intros dt st _; cbn; unfold same_streams; auto ]
          | intro e; apply authentication_failed_Keeps, Stable_streams ]
      end.
Qed.

End ClientTheorems.

(* ================================================================== *)
(** ** Facts about the string operations *)
(* ================================================================== *)

Module PyStrFacts.
Import PyStr.

Lemma append_assoc (a b c : string) : ((a ++ b) ++ c = a ++ (b ++ c))%string.
Proof. induction a as [|x a IH]; cbn; [reflexivity | now rewrite IH]. Qed.

Lemma append_nil_r (a : string) : (a ++ "" = a)%string.
Proof. induction a as [|x a IH]; cbn; [reflexivity | now rewrite IH]. Qed.

Lemma mem_append c (a b : string) :
  mem c (a ++ b) = mem c a || mem c b.
Proof.
  induction a as [|x a IH]; cbn; [reflexivity|].
  now rewrite IH, orb_assoc.
Qed.

Lemma split_not_nil sep s : split sep s <> [].
Proof.
  destruct s as [|c s]; cbn; [discriminate|].
  destruct (Ascii.eqb c sep); [discriminate|].
  destruct (split sep s); discriminate.
Qed.

Lemma split_no_sep sep s : mem sep s = false -> split sep s = [s].
Proof.
  induction s as [|c s IH]; cbn; [reflexivity|].
  intro H. apply orb_false_iff in H as [Hc Hs].
  rewrite Ascii.eqb_sym, Hc, (IH Hs). reflexivity.
Qed.

Lemma join_split sep s : join sep (split sep s) = s.
Proof.
  induction s as [|c s IH]; cbn; [reflexivity|].
  destruct (Ascii.eqb c sep) eqn:Hc.
  - apply Ascii.eqb_eq in Hc; subst c.
    pose proof (split_not_nil sep s) as Hn.
    destruct (split sep s) as [|p ps]; [contradiction|].
    cbn [join]. now rewrite <- IH.
  - destruct (split sep s) as [|p ps] eqn:Hs.
    + now apply split_not_nil in Hs.
    + rewrite <- IH. destruct ps; reflexivity.
Qed.

Lemma split_parts_no_sep sep s p :
  In p (split sep s) -> mem sep p = false.
Proof.
  revert p. induction s as [|c s IH]; cbn; intros p Hp.
  - destruct Hp as [<- | []]. reflexivity.
  - destruct (Ascii.eqb c sep) eqn:Hc.
    + destruct Hp as [<- | Hp]; [reflexivity | now apply IH].
    + destruct (split sep s) as [|q qs] eqn:Hs.
      * destruct Hp as [<- | []]. cbn. now rewrite Ascii.eqb_sym, Hc.
      * destruct Hp as [<- | Hp].
        -- cbn. rewrite Ascii.eqb_sym, Hc. cbn. apply IH. now left.
        -- apply IH. now right.
Qed.

(** A list of two or more ends in its last two. *)
Lemma second_to_last_spec {A} (xs : list A) :
  2 <= length xs ->
  exists init a b, xs = init ++ [a; b] /\ second_to_last xs = Some a.
Proof.
  induction xs as [|x xs IH]; cbn; [lia|].
  destruct xs as [|y [|z zs]]; cbn in *; intro H.
  - lia.
  - exists [], x, y. auto.
  - destruct IH as (init & a & b & Heq & Hs); [lia|].
    exists (x :: init), a, b. rewrite Heq. split; [reflexivity|].
    cbn in Hs. exact Hs.
Qed.

Lemma join_cons sep x y ys :
  join sep (x :: y :: ys) = (x ++ String sep (join sep (y :: ys)))%string.
Proof. reflexivity. Qed.

Lemma join_last_two sep init a b :
  join sep (init ++ [a; b]) =
  ((match init with
    | [] => EmptyString
    | _ => join sep init ++ String sep ""
    end) ++ a ++ String sep b)%string.
Proof.
  induction init as [|x init IH]; [reflexivity|].
  destruct init as [|y init].
  - cbn [app]. rewrite join_cons. cbn [join].
    rewrite append_assoc. reflexivity.
  - change ((x :: y :: init) ++ [a; b]) with (x :: y :: (init ++ [a; b])).
    rewrite join_cons.
    change (y :: init ++ [a; b]) with ((y :: init) ++ [a; b]).
    rewrite IH, join_cons, !append_assoc. reflexivity.
Qed.

(** The second-to-last component of a string with a separator in it:
    the string ends in that component, the separator and a last
    component, and what precedes is empty or ends in the separator. *)
Lemma second_to_last_component sep s :
  mem sep s = true ->
  exists pre dir file,
    s = (pre ++ dir ++ String sep file)%string
    /\ (pre = EmptyString \/ exists p, pre = (p ++ String sep "")%string)
    /\ mem sep dir = false /\ mem sep file = false
    /\ second_to_last (split sep s) = Some dir.
Proof.
  intro Hm.
  assert (Hlen : 2 <= length (split sep s)).
  { destruct (split sep s) as [|p [|q qs]] eqn:Hs; cbn; try lia.
    - now apply split_not_nil in Hs.
    - pose proof (join_split sep s) as Hj. rewrite Hs in Hj. cbn in Hj.
      subst p. assert (Hp : mem sep s = false).
      { apply (split_parts_no_sep sep s). rewrite Hs. now left. }
      congruence. }
  destruct (second_to_last_spec _ Hlen) as (init & a & b & Heq & Hs).
  exists (match init with
          | [] => EmptyString
          | _ => join sep init ++ String sep ""
          end)%string, a, b.
  split; [now rewrite <- join_last_two, <- Heq, join_split|].
  split; [destruct init; [now left | right; eauto]|].
  split; [|split; [|exact Hs]];
    apply (split_parts_no_sep sep s); rewrite Heq, in_app_iff; cbn; auto.
Qed.

(** The cut at the last separator. *)
Lemma rcut_no_sep sep s : mem sep s = false -> rcut sep s = None.
Proof.
  induction s as [|c s IH]; cbn; [reflexivity|].
  intro H. apply orb_false_iff in H as [Hc Hs].
  now rewrite (IH Hs), Ascii.eqb_sym, Hc.
Qed.

Lemma rcut_spec sep a b :
  mem sep b = false ->
  rcut sep (a ++ String sep b) = Some (a, b).
Proof.
  intro Hb. induction a as [|c a IH]; cbn.
  - now rewrite (rcut_no_sep sep b Hb), Ascii.eqb_refl.
  - now rewrite IH.
Qed.

(** [url.rsplit("/", 1)[0]] removes the last component. *)
Lemma rsplit1_head sep a b :
  mem sep b = false ->
  hd (a ++ String sep b)%string (rsplit1 sep (a ++ String sep b)) = a.
Proof. intro Hb. unfold rsplit1. now rewrite rcut_spec. Qed.

(** [find] gives the first element that passes the test. *)
Lemma find_first {A} (p : A -> bool) (xs : list A) x :
  find p xs = Some x ->
  exists before after,
    xs = before ++ x :: after /\ p x = true
    /\ forall y, In y before -> p y = false.
Proof.
  induction xs as [|y xs IH]; cbn; [discriminate|].
  destruct (p y) eqn:Hy.
  - intros [= <-]. exists [], xs. repeat split; auto. intros ? [].
  - intro H. destruct (IH H) as (before & after & Heq & Hp & Hb).
    exists (y :: before), after. rewrite Heq. repeat split; auto.
    intros z [<- | Hz]; auto.
Qed.

End PyStrFacts.

(* ================================================================== *)
(** ** The runs of a request in full *)
(* ================================================================== *)

Section Exact.

Variable E : Env.
Variable py : Builtins.

Lemma receive_done u o st :
  receive py u o st = Done (received py u o st) (reply py u o).
Proof.
  destruct o as [r | e | e]; unfold receive, received, reply;
    [|reflexivity..].
  destruct (String.eqb (content_type r) "application/json");
    [destruct (resp_json r); reflexivity|].
  destruct (existsb (String.eqb (content_type r)) text_content_types);
    reflexivity.
Qed.

(** The run of a [send], in full. *)
Lemma send_run_exact m u kw st (w : World E) :
  run E w (send py m u kw st) =
  (received py u (fst (serve E w (outgoing py m u kw st)))
     (set_clock (time E (snd (serve E w (outgoing py m u kw st))))
        (sending py m u kw st)),
   reply py u (fst (serve E w (outgoing py m u kw st))),
   snd (serve E w (outgoing py m u kw st))).
Proof.
  rewrite send_suspends. cbn [run].
  destruct (serve E w (outgoing py m u kw st)) as [o w']. cbn [fst snd].
  now rewrite receive_done.
Qed.

Lemma request_run_exact d m u kw st (w : World E) :
  no_refresh st ->
  run E w (request py (S d) m u kw st) =
  (received py u (fst (serve E w (outgoing py m u kw st)))
     (set_clock (time E (snd (serve E w (outgoing py m u kw st))))
        (sending py m u kw st)),
   reply py u (fst (serve E w (outgoing py m u kw st))),
   snd (serve E w (outgoing py m u kw st))).
Proof.
  intro H. rewrite request_no_refresh by exact H. apply send_run_exact.
Qed.

Lemma no_expiry_no_refresh st : no_expiry st -> no_refresh st.
Proof. intros H exp He. unfold no_expiry in H. congruence. Qed.

End Exact.

(* ================================================================== *)
(** ** The requests of a client that holds no token *)
(* ================================================================== *)

Section ChainRun.

Variable E : Env.
Variable py : Builtins.
Variable d : nat.

Lemma request_quiet_returns m u kw st st' v (w w' : World E) :
  quiet st ->
  run E w (request py (S d) m u kw st) = (st', inr v, w') ->
  st' = answered (time E w') (plain_request m u kw st) st.
Proof.
  intros [Hn Ht]. rewrite request_run_exact by now apply no_expiry_no_refresh.
  assert (Ho : outgoing py m u kw st = plain_request m u kw st).
  { unfold outgoing, outgoing_headers, plain_request. rewrite Ht.
    destruct (kw_headers kw); reflexivity. }
  assert (Hs : sending py m u kw st = emit (EvHttp (plain_request m u kw st)) st).
  { unfold sending. rewrite Ho, Ht. destruct (kw_headers kw); reflexivity. }
  rewrite Ho, Hs.
  destruct (serve E w (plain_request m u kw st)) as [o w1]. cbn [fst snd].
  destruct o as [r | e | e]; cbn [received reply].
  - now intros [= <- _ <-].
  - discriminate.
  - discriminate.
Qed.

(** What a request that returned was answered with. *)
Lemma request_quiet_served m u kw st st' v (w w' : World E) :
  quiet st ->
  run E w (request py (S d) m u kw st) = (st', inr v, w') ->
  exists outcome,
    serve E w (plain_request m u kw st) = (outcome, w')
    /\ reply py u outcome = inr v.
Proof.
  intros [Hn Ht]. rewrite request_run_exact by now apply no_expiry_no_refresh.
  assert (Ho : outgoing py m u kw st = plain_request m u kw st).
  { unfold outgoing, outgoing_headers, plain_request. rewrite Ht.
    destruct (kw_headers kw); reflexivity. }
  rewrite Ho.
  destruct (serve E w (plain_request m u kw st)) as [o w1]. cbn [fst snd].
  intros [= _ Hr <-]. now exists o.
Qed.

(** Only a dictionary has string subscripts, and a request returns a
    dictionary only as the decoded JSON body of a response. *)
Lemma getitem_dict v k x : getitem v k = inr x -> exists kvs, v = PDict kvs.
Proof. destruct v; cbn; try discriminate. intros _. now eexists. Qed.

Lemma reply_dict u outcome kvs :
  reply py u outcome = inr (PDict kvs) ->
  exists resp,
    outcome = Responded resp
    /\ content_type resp = "application/json"
    /\ resp_json resp = Some (PDict kvs).
Proof.
  destruct outcome as [r | e | e]; cbn [reply]; [|discriminate..].
  destruct (String.eqb (content_type r) "application/json") eqn:Hc.
  - destruct (resp_json r) as [v|] eqn:Hj; [|discriminate].
    intros [= ->]. exists r. apply String.eqb_eq in Hc. now repeat split.
  - destruct (existsb (String.eqb (content_type r)) text_content_types);
      discriminate.
Qed.

Ltac pure_step H :=
  rewrite run_bind_coro in H;
  cbn [gets eval modify ret Monad_Coro run] in H.

Ltac eval_step H x Hx :=
  pure_step H;
  lazymatch type of H with
  | context [match ?r with inl _ => _ | inr _ => _ end] =>
      destruct r as [? | x] eqn:Hx; [discriminate|]
  end.

Ltac request_step H v w1 Hq :=
  rewrite run_bind_coro in H;
  lazymatch type of H with
  | context [run E ?w (request py (S d) ?m ?u ?kw ?s)] =>
      let s1 := fresh "s" in
      let H1 := fresh "H" in
      destruct (run E w (request py (S d) m u kw s)) as [[s1 [? | v]] w1] eqn:H1;
      [discriminate|];
      apply request_quiet_returns in H1; [subst s1 | exact Hq]
  end.

(** The chain of a client that holds no token, when it returns: its
    last event is the request for the authenticated session, the
    transport has answered that request with a JSON body, and the client
    holds that body as its authenticated session and the [accessToken] of
    it as its token. *)
Lemma authentication_chain_session st s (w w0 : World E) :
  quiet st ->
  run E w (authentication_chain py (request py (S d)) st) = (s, inr tt, w0) ->
  exists earlier r4 w3 resp session,
    trace s = trace st ++ earlier ++ [EvHttp r4]
    /\ req_method r4 = "POST"
    /\ req_url r4 =
       PStr "https://api.edge-gateway.siriusxm.com/session/v1/sessions/authenticated"
    /\ serve E w3 r4 = (Responded resp, w0)
    /\ content_type resp = "application/json"
    /\ resp_json resp = Some session
    /\ _authenticated_session (client s) = session
    /\ getitem session "accessToken" = inr (_access_token (client s)).
Proof.
  intros Hq Hin. pose proof Hq as [Hn Ht].
  unfold authentication_chain in Hin.
  pure_step Hin. rewrite run_bind_coro in Hin.
  assert (Hrest : exists s0 wa early,
            quiet s0 /\ trace s0 = trace st ++ early
            /\ run E wa
                 ((c <- gets client ;;
                   device_grant <- eval (getitem (_device_session c) "grant") ;;
                   _create_anonymous_session py (request py (S d)) device_grant ;;
                   c <- gets client ;;
                   anonymous_token <-
                     eval (getitem (_anonymous_session c) "accessToken") ;;
                   identity_status <-
                     _get_identity_status py (request py (S d))
                       (_username c) anonymous_token ;;
                   has_password <- eval (getitem identity_status "hasPassword") ;;
                   (if negb (truthy has_password) then
                      c <- gets client ;;
                      err <- eval (AuthenticationError py
                                     [ArgVal (PStr ("User " ++ str_opt (_username c)
                                                    ++ " does not have a password set."))]) ;;
                      raise err
                    else ret tt) ;;
                   c <- gets client ;;
                   anonymous_token <-
                     eval (getitem (_anonymous_session c) "accessToken") ;;
                   _authenticate_with_password py (request py (S d))
                     anonymous_token ;;
                   c <- gets client ;;
                   authentication_grant <-
                     eval (getitem (_authentication_response c) "grant") ;;
                   _create_authenticated_session py (request py (S d))
                     authentication_grant ;;
                   c <- gets client ;;
                   access_token <-
                     eval (getitem (_authenticated_session c) "accessToken") ;;
                   modify (set_client (with_access_token access_token)) ;;
                   c <- gets client ;;
                   expires_at <-
                     eval (getitem (_authenticated_session c)
                             "accessTokenExpiresAt") ;;
                   expiration <- eval (fromisoformat py expires_at) ;;
                   modify (set_client
                             (with_access_token_expiration (Some expiration))))
                    s0) = (s, inr tt, w0)).
  { destruct (truthy (_device_session (client st))); cbn [negb] in Hin.
    - cbn [ret Monad_Coro run] in Hin.
      exists st, w, []. rewrite app_nil_r. now repeat split.
    - unfold _create_device_session in Hin.
      request_step Hin v0 wd Hq. cbn [modify run] in Hin.
      eexists _, wd, _. split; [|split; [|exact Hin]].
      + exact Hq.
      + reflexivity. }
  clear Hin. destruct Hrest as (s0 & wa & early & Hq0 & Htr & Hin).
  pure_step Hin.
  eval_step Hin grant Hg.
  rewrite run_bind_coro in Hin. unfold _create_anonymous_session in Hin.
  pure_step Hin. request_step Hin v1 w1 Hq0.
  cbn [modify run] in Hin.
  pure_step Hin.
  eval_step Hin anonymous_token Ha.
  rewrite run_bind_coro in Hin. unfold _get_identity_status in Hin.
  pure_step Hin.
  lazymatch type of Hin with
  | context [run E ?w (request py (S d) ?m ?u ?kw ?s)] =>
      destruct (run E w (request py (S d) m u kw s))
        as [[s2 [? | identity_status]] w2] eqn:H2;
      [discriminate|];
      apply request_quiet_returns in H2; [subst s2 | exact Hq0]
  end.
  eval_step Hin has_password Hp.
  rewrite run_bind_coro in Hin.
  destruct (truthy has_password); cbn [negb] in Hin;
    [|cbn in Hin; discriminate].
  cbn [run] in Hin.
  pure_step Hin.
  eval_step Hin anonymous_token' Ha'.
  rewrite run_bind_coro in Hin. unfold _authenticate_with_password in Hin.
  pure_step Hin. pure_step Hin. request_step Hin v3 w3 Hq0.
  cbn [modify run] in Hin.
  pure_step Hin.
  eval_step Hin authentication_grant Hag.
  rewrite run_bind_coro in Hin. unfold _create_authenticated_session in Hin.
  pure_step Hin.
  rewrite run_bind_coro in Hin.
  lazymatch type of Hin with
  | context [run E ?w (request py (S d) ?m ?u ?kw ?s)] =>
      destruct (run E w (request py (S d) m u kw s))
        as [[s4 [? | session]] w4] eqn:H4;
      [discriminate|];
      pose proof H4 as H4';
      apply request_quiet_served in H4'; [|exact Hq0];
      destruct H4' as (outcome & Hserve & Hreply);
      apply request_quiet_returns in H4; [subst s4 | exact Hq0]
  end.
  cbn [modify run] in Hin.
  pure_step Hin.
  eval_step Hin access_token Hat.
  pure_step Hin. pure_step Hin.
  eval_step Hin expires_at Hex.
  eval_step Hin expiration Hexp.
  cbn [modify run] in Hin. injection Hin as Hs <-.
  cbn in Hat.
  destruct (getitem_dict _ _ _ Hat) as [kvs ->].
  destruct (reply_dict _ _ _ Hreply) as (resp & -> & Hc & Hj).
  lazymatch type of Hserve with
  | serve E ?w ?r = _ =>
      eexists (((early ++ [EvHttp _]) ++ [EvHttp _]) ++ [EvHttp _]),
              r, w, resp, (PDict kvs)
  end.
  rewrite <- Hs. cbn [client set_client _authenticated_session _access_token
                       with_access_token with_access_token_expiration
                       with_authenticated_session].
  split.
  { cbn [trace set_client answered set_clock emit]. rewrite Htr.
    rewrite !app_assoc. reflexivity. }
  split; [reflexivity|]. split; [reflexivity|]. split; [exact Hserve|].
  split; [exact Hc|]. split; [exact Hj|]. split; [reflexivity|]. exact Hat.
Qed.

(** The same of [_authenticate], whose handler always raises. *)
Lemma _authenticate_session st s (w w0 : World E) :
  quiet st ->
  run E w (_authenticate py (request py (S d)) st) = (s, inr tt, w0) ->
  exists earlier r4 w3 resp session,
    trace s = trace st ++ earlier ++ [EvHttp r4]
    /\ req_method r4 = "POST"
    /\ req_url r4 =
       PStr "https://api.edge-gateway.siriusxm.com/session/v1/sessions/authenticated"
    /\ serve E w3 r4 = (Responded resp, w0)
    /\ content_type resp = "application/json"
    /\ resp_json resp = Some session
    /\ _authenticated_session (client s) = session
    /\ getitem session "accessToken" = inr (_access_token (client s)).
Proof.
  intros Hq. unfold _authenticate.
  rewrite run_bind_coro. cbn [called modify run]. rewrite run_try_except.
  destruct (run E w (authentication_chain py (request py (S d))
                       (emit (EvCall "_authenticate") st)))
    as [[s1 [e | []]] w1] eqn:Hin.
  - destruct (String.eqb (exn_class e) "RequestError"); cbn; discriminate.
  - intros [= <- <-].
    apply authentication_chain_session in Hin; [|exact Hq].
    destruct Hin as (earlier & r4 & w3 & resp & session & Htr & H).
    exists (EvCall "_authenticate" :: earlier), r4, w3, resp, session.
    split; [|exact H]. rewrite Htr. cbn [trace emit].
    now rewrite <- app_assoc.
Qed.

End ChainRun.

(* ================================================================== *)
(** ** Properties of the client *)
(* ================================================================== *)

Lemma calls_cleared st :
  calls "_authenticate" (trace (cleared st)) = calls "_authenticate" (trace st).
Proof. cbn -[calls]. rewrite calls_app. cbn. lia. Qed.

Lemma calls_after_send E py m u kw st (w : World E) :
  calls "_authenticate" (trace (final (run E w (send py m u kw st)))) =
  calls "_authenticate" (trace st).
Proof.
  destruct (send_run E py m u kw st w) as (logs & Ht & _ & Hc & _).
  rewrite Ht, calls_app.
  change (EvHttp (outgoing py m u kw st) :: logs)
    with ([EvHttp (outgoing py m u kw st)] ++ logs).
  rewrite calls_app, Hc. cbn. lia.
Qed.

(** A request on an expired token, unfolded: the chain runs from the
    cleared state, and the request is sent if the chain returns. *)
Lemma request_expired_run E py d m u kw st exp (w : World E) :
  _access_token_expiration (client st) = Some exp ->
  now_ge (clock st) exp = inr true ->
  run E w (request py (S (S d)) m u kw st) =
  match run E w (_authenticate py (request py (S d)) (cleared st)) with
  | (st1, inr _, w1) => run E w1 (send py m u kw st1)
  | (st1, inl e, w1) => (st1, inl e, w1)
  end.
Proof.
  intros He Hn.
  now rewrite request_unfold, run_bind, (refresh_expired _ _ _ He Hn).
Qed.

Lemma request_expired_one_chain E py d m u kw st exp (w : World E) :
  _access_token_expiration (client st) = Some exp ->
  now_ge (clock st) exp = inr true ->
  calls "_authenticate"
    (trace (final (run E w (request py (S (S d)) m u kw st)))) =
  S (calls "_authenticate" (trace st)).
Proof.
  intros He Hn. rewrite (request_expired_run E py d m u kw st exp w He Hn).
  pose proof (_authenticate_one_chain E py d (cleared st) w
                (no_expiry_cleared st)) as Hc.
  rewrite calls_cleared in Hc.
  destruct (run E w (_authenticate py (request py (S d)) (cleared st)))
    as [[st1 [e | a]] w1]; cbn [final fst] in *; auto.
  now rewrite calls_after_send.
Qed.

(** C1 as amended.  A request issued when the clock has reached the
    held expiration starts the authentication chain once, before anything
    of the request itself goes out: the chain is the only one of the
    whole request (its own requests start none), and a chain that raises
    ends the request.  A chain that returns has ended with its request
    for the authenticated session, and the [accessToken] of the JSON body
    the transport answered that request with is the token the client
    holds; when that token is a value Python counts as true, the request
    then sent carries [Bearer <token>] as its [Authorization] header. *)
Theorem request_after_expiry_reauthenticates_once :
  forall (E : Env) (py : Builtins) (w : World E) (st : State) (d : nat)
         (m : string) (u : PyVal) (kw : Kwargs) (exp : datetime),
    _access_token_expiration (client st) = Some exp ->
    now_ge (clock st) exp = inr true ->
    let chain := run E w (_authenticate py (request py (S d)) (cleared st)) in
    let whole := run E w (request py (S (S d)) m u kw st) in
    calls "_authenticate" (trace (final chain)) =
      S (calls "_authenticate" (trace st))
    /\ calls "_authenticate" (trace (final whole)) =
         S (calls "_authenticate" (trace st))
    /\ match result chain with
       | inl e => whole = (final chain, inl e, snd chain)
       | inr _ =>
           exists earlier r4 w3 resp session token,
             trace (final chain) = trace st ++ earlier ++ [EvHttp r4]
             /\ req_method r4 = "POST"
             /\ req_url r4 =
                PStr "https://api.edge-gateway.siriusxm.com/session/v1/sessions/authenticated"
             /\ serve E w3 r4 = (Responded resp, snd chain)
             /\ content_type resp = "application/json"
             /\ resp_json resp = Some session
             /\ getitem session "accessToken" = inr token
             /\ _authenticated_session (client (final chain)) = session
             /\ _access_token (client (final chain)) = token
             /\ exists req logs,
                  trace (final whole) = trace (final chain) ++ EvHttp req :: logs
                  /\ requests logs = []
                  /\ req_method req = m /\ req_url req = u
                  /\ req_json req = kw_json kw
                  /\ (truthy token = true ->
                      dict_get String.eqb (req_headers req) "Authorization" =
                      Some ("Bearer " ++ py_str py token)%string)
       end.
Proof.
  intros E py w st d m u kw exp He Hn chain whole.
  assert (Hc : calls "_authenticate" (trace (final chain)) =
               S (calls "_authenticate" (trace st))).
  { unfold chain. rewrite _authenticate_one_chain by apply no_expiry_cleared.
    now rewrite calls_cleared. }
  unfold whole. rewrite (request_expired_run E py d m u kw st exp w He Hn).
  pose proof (fun s w0 => _authenticate_session E py d (cleared st) s w w0
                            (conj Logic.eq_refl Logic.eq_refl)) as Hs.
  unfold chain in *. clear chain whole.
  destruct (run E w (_authenticate py (request py (S d)) (cleared st)))
    as [[st1 [e | []]] w1]; cbn [final result fst snd] in *.
  - repeat split; auto.
  - split; [exact Hc|]. split; [now rewrite calls_after_send|].
    destruct (Hs st1 w1 Logic.eq_refl) as
      (earlier & r4 & w3 & resp & session & Htr & Hm & Hu & Hsv & Hct & Hj
       & Hses & Htok).
    exists (EvLog "Access token expired; requesting a new one." :: earlier),
           r4, w3, resp, session, (_access_token (client st1)).
    split. { rewrite Htr. cbn [trace cleared set_client emit].
             now rewrite <- app_assoc. }
    do 5 (split; [assumption|]). split; [exact Htok|].
    split; [exact Hses|]. split; [reflexivity|].
    destruct (send_run E py m u kw st1 w1) as (logs & Ht & Hr & _).
    exists (outgoing py m u kw st1), logs. repeat split; auto.
    apply outgoing_bearer.
Qed.

(** C8 as amended.  A request issued while the client holds no
    expiration (the state of a client without a token) starts no
    authentication chain and leaves the client, token state included, as
    it is: its first effect is the request itself, handed to the
    transport. *)
Theorem request_without_token_is_sent_directly :
  forall (E : Env) (py : Builtins) (w : World E) (st : State) (d : nat)
         (m : string) (u : PyVal) (kw : Kwargs),
    _access_token_expiration (client st) = None ->
    let whole := run E w (request py (S d) m u kw st) in
    calls "_authenticate" (trace (final whole)) =
      calls "_authenticate" (trace st)
    /\ client (final whole) = client st
    /\ exists req logs,
         trace (final whole) = trace st ++ EvHttp req :: logs
         /\ requests logs = []
         /\ req_method req = m /\ req_url req = u.
Proof.
  intros E py w st d m u kw He whole. unfold whole.
  rewrite request_no_expiry by exact He.
  split; [apply calls_after_send|].
  destruct (send_run E py m u kw st w) as (logs & Ht & Hr & _ & Hcl & _).
  split; [exact Hcl|].
  exists (outgoing py m u kw st), logs. repeat split; auto.
Qed.

(** C10. Whatever the state and the transport, a request never needs
    more than two frames of [request]: with any larger limit it runs as
    with two, and it starts at most one chain.  For when the token has
    expired, [request] is the chain, started in the state in which token
    and expiration are both absent, followed by the send; and wherever no
    expiration is held, as in that state and up to the last assignment of
    the chain, a request is the send alone, with no expiry check to pass
    and no chain to start. *)
Theorem reauthentication_is_not_nested :
  forall (E : Env) (py : Builtins) (w : World E) (st : State) (d : nat)
         (m : string) (u : PyVal) (kw : Kwargs),
    run E w (request py (S (S d)) m u kw st) =
      run E w (request py 2 m u kw st)
    /\ calls "_authenticate"
         (trace (final (run E w (request py (S (S d)) m u kw st))))
       <= S (calls "_authenticate" (trace st))
    /\ (forall exp,
          _access_token_expiration (client st) = Some exp ->
          now_ge (clock st) exp = inr true ->
          request py (S (S d)) m u kw st =
            susp_bind (_authenticate py (request py (S d)) (cleared st))
              (fun _ => send py m u kw)
          /\ _access_token (client (cleared st)) = PNone
          /\ _access_token_expiration (client (cleared st)) = None)
    /\ (forall st' m' u' kw',
          _access_token_expiration (client st') = None ->
          request py (S d) m' u' kw' st' = send py m' u' kw' st').
Proof.
  intros E py w st d m u kw. split; [apply request_depth|]. split.
  - destruct (_access_token_expiration (client st)) as [exp|] eqn:He.
    + destruct (now_ge (clock st) exp) as [e | [|]] eqn:Hn.
      * rewrite request_unfold, run_bind,
          (refresh_incomparable _ _ _ _ He Hn).
        cbn. lia.
      * rewrite (request_expired_one_chain E py d m u kw st exp w He Hn). lia.
      * rewrite request_unfold, run_bind, (refresh_not_expired _ _ _ He Hn).
        cbn [run]. rewrite calls_after_send. lia.
    + rewrite request_no_expiry by exact He. rewrite calls_after_send. lia.
  - split.
    + intros exp He Hn.
      rewrite request_unfold, (refresh_expired _ _ _ He Hn). auto.
    + intros st' m' u' kw' He. now apply request_no_expiry.
Qed.

(** C3, on the code.  Both [raise AuthenticationError(message)] of
    [_authenticate] pass one argument to a constructor that requires two,
    so each raises [TypeError]; against a service that reports an identity
    without password, [connect()] ends in that [TypeError], having sent
    no request to the password endpoint. *)
Theorem connect_without_password_raises_TypeError :
  (forall py message, exists msg,
      AuthenticationError py [message] = inl (TypeError msg))
  /\ let whole := run (Scenario.env Scenario.without_password) 0
                    (connect Scenario.py 2 Scenario.fresh) in
     result whole =
       inl (TypeError
              "AuthenticationError.__init__() missing 1 required positional argument: 'original_exception'")
     /\ existsb (url_is password_url) (requests (trace (final whole))) = false
     /\ length (requests (trace (final whole))) = 3.
Proof.
  split.
  - intros py message. eexists. destruct message; reflexivity.
  - vm_compute. repeat split.
Qed.

(* ================================================================== *)
(** ** Properties of the stream handle *)
(* ================================================================== *)

Lemma bind_deref {A} self (f : SxmStream -> Coro A) st :
  bind (deref self) f st = f (objects st self) st.
Proof. reflexivity. Qed.



(** C2 as amended.  [get_playlist] checks nothing: it is the client's
    GET of what the handle holds for the bitrate, [None] when the bitrate
    is absent or null, and raises and returns as that request does.  So
    on a client whose token asks for no refresh the request, with [None]
    for URL where the handle has none, reaches the transport; a response
    of a playlist type is returned as its text. *)
Theorem get_playlist_requests_the_stored_value :
  forall (E : Env) (py : Builtins) (d : nat) (w : World E) (st : State)
         (self : nat) (bitrate : string),
    (forall exp, _access_token_expiration (client st) = Some exp ->
                 now_ge (clock st) exp = inr false) ->
    let o := objects st self in
    let url := match get_or_none (_streams_by_bitrate o) bitrate with
               | Some u => PStr u
               | None => PNone
               end in
    get_playlist py (S d) self bitrate st =
      request py (S d) "GET" url no_kwargs st
    /\ (exists req logs,
          trace (final (run E w (get_playlist py (S d) self bitrate st))) =
            trace st ++ EvHttp req :: logs
          /\ req_method req = "GET" /\ req_url req = url
          /\ requests logs = [])
    /\ (forall resp st',
          content_type resp = "application/x-mpegurl" ->
          receive py url (Responded resp) st' =
          Done st' (inr (PStr (resp_text resp)))).
Proof.
  intros E py d w st self bitrate He o url.
  assert (Heq : get_playlist py (S d) self bitrate st =
                request py (S d) "GET" url no_kwargs st).
  { unfold get_playlist. rewrite bind_deref. unfold url. fold o.
    destruct (get_or_none (_streams_by_bitrate o) bitrate); reflexivity. }
  split; [exact Heq|]. split.
  - rewrite Heq, request_no_refresh by exact He.
    destruct (send_run E py "GET" url no_kwargs st w) as (logs & Ht & Hr & _).
    exists (outgoing py "GET" url no_kwargs st), logs. repeat split; auto.
  - intros resp st' Hc. unfold receive. rewrite Hc. reflexivity.
Qed.

Lemma store_same self o h : store self o h self = o.
Proof. unfold store. now rewrite Nat.eqb_refl. Qed.

(** One round of the loop of [initialize] on a manifest text. *)
Lemma probe_bitrate_text self text base bitrate st :
  base_url (objects st self) = inr base ->
  probe_bitrate self (PStr text) bitrate st =
  Done (set_objects
          (fun h => store self
                      (with_bitrate bitrate (probe text base bitrate) (h self))
                      h) st)
       (inr tt).
Proof.
  intros Hb. unfold probe_bitrate, probe. cbn.
  destruct (search_playlist_line bitrate text) as [line|]; cbn; [|reflexivity].
  rewrite Hb. reflexivity.
Qed.

Lemma for_each_probe self text base bitrates :
  forall st,
    base_url (objects st self) = inr base ->
    exists st',
      for_each bitrates (probe_bitrate self (PStr text)) st = Done st' (inr tt)
      /\ objects st' self = probe_all text base bitrates (objects st self).
Proof.
  induction bitrates as [|b bs IH]; intros st Hb; cbn [for_each].
  - exists st. split; reflexivity.
  - cbn [bind Monad_Coro]. rewrite (probe_bitrate_text _ _ _ _ _ Hb).
    cbn [susp_bind].
    destruct (IH (set_objects
                    (fun h => store self
                                (with_bitrate b (probe text base b) (h self))
                                h) st))
      as (st' & Hrun & Hobj).
    + cbn. rewrite store_same. exact Hb.
    + exists st'. split; [exact Hrun|].
      rewrite Hobj. cbn. now rewrite store_same.
Qed.

Lemma probe_all_order text base o bitrate :
  In bitrate probe_order ->
  dict_get String.eqb
    (_streams_by_bitrate (probe_all text base probe_order o)) bitrate =
  Some (probe text base bitrate).
Proof.
  unfold probe_all, probe_order. cbn [fold_left with_bitrate _streams_by_bitrate].
  intros [<- | [<- | [<- | [<- | []]]]];
    repeat first
      [ apply dict_get_set_same
      | rewrite dict_get_set_other by (vm_compute; discriminate) ].
Qed.

(** Every URL the loop stores has a slash in it. *)
Lemma probe_has_slash text base bitrate url :
  probe text base bitrate = Some url -> PyStr.mem PyStr.slash url = true.
Proof.
  unfold probe. destruct (search_playlist_line bitrate text); [|discriminate].
  intros [= <-]. rewrite PyStrFacts.mem_append. cbn [append PyStr.mem].
  rewrite Ascii.eqb_refl. cbn. apply orb_true_r.
Qed.

Lemma request_keeps_objects E py depth m u kw st (w : World E) :
  objects (final (run E w (request py depth m u kw st))) = objects st.
Proof. apply (request_same_streams E py depth m u kw st w Logic.I). Qed.

(** C4 as amended.  When the tune-source request returns a descriptor
    that names a manifest URL and the request for that URL returns the
    manifest as text, [initialize] returns and the handle is initialized:
    each bitrate of the probe order then maps to
    [base_url + "/" + line.strip()] for the first of the manifest's lines
    (as the newline separates them) that contains
    [_<bitrate>_full_v3.m3u8], and to [None] when no line contains it;
    [base_url] is the manifest URL without its last slash and what
    follows. *)
Theorem initialize_maps_each_bitrate :
  forall (E : Env) (py : Builtins) (depth : nat) (w w1 w2 : World E)
         (st st1 st2 : State) (self : nat) (ts : PyVal) (murl text : string),
    run E w (request py depth "POST" (PStr tune_source_url)
               (tune_kwargs (objects st self))
               (emit (EvCall "initialize") st)) = (st1, inr ts, w1) ->
    streams_by_bitrate_url (with_tune_source ts (objects st self)) =
      inr (PStr murl) ->
    run E w1 (request py depth "GET" (PStr murl) no_kwargs
                (set_objects
                   (fun h => store self (with_tune_source ts (h self)) h)
                   st1)) =
      (st2, inr (PStr text), w2) ->
    let base := hd murl (PyStr.rsplit1 PyStr.slash murl) in
    let done := run E w (initialize py depth self st) in
    result done = inr tt
    /\ initialized (objects (final done) self) = true
    /\ (forall bitrate, In bitrate probe_order ->
               dict_get String.eqb
                 (_streams_by_bitrate (objects (final done) self)) bitrate =
               Some (match search_playlist_line bitrate text with
                     | Some line =>
                         Some (base ++ "/" ++ PyStr.strip line)%string
                     | None => None
                     end))
    /\ (forall a b, murl = (a ++ "/" ++ b)%string ->
                    PyStr.mem PyStr.slash b = false -> base = a)
    /\ (forall bitrate line,
          search_playlist_line bitrate text = Some line ->
          exists before after,
            PyStr.split PyStr.newline text = before ++ line :: after
            /\ PyStr.contains (playlist_needle bitrate) line = true
            /\ forall l, In l before ->
                 PyStr.contains (playlist_needle bitrate) l = false).
Proof.
  intros E py depth w w1 w2 st st1 st2 self ts murl text
         H1 Hurl H2 base done.
  set (o := objects st self) in *.
  assert (Hobj1 : objects st1 = objects st).
  { pose proof (request_keeps_objects E py depth "POST" (PStr tune_source_url)
                  (tune_kwargs o) (emit (EvCall "initialize") st) w) as H.
    now rewrite H1 in H. }
  set (st1' := set_objects
                 (fun h => store self (with_tune_source ts (h self)) h) st1)
    in *.
  assert (Ho1 : objects st1' self = with_tune_source ts o).
  { cbn. rewrite store_same, Hobj1. reflexivity. }
  assert (Ho2 : objects st2 self = with_tune_source ts o).
  { pose proof (request_keeps_objects E py depth "GET" (PStr murl)
                  no_kwargs st1' w1) as H.
    rewrite H2 in H. cbn [final fst] in H. now rewrite H. }
  assert (Hbase : base_url (objects st2 self) = inr base).
  { rewrite Ho2. unfold base_url. rewrite Hurl. reflexivity. }
  destruct (for_each_probe self text base probe_order st2 Hbase)
    as (st3 & Hloop & Ho3).
  assert (Hdone : done =
                  (set_objects
                     (fun h => store self (with_initialized true (h self)) h)
                     st3,
                   inr tt, w2)).
  { unfold done, initialize.
    rewrite run_bind_coro. cbn [called modify run].
    rewrite run_bind_coro. unfold deref at 1. cbn [gets run objects emit].
    fold o.
    rewrite run_bind_coro, H1.
    rewrite run_bind_coro. cbn [assign modify run]. fold st1'.
    rewrite run_bind_coro. unfold deref at 1. cbn [gets run].
    rewrite Ho1.
    rewrite run_bind_coro. cbn [eval run]. rewrite Hurl.
    rewrite run_bind_coro, H2.
    rewrite run_bind_coro, Hloop. reflexivity. }
  rewrite Hdone. cbn [result final fst snd objects set_objects].
  rewrite store_same, Ho3, Ho2.
  split; [reflexivity|]. split; [reflexivity|]. split; [|split].
  - intros bitrate Hin.
    change (_streams_by_bitrate
              (with_initialized true
                 (probe_all text base probe_order (with_tune_source ts o))))
      with (_streams_by_bitrate
              (probe_all text base probe_order (with_tune_source ts o))).
    now apply probe_all_order.
  - intros a b -> Hb. unfold base.
    apply (PyStrFacts.rsplit1_head PyStr.slash a b Hb).
  - intros bitrate line Hs. unfold search_playlist_line in Hs.
    apply PyStrFacts.find_first in Hs. exact Hs.
Qed.

(* ================================================================== *)
(** ** Concurrent calls of [get_stream] *)
(* ================================================================== *)

Lemma AllReturns_bind {A B} (Q : State -> B -> Prop) (m : Susp A)
  (f : A -> Coro B) :
  (forall a st, AllReturns Q (f a st)) -> AllReturns Q (susp_bind m f).
Proof.
  intro Hf. induction m as [st [e | a] | st req k IH]; cbn; auto.
Qed.

Lemma key_eqb_refl k : key_eqb k k = true.
Proof. unfold key_eqb. now rewrite !String.eqb_refl. Qed.

Lemma requests_app t1 t2 : requests (t1 ++ t2) = requests t1 ++ requests t2.
Proof.
  induction t1 as [|[m | f | r] t1 IH]; cbn; auto. now rewrite IH.
Qed.

(** A call of [get_stream] for such a pair runs, without suspending, up
    to the tune-source request of [initialize]: it leaves the one handle
    of the pair registered and not initialized, and the token state and
    the clock as they were. *)
Lemma get_stream_first_segment py d t i st :
  no_refresh st -> uninitialized t i st ->
  exists st' req k addr,
    get_stream py (S d) t i st = Await st' req k
    /\ req_url req = PStr tune_source_url
    /\ trace st' =
         trace st ++ [EvCall "get_stream"; EvCall "initialize"; EvHttp req]
    /\ dict_get key_eqb (_streams (client st')) (t, i) = Some addr
    /\ (forall a, dict_get key_eqb (_streams (client st)) (t, i) = Some a ->
                  a = addr /\ allocated st' = allocated st)
    /\ allocated st' <= S (allocated st)
    /\ no_refresh st' /\ uninitialized t i st'.
Proof.
  intros Hn Hu. unfold get_stream.
  cbn [bind Monad_Coro called modify susp_bind gets].
  cbn [client emit].
  destruct (dict_get key_eqb (_streams (client st)) (t, i)) as [addr|] eqn:Hr.
  - cbn [susp_bind ret Monad_Coro gets client emit]. rewrite Hr.
    cbn [susp_bind ret Monad_Coro deref gets objects emit].
    rewrite (Hu addr Hr). cbn [negb].
    unfold initialize.
    cbn [bind Monad_Coro called modify susp_bind deref gets objects emit].
    rewrite request_unfold, refresh_noop by exact Hn.
    cbn [susp_bind]. rewrite send_suspends. cbn [susp_bind].
    do 3 eexists. exists addr. split; [reflexivity|].
    split; [reflexivity|]. split.
    { unfold sending. cbn [kw_headers tune_kwargs].
      destruct (truthy _); cbn; rewrite <- !app_assoc; reflexivity. }
    split.
    { unfold sending. cbn [kw_headers tune_kwargs].
      destruct (truthy _); cbn; exact Hr. }
    split.
    { intros a [= ->]. split; [reflexivity|].
      unfold sending. cbn [kw_headers tune_kwargs].
      destruct (truthy _); reflexivity. }
    split.
    { unfold sending. cbn [kw_headers tune_kwargs].
      destruct (truthy _); cbn; lia. }
    split.
    { unfold sending, no_refresh. cbn [kw_headers tune_kwargs].
      destruct (truthy _); cbn; exact Hn. }
    { unfold sending, uninitialized. cbn [kw_headers tune_kwargs].
      destruct (truthy _); cbn; exact Hu. }
  - cbn [new_object susp_bind bind Monad_Coro modify gets client
           set_client set_allocated set_objects emit with_streams _streams
           allocated objects].
    rewrite dict_get_set_same_key.
    cbn [susp_bind ret Monad_Coro deref gets objects set_client
           set_allocated set_objects emit].
    rewrite store_same. cbn [initialized SxmStream__init__ negb].
    unfold initialize.
    cbn [bind Monad_Coro called modify susp_bind deref gets objects
           set_client set_allocated set_objects emit].
    rewrite store_same.
    rewrite request_unfold, refresh_noop by exact Hn.
    cbn [susp_bind]. rewrite send_suspends. cbn [susp_bind].
    do 3 eexists. exists (allocated st). split; [reflexivity|].
    split; [reflexivity|]. split.
    { unfold sending. cbn [kw_headers tune_kwargs].
      destruct (truthy _); cbn; rewrite <- !app_assoc; reflexivity. }
    split.
    { unfold sending. cbn [kw_headers tune_kwargs].
      destruct (truthy _); cbn; apply dict_get_set_same_key. }
    split; [intros a [=]|].
    split.
    { unfold sending. cbn [kw_headers tune_kwargs].
      destruct (truthy _); cbn; lia. }
    split.
    { unfold sending, no_refresh. cbn [kw_headers tune_kwargs].
      destruct (truthy _); cbn; exact Hn. }
    { unfold sending, uninitialized. cbn [kw_headers tune_kwargs].
      destruct (truthy _); cbn; rewrite dict_get_set_same_key;
        intros a [= <-]; now rewrite store_same. }
Qed.

(** Whenever [initialize] returns, the handle is initialized. *)
Lemma initialize_returns_initialized py depth self st :
  AllReturns (fun st' _ => initialized (objects st' self) = true)
    (initialize py depth self st).
Proof.
  unfold initialize.
  cbn [bind Monad_Coro called modify susp_bind deref gets].
  apply AllReturns_bind; intros ts st1.
  cbn [bind Monad_Coro assign modify susp_bind deref gets eval].
  destruct (streams_by_bitrate_url _) as [e | murl]; cbn [susp_bind];
    [exact Logic.I|].
  apply AllReturns_bind; intros sb st2.
  apply AllReturns_bind; intros [] st3.
  cbn. now rewrite store_same.
Qed.

(** Whenever [get_stream] returns, the handle it returns is
    initialized. *)
Lemma get_stream_returns_initialized py depth t i st :
  AllReturns (fun st' addr => initialized (objects st' addr) = true)
    (get_stream py depth t i st).
Proof.
  unfold get_stream.
  cbn [bind Monad_Coro called modify susp_bind gets].
  set (st0 := emit (EvCall "get_stream") st).
  assert (H : forall s (r : Coro unit),
             (forall x, r x = Done x (inr tt)) ->
             AllReturns (fun st' addr => initialized (objects st' addr) = true)
               (susp_bind (r s)
                  (fun _ =>
                     c <- gets client ;;
                     stream <-
                       match dict_get key_eqb (_streams c) (t, i) with
                       | Some addr => ret addr
                       | None => raise (KeyError (t ++ "," ++ i))
                       end ;;
                     o <- deref stream ;;
                     (if negb (initialized o)
                      then initialize py depth stream else ret tt) ;;
                     ret stream))).
  { intros s r Hr. rewrite Hr. cbn [susp_bind bind Monad_Coro gets].
    destruct (dict_get key_eqb (_streams (client s)) (t, i)) as [addr|];
      cbn [susp_bind ret raise Monad_Coro MonadExc_Coro deref gets];
      [|exact Logic.I].
    destruct (initialized (objects s addr)) eqn:Hi; cbn [negb susp_bind].
    - exact Hi.
    - generalize (initialize_returns_initialized py depth addr s).
      generalize (initialize py depth addr s). intros m Hm.
      induction m as [s' [e | a] | s' req k IH]; cbn in *; auto. }
  destruct (dict_get key_eqb (_streams (client st0)) (t, i)) as [addr|].
  - apply (H st0 (ret tt)). reflexivity.
  - cbn [new_object bind Monad_Coro susp_bind modify].
    apply (H _ (fun x => Done x (inr tt))). reflexivity.
Qed.

(** C9 as amended.  Two calls of [get_stream] for a pair that has no
    initialized handle, the second started while the first is suspended
    (on a client whose token asks for no refresh), both run [initialize]:
    two tune-source requests go out and both calls are suspended on them,
    with one handle registered for the pair; and a call, however the loop
    interleaves it with others, returns a handle that is initialized when
    it returns. *)
Theorem concurrent_get_stream_initializes_twice :
  forall (E : Env) (py : Builtins) (d : nat) (w : World E) (st : State)
         (t i : string),
    (forall exp, _access_token_expiration (client st) = Some exp ->
                 now_ge (clock st) exp = inr false) ->
    (forall addr, dict_get key_eqb (_streams (client st)) (t, i) = Some addr ->
                  initialized (objects st addr) = false) ->
    let call := get_stream py (S d) t i in
    let l := schedule E [0; 1]
               {| shared := st; tasks := [Ready call; Ready call];
                  world := w |} in
    (exists r1 k1 r2 k2 addr,
        tasks l = [Suspended r1 k1; Suspended r2 k2]
        /\ req_url r1 = PStr tune_source_url
        /\ req_url r2 = PStr tune_source_url
        /\ requests (trace (shared l)) = requests (trace st) ++ [r1; r2]
        /\ calls "initialize" (trace (shared l)) =
           2 + calls "initialize" (trace st)
        /\ dict_get key_eqb (_streams (client (shared l))) (t, i) = Some addr
        /\ allocated (shared l) <= S (allocated st))
    /\ (forall st',
          AllReturns (fun st'' addr => initialized (objects st'' addr) = true)
            (call st')).
Proof.
  intros E py d w st t i Hn Hu call l. split.
  - destruct (get_stream_first_segment py d t i st Hn Hu)
      as (st1 & r1 & k1 & a1 & Hg1 & Hu1 & Ht1 & Hr1 & _ & Ha1 & Hn1 & Hi1).
    destruct (get_stream_first_segment py d t i st1 Hn1 Hi1)
      as (st2 & r2 & k2 & a2 & Hg2 & Hu2 & Ht2 & Hr2 & Hsame & _ & _ & _).
    exists r1, k1, r2, k2, a2.
    assert (Hl : l = {| shared := st2;
                        tasks := [Suspended r1 k1; Suspended r2 k2];
                        world := w |}).
    { unfold l, schedule. cbn [fold_left step nth_error tasks shared world].
      unfold call. rewrite Hg1.
      cbn [step settle update_nth nth_error tasks shared world].
      rewrite Hg2. reflexivity. }
    rewrite Hl. cbn [tasks shared].
    destruct (Hsame a1 Hr1) as [_ Halloc].
    repeat split; auto.
    + rewrite Ht2, Ht1, !requests_app. cbn. now rewrite <- app_assoc.
    + rewrite Ht2, Ht1, !calls_app. cbn. lia.
    + lia.
  - intro st'. apply get_stream_returns_initialized.
Qed.

(* ================================================================== *)
(** ** The playlist rewrite *)
(* ================================================================== *)

Module ProxyFacts.
Import Proxy ProxySpec.

Lemma expand_lits s whole g : expand (lits s) whole g = s.
Proof. induction s as [|c s IH]; cbn; [reflexivity | now rewrite IH]. Qed.

Lemma parse_template_plain s :
  forall fuel, String.length s < fuel ->
    PyStr.mem PyStr.backslash s = false ->
    parse_template fuel s = inr (lits s).
Proof.
  induction s as [|c s IH]; intros [|fuel] Hlen Hm; cbn in Hlen; try lia.
  - reflexivity.
  - cbn [PyStr.mem] in Hm. apply orb_false_iff in Hm as [Hc Hs].
    cbn [parse_template]. rewrite Ascii.eqb_sym, Hc. cbn [negb].
    rewrite (IH fuel) by (auto; lia). reflexivity.
Qed.

Lemma strip_prefix_app p s : strip_prefix p (p ++ s) = Some s.
Proof.
  induction p as [|c p IH]; cbn; [reflexivity|].
  now rewrite Ascii.eqb_refl.
Qed.

Lemma strip_prefix_some p s r : strip_prefix p s = Some r -> s = (p ++ r)%string.
Proof.
  revert s; induction p as [|c p IH]; intros s; cbn.
  - now intros [= ->].
  - destruct s as [|b s]; [discriminate|].
    destruct (Ascii.eqb c b) eqn:Hc; [|discriminate].
    apply Ascii.eqb_eq in Hc; subst b. intro H. now rewrite (IH _ H).
Qed.

Lemma until_quote_intro r rest :
  PyStr.mem PyStr.newline r = false -> PyStr.mem PyStr.dquote r = false ->
  until_quote (r ++ quote ++ rest) = Some (r, rest).
Proof.
  induction r as [|c r IH]; cbn [PyStr.mem append until_quote];
    intros Hn Hq; [reflexivity|].
  apply orb_false_iff in Hn as [Hn1 Hn2].
  apply orb_false_iff in Hq as [Hq1 Hq2].
  rewrite Ascii.eqb_sym, Hq1, Ascii.eqb_sym, Hn1, (IH Hn2 Hq2). reflexivity.
Qed.

Lemma until_quote_elim s r rest :
  until_quote s = Some (r, rest) ->
  s = (r ++ quote ++ rest)%string
  /\ PyStr.mem PyStr.newline r = false /\ PyStr.mem PyStr.dquote r = false.
Proof.
  revert r rest; induction s as [|c s IH]; intros r rest;
    cbn [until_quote]; [discriminate|].
  destruct (Ascii.eqb c PyStr.dquote) eqn:Hq.
  - intros [= <- <-]. apply Ascii.eqb_eq in Hq; subst c. auto.
  - destruct (Ascii.eqb c PyStr.newline) eqn:Hn; [discriminate|].
    destruct (until_quote s) as [[g rest']|]; [|discriminate].
    intros [= <- <-]. destruct (IH g rest' Logic.eq_refl) as (-> & H1 & H2).
    cbn [PyStr.mem append].
    rewrite (Ascii.eqb_sym PyStr.newline), Hn, (Ascii.eqb_sym PyStr.dquote), Hq.
    auto.
Qed.

(** [match_here] finds exactly the matches of [find]. *)
Lemma match_here_intro uri rest :
  uri_ok uri ->
  match_here (key_prefix ++ uri ++ quote ++ rest) = Some (uri, rest).
Proof.
  intros (c & r & -> & Hc & Hn & Hq). unfold match_here.
  rewrite strip_prefix_app. cbn [append lazy_group].
  apply Ascii.eqb_neq in Hc. rewrite Hc.
  now rewrite (until_quote_intro r rest Hn Hq).
Qed.

Lemma match_here_elim s uri rest :
  match_here s = Some (uri, rest) ->
  uri_ok uri /\ s = (key_prefix ++ uri ++ quote ++ rest)%string.
Proof.
  unfold match_here.
  destruct (strip_prefix key_prefix s) as [after|] eqn:Hp; [|discriminate].
  apply strip_prefix_some in Hp. subst s.
  destruct after as [|c after]; cbn [lazy_group]; [discriminate|].
  destruct (Ascii.eqb c PyStr.newline) eqn:Hc; [discriminate|].
  destruct (until_quote after) as [[g rest']|] eqn:Hu; [|discriminate].
  intros [= <- <-]. apply until_quote_elim in Hu as (-> & Hn & Hq).
  split; [|reflexivity].
  exists c, g. apply Ascii.eqb_neq in Hc. auto.
Qed.

Lemma match_here_none s : ~ key_match s -> match_here s = None.
Proof.
  intro H. destruct (match_here s) as [[uri rest]|] eqn:Hm; [|reflexivity].
  apply match_here_elim in Hm as (Hu & ->). exfalso. apply H.
  now exists uri, rest.
Qed.

Lemma length_append (a b : string) :
  String.length (a ++ b) = String.length a + String.length b.
Proof. induction a as [|c a IH]; cbn; auto. Qed.

(** The characters of a match still to pass are passed. *)
Lemma sub_scan_skip template m rest :
  sub_scan template (String.length m) (m ++ rest) = sub_scan template 0 rest.
Proof. induction m as [|c m IH]; cbn; [destruct rest|]; auto. Qed.

(** A text in which no match begins is copied. *)
Lemma sub_scan_copy template text :
  (forall a b, text = (a ++ b)%string -> ~ key_match b) ->
  sub_scan template 0 text = text.
Proof.
  induction text as [|c text IH]; intro H; [reflexivity|].
  cbn [sub_scan]. rewrite (match_here_none (String c text)).
  - rewrite IH; [reflexivity|].
    intros a b Heq. apply (H (String c a) b). now rewrite Heq.
  - apply (H EmptyString). reflexivity.
Qed.

(** The leftmost match is replaced by the replacement, what precedes it
    is copied, and the scan goes on after it. *)
Lemma sub_scan_match repl pre uri post :
  uri_ok uri ->
  (forall a b, pre = (a ++ b)%string -> b <> EmptyString ->
     ~ key_match (b ++ key_prefix ++ uri ++ quote ++ post)) ->
  sub_scan (lits repl) 0 (pre ++ key_prefix ++ uri ++ quote ++ post) =
  (pre ++ repl ++ sub_scan (lits repl) 0 post)%string.
Proof.
  intros Hu. induction pre as [|c pre IH]; intro H.
  - cbn [append].
    pose proof (match_here_intro uri post Hu) as Hm.
    remember (key_prefix ++ uri ++ quote ++ post)%string as s eqn:Hs.
    destruct s as [|c s']; [discriminate|].
    cbn [sub_scan]. rewrite Hm, expand_lits. f_equal.
    assert (Hlen : String.length (String c s') - String.length post - 1 =
                   String.length s' - String.length post).
    { cbn [String.length]. lia. }
    rewrite Hlen.
    assert (Hsplit : exists m, s' = (m ++ post)%string
                               /\ String.length m =
                                  String.length s' - String.length post).
    { assert (Hw : (key_prefix ++ uri ++ quote ++ post =
                    (key_prefix ++ uri ++ quote) ++ post)%string).
      { now rewrite !PyStrFacts.append_assoc. }
      rewrite Hw in Hs.
      destruct (key_prefix ++ uri ++ quote)%string as [|c0 m0] eqn:Hwhole.
      - unfold key_prefix in Hwhole. cbn [append] in Hwhole. discriminate.
      - cbn [append] in Hs. injection Hs as _ ->.
        exists m0. split; [reflexivity|]. rewrite length_append. lia. }
    destruct Hsplit as (m & -> & <-). apply sub_scan_skip.
  - cbn [append sub_scan].
    rewrite (match_here_none (String c (pre ++ _))).
    + rewrite IH; [reflexivity|].
      intros a b Heq Hb. apply (H (String c a) b); [now rewrite Heq | exact Hb].
    + apply (H EmptyString (String c pre)); [reflexivity | discriminate].
Qed.

End ProxyFacts.

(** X23.  For an entity type and id without backslash, the rewrite of a
    playlist replaces, in each match of [find] from left to right, the
    value of the group by the local key path of the entity and copies
    every other character: a text in which no match begins is returned as
    it is, and a text whose leftmost match has the value [uri] is returned
    with what precedes the match, the match with the key path for [uri],
    and the rewrite of what follows. *)
Theorem rewrite_playlist_plain_entities :
  forall (entity_type entity_id : string),
    PyStr.mem PyStr.backslash entity_type = false ->
    PyStr.mem PyStr.backslash entity_id = false ->
    (forall text,
        (forall a b, text = (a ++ b)%string -> ~ ProxySpec.key_match b) ->
        Proxy.rewrite_playlist text entity_type entity_id = inr text)
    /\ (forall pre uri post out,
          ProxySpec.uri_ok uri ->
          (forall a b, pre = (a ++ b)%string -> b <> EmptyString ->
             ~ ProxySpec.key_match
                 (b ++ Proxy.key_prefix ++ uri ++ ProxySpec.quote ++ post)) ->
          Proxy.rewrite_playlist post entity_type entity_id = inr out ->
          Proxy.rewrite_playlist
            (pre ++ Proxy.key_prefix ++ uri ++ ProxySpec.quote ++ post)
            entity_type entity_id =
          inr (pre ++ Proxy.key_prefix
                   ++ Proxy.key_path entity_type entity_id
                   ++ ProxySpec.quote ++ out)%string).
Proof.
  intros t i Ht Hi.
  assert (Hp : Proxy.parse_template
                 (S (String.length (Proxy.replacement t i)))
                 (Proxy.replacement t i) =
               inr (ProxySpec.lits (Proxy.replacement t i))).
  { apply ProxyFacts.parse_template_plain; [lia|].
    unfold Proxy.replacement, Proxy.key_path.
    rewrite !PyStrFacts.mem_append, Ht, Hi. reflexivity. }
  unfold Proxy.rewrite_playlist, Proxy.re_sub_key. rewrite Hp.
  cbn [and_then]. split.
  - intros text H. now rewrite ProxyFacts.sub_scan_copy.
  - intros pre uri post out Hu H.
    rewrite (ProxyFacts.sub_scan_match _ pre uri post Hu H).
    generalize (Proxy.sub_scan (ProxySpec.lits (Proxy.replacement t i)) 0 post).
    intros s [= <-].
    unfold Proxy.replacement, ProxySpec.quote.
    rewrite !PyStrFacts.append_assoc. reflexivity.
Qed.

(** C5, on the code.  The handler passes its f-string to [re.sub] as
    the replacement, and [re.sub] reads a replacement as a template: a
    backslash in the entity id is an escape.  For the id [\1], a
    reference to the group, the playlist comes back with the upstream key
    URI inside the local path, not with [/stream/channel-linear/\1/key];
    the handler returns that body.  For the id [\d] the template is
    refused, and the rewrite raises even on a playlist without key
    line. *)
Theorem rewrite_playlist_expands_escapes_of_the_entity_id :
  Proxy.rewrite_playlist Scenario.playlist "channel-linear" "\1" =
    inr (Scenario.playlist_with_key
           "/stream/channel-linear/https://keys.example.com/k1/key")
  /\ Proxy.rewrite_playlist Scenario.playlist "channel-linear" "\1" <>
       inr (Scenario.playlist_with_key
              (Proxy.key_path "channel-linear" "\1"))
  /\ result (run (Scenario.env Scenario.with_password) 7
               (Proxy.get_playlist Scenario.py 2 "channel-linear" "\1"
                  Scenario.connected)) =
       inr {| Proxy.body :=
                Scenario.playlist_with_key
                  "/stream/channel-linear/https://keys.example.com/k1/key";
              Proxy.response_content_type := "application/x-mpegURL" |}
  /\ Proxy.rewrite_playlist "#EXTM3U" "channel-linear" "\d" =
       inl (Proxy.re_error "bad escape").
Proof.
  split; [vm_compute; reflexivity|].
  split; [vm_compute; discriminate|].
  split; vm_compute; reflexivity.
Qed.

(* ================================================================== *)
(** * Further properties of the code *)
(* ================================================================== *)

(* ================================================================== *)
(** ** The runs that raise, and what is raised *)
(* ================================================================== *)


Section Raises.

Variable E : Env.
Variable py : Builtins.

(** *** Rules for the runs that raise *)

Lemma Raising_bind {A B} I J R (c : Coro A) (f : A -> Coro B) :
  Keeps E I R c -> (forall a, Raising E I J (f a)) ->
  (forall s, I s -> J s) -> Raising E I J (bind c f).
Proof.
  intros Hc Hf HIJ st w e HI. rewrite run_bind_coro.
  destruct (Hc st w HI) as [_ H2].
  destruct (run E w (c st)) as [[st' [e' | a]] w']; cbn in *.
  - intros _. now apply HIJ.
  - apply Hf, H2.
Qed.

Lemma Raising_returns {A} I J (c : Coro A) :
  (forall st w e, result (run E w (c st)) <> inl e) -> Raising E I J c.
Proof. intros H st w e _ He. now apply H in He. Qed.

Lemma Raising_try_except {A} I J (c : Coro A) cls (h : Exn -> Coro A) :
  Raising E I J c -> (forall e, Keeps E J (fun _ _ => True) (h e)) ->
  Raising E I J (try_except c cls h).
Proof.
  intros Hc Hh st w e HI. rewrite run_try_except.
  pose proof (Hc st w) as H1.
  destruct (run E w (c st)) as [[st' [e' | a]] w']; cbn in *; [|discriminate].
  specialize (H1 e' HI Logic.eq_refl).
  destruct (String.eqb (exn_class e') cls); cbn.
  - intros _. apply (Hh e' st' w' H1).
  - intros _. exact H1.
Qed.

(** *** Rules for what is raised *)

Section ThrowsRules.

Variable P : Exn -> Prop.

Lemma Throws_bind {A B} (c : Coro A) (f : A -> Coro B) :
  Throws E P c -> (forall a, Throws E P (f a)) -> Throws E P (bind c f).
Proof.
  intros Hc Hf st w e. rewrite run_bind_coro.
  pose proof (Hc st w) as H1.
  destruct (run E w (c st)) as [[st' [e' | a]] w']; cbn in *.
  - intros [= <-]. now apply H1.
  - apply Hf.
Qed.

Lemma Throws_ret {A} (a : A) : Throws E P (ret a).
Proof. intros st w e; cbn; discriminate. Qed.

Lemma Throws_gets {A} (f : State -> A) : Throws E P (gets f).
Proof. intros st w e; cbn; discriminate. Qed.

Lemma Throws_get_state : Throws E P get_state.
Proof. intros st w e; cbn; discriminate. Qed.

Lemma Throws_modify f : Throws E P (modify f).
Proof. intros st w e; cbn; discriminate. Qed.

Lemma Throws_raise {A} e : P e -> Throws E P (raise e : Coro A).
Proof. intros H st w e'; cbn. now intros [= <-]. Qed.

Lemma Throws_eval {A} (r : Result A) :
  (forall e, r = inl e -> P e) -> Throws E P (eval r).
Proof. intros H st w e; cbn. apply H. Qed.

Lemma Throws_try_except {A} (c : Coro A) cls (h : Exn -> Coro A) :
  Throws E (fun e => exn_class e <> cls -> P e) c ->
  (forall e, Throws E P (h e)) -> Throws E P (try_except c cls h).
Proof.
  intros Hc Hh st w e. rewrite run_try_except.
  pose proof (Hc st w) as H1.
  destruct (run E w (c st)) as [[st' [e' | a]] w']; cbn in *; [|discriminate].
  destruct (String.eqb (exn_class e') cls) eqn:Hcls.
  - apply Hh.
  - intros [= <-]. apply (H1 e' Logic.eq_refl).
    now apply String.eqb_neq.
Qed.

Lemma Throws_weaken {A} (Q : Exn -> Prop) (c : Coro A) :
  Throws E Q c -> (forall e, Q e -> P e) -> Throws E P c.
Proof. intros H HQ st w e He. apply HQ, (H st w e He). Qed.

End ThrowsRules.

End Raises.

(* ================================================================== *)
(** ** What every request keeps *)
(* ================================================================== *)

Section Indifference.

Variable E : Env.
Variable py : Builtins.
Variable I : State -> Prop.
Variable R : State -> State -> Prop.
Hypothesis HI : Indifferent I R.

Let HS := indifferent_stable I R HI.
Let R_trans := stable_trans I R HS.

Lemma authentication_chain_Keeps req :
  (forall m u kw, Keeps E I R (req m u kw)) ->
  Keeps E I R (authentication_chain py req).
Proof.
  intro Hreq. unfold authentication_chain.
  repeat
    lazymatch goal with
    | |- Keeps _ _ _ (bind _ _) => apply (Keeps_bind E I R R_trans); [|intro]
    | |- Keeps _ _ _ (_create_device_session _) =>
        apply _create_device_session_Keeps; [exact HS | exact Hreq]
    | |- Keeps _ _ _ (_create_anonymous_session _ _ _) =>
        apply _create_anonymous_session_Keeps; [exact HS | exact Hreq]
    | |- Keeps _ _ _ (_get_identity_status _ _ _ _) =>
        apply _get_identity_status_Keeps; [exact HS | exact Hreq]
    | |- Keeps _ _ _ (_authenticate_with_password _ _ _) =>
        apply _authenticate_with_password_Keeps; [exact HS | exact Hreq]
    | |- Keeps _ _ _ (_create_authenticated_session _ _ _) =>
        apply _create_authenticated_session_Keeps; [exact HS | exact Hreq]
    | |- Keeps _ _ _ (modify (set_client (with_access_token_expiration _))) =>
        apply Keeps_modify, (indifferent_expiration I R HI)
    | |- Keeps _ _ _ _ => keep_step HS
    end.
Qed.

Lemma _authenticate_Keeps req :
  (forall m u kw, Keeps E I R (req m u kw)) ->
  Keeps E I R (_authenticate py req).
Proof.
  intro Hreq. unfold _authenticate, called.
  apply (Keeps_bind E I R R_trans);
    [apply Keeps_modify, (indifferent_call I R HI)|intros _].
  apply Keeps_try_except; [exact R_trans | |].
  - now apply authentication_chain_Keeps.
  - intro e. now apply authentication_failed_Keeps.
Qed.

(** A request, at any depth and from any state in [I], keeps [I] and
    stays within [R]. *)
Lemma request_Keeps d m u kw : Keeps E I R (request py d m u kw).
Proof.
  revert m u kw. induction d as [|d IH]; intros m u kw.
  - cbn [request]. apply Keeps_raise, (stable_refl I R HS).
  - cbn [request]. unfold request_frame.
    apply (Keeps_bind E I R R_trans); [|intro; now apply send_Keeps].
    unfold refresh_if_expired, log.
    repeat
      lazymatch goal with
      | |- Keeps _ _ _ (bind _ _) => apply (Keeps_bind E I R R_trans); [|intro]
      | |- Keeps _ _ _ (_authenticate _ _) => apply _authenticate_Keeps, IH
      | |- Keeps _ _ _ (modify (set_client (with_access_token_expiration _))) =>
          apply Keeps_modify, (indifferent_expiration I R HI)
      | |- Keeps _ _ _ _ => keep_step HS
      end.
Qed.

End Indifference.

(* ================================================================== *)
(** ** Errors, headers and the token state of [request] *)
(* ================================================================== *)



Lemma received_headers py u o st :
  SXM_REQUEST_HEADERS (received py u o st) = SXM_REQUEST_HEADERS st.
Proof. destruct o; reflexivity. Qed.

Lemma received_client py u o st : client (received py u o st) = client st.
Proof. destruct o; reflexivity. Qed.

(** X2.  While no refresh is due, a request that passes no headers on a
    client that holds a token assigns [Bearer <token>] to [Authorization]
    in the module-level dictionary [SXM_REQUEST_HEADERS] itself, where it
    stays after the request; the other entries are as before.  A request
    that passes headers of its own leaves the dictionary alone. *)
Theorem request_stores_the_bearer_in_the_shared_headers :
  forall (E : Env) (py : Builtins) (d : nat) (w : World E) (st : State)
         (m : string) (u : PyVal) (js : option PyVal),
    (forall exp, _access_token_expiration (client st) = Some exp ->
                 now_ge (clock st) exp = inr false) ->
    truthy (_access_token (client st)) = true ->
    let shared := run E w (request py (S d) m u
                             {| kw_headers := None; kw_json := js |} st) in
    SXM_REQUEST_HEADERS (final shared) =
      dict_set String.eqb (SXM_REQUEST_HEADERS st) "Authorization"
        ("Bearer " ++ py_str py (_access_token (client st)))%string
    /\ dict_get String.eqb (SXM_REQUEST_HEADERS (final shared)) "Authorization" =
       Some ("Bearer " ++ py_str py (_access_token (client st)))%string
    /\ (forall k, k <> "Authorization" ->
          dict_get String.eqb (SXM_REQUEST_HEADERS (final shared)) k =
          dict_get String.eqb (SXM_REQUEST_HEADERS st) k)
    /\ (forall own,
          SXM_REQUEST_HEADERS
            (final (run E w (request py (S d) m u
                               {| kw_headers := Some own; kw_json := js |} st))) =
          SXM_REQUEST_HEADERS st).
Proof.
  intros E py d w st m u js Hn Ht shared.
  assert (Hs : SXM_REQUEST_HEADERS (final shared) =
               dict_set String.eqb (SXM_REQUEST_HEADERS st) "Authorization"
                 (bearer py (_access_token (client st)))).
  { unfold shared. rewrite request_run_exact by exact Hn.
    cbn [final fst]. rewrite received_headers. unfold sending. cbn.
    now rewrite Ht. }
  split; [exact Hs|]. rewrite Hs.
  split; [apply dict_get_set_same|].
  split; [intros k Hk; now apply dict_get_set_other|].
  intro own. rewrite request_run_exact by exact Hn.
  cbn [final fst]. now rewrite received_headers.
Qed.

(** X3.  While no refresh is due, a request made on a client that holds
    a token goes out with [Bearer <token>] for [Authorization], whatever
    the caller has passed for it in its own headers; the other headers of
    the caller go out as passed. *)
Theorem request_overrides_the_callers_authorization :
  forall (E : Env) (py : Builtins) (d : nat) (w : World E) (st : State)
         (m : string) (u : PyVal) (own : Headers) (js : option PyVal),
    (forall exp, _access_token_expiration (client st) = Some exp ->
                 now_ge (clock st) exp = inr false) ->
    truthy (_access_token (client st)) = true ->
    exists req logs,
      trace (final (run E w (request py (S d) m u
                               {| kw_headers := Some own; kw_json := js |}
                               st))) =
        trace st ++ EvHttp req :: logs
      /\ requests logs = []
      /\ dict_get String.eqb (req_headers req) "Authorization" =
         Some ("Bearer " ++ py_str py (_access_token (client st)))%string
      /\ forall k, k <> "Authorization" ->
           dict_get String.eqb (req_headers req) k = dict_get String.eqb own k.
Proof.
  intros E py d w st m u own js Hn Ht.
  rewrite request_no_refresh by exact Hn.
  destruct (send_run E py m u {| kw_headers := Some own; kw_json := js |} st w)
    as (logs & Htr & Hr & _).
  exists (outgoing py m u {| kw_headers := Some own; kw_json := js |} st), logs.
  split; [exact Htr|]. split; [exact Hr|].
  unfold outgoing, outgoing_headers. cbn [req_headers kw_headers].
  rewrite Ht. split; [apply dict_get_set_same|].
  intros k Hk. now apply dict_get_set_other.
Qed.

Section FailedChain.

Variable E : Env.
Variable py : Builtins.
Variable I : State -> Prop.
Variable R : State -> State -> Prop.
Hypothesis HS : Stable I R.
Variable req : string -> PyVal -> Kwargs -> Coro PyVal.
Hypothesis Hreq : forall m u kw, Keeps E I R (req m u kw).

(** A chain that raises has kept what its requests and sessions keep:
    its only other assignment is the last, after which nothing raises. *)
Lemma authentication_chain_Raising :
  Raising E I I (authentication_chain py req).
Proof.
  unfold authentication_chain.
  repeat
    lazymatch goal with
    | |- Raising _ _ _ (bind _ _) =>
        apply (Raising_bind E I I R); [| intro | auto]
    | |- Raising _ _ _ (modify _) =>
        apply Raising_returns; intros; cbn; discriminate
    | |- Keeps _ _ _ (_create_device_session _) =>
        apply _create_device_session_Keeps; [exact HS | exact Hreq]
    | |- Keeps _ _ _ (_create_anonymous_session _ _ _) =>
        apply _create_anonymous_session_Keeps; [exact HS | exact Hreq]
    | |- Keeps _ _ _ (_get_identity_status _ _ _ _) =>
        apply _get_identity_status_Keeps; [exact HS | exact Hreq]
    | |- Keeps _ _ _ (_authenticate_with_password _ _ _) =>
        apply _authenticate_with_password_Keeps; [exact HS | exact Hreq]
    | |- Keeps _ _ _ (_create_authenticated_session _ _ _) =>
        apply _create_authenticated_session_Keeps; [exact HS | exact Hreq]
    | |- Keeps _ _ _ _ => keep_step HS
    end.
Qed.

Lemma _authenticate_Raising :
  (forall st, I st -> I (emit (EvCall "_authenticate") st)) ->
  Raising E I I (_authenticate py req).
Proof.
  intros Hcall st w e Hst. unfold _authenticate.
  rewrite run_bind_coro. cbn [called modify run].
  apply (Raising_try_except E I I); [apply authentication_chain_Raising | |].
  - intro e'. pose proof (authentication_failed_Keeps E py I R HS e') as Hk.
    intros s w' Hs. split; [exact Logic.I | apply (Hk s w' Hs)].
  - apply Hcall, Hst.
Qed.

End FailedChain.

(** A re-authentication that raises leaves the client without
    expiration. *)
Lemma failed_authentication_no_expiry E py d st e (w : World E) :
  no_expiry st ->
  result (run E w (_authenticate py (request py (S d)) st)) = inl e ->
  no_expiry (final (run E w (_authenticate py (request py (S d)) st))).
Proof.
  intros Hn He.
  refine (_authenticate_Raising E py no_expiry (fun _ _ => True)
            Stable_no_expiry (request py (S d)) _ _ st w e Hn He).
  - intros; apply request_Keeps_no_expiry, Stable_no_expiry.
  - intros s Hs. exact Hs.
Qed.

Section Quiet.

Variable E : Env.
Variable py : Builtins.
Variable d : nat.

Lemma same_headers_trans a b c :
  same_headers a b -> same_headers b c -> same_headers a c.
Proof. unfold same_headers. congruence. Qed.

(** The run of a request of a client that holds neither a token nor
    an expiration: the request goes out with the headers it was given,
    and the state changes by the events and the clock. *)
Lemma request_quiet_Keeps m u kw :
  Keeps E quiet same_headers (request py (S d) m u kw).
Proof.
  intros st w [Hn Ht].
  rewrite request_run_exact by now apply no_expiry_no_refresh.
  cbn [final fst]. unfold same_headers, quiet, no_expiry.
  rewrite received_headers, received_client. unfold sending.
  destruct (kw_headers kw); rewrite ?Ht; cbn; auto.
Qed.

Ltac quiet_step :=
  lazymatch goal with
  | |- Keeps _ _ _ (bind _ _) =>
      apply (Keeps_bind E quiet same_headers same_headers_trans); [|intro]
  | |- Keeps _ _ _ (request _ _ _ _ _) => apply request_quiet_Keeps
  | |- Keeps _ _ _ (modify _) =>
      apply Keeps_modify; intros ? [? ?]; repeat split; assumption
  | |- Keeps _ _ _ (gets _) => apply Keeps_gets; intro; reflexivity
  | |- Keeps _ _ _ (eval _) => apply Keeps_eval; intro; reflexivity
  | |- Keeps _ _ _ (ret _) => apply Keeps_ret; intro; reflexivity
  | |- Keeps _ _ _ (raise _) => apply Keeps_raise; intro; reflexivity
  | |- Keeps _ _ _ (if ?b then _ else _) => destruct b
  | |- Keeps _ _ _ (_create_device_session _) => unfold _create_device_session
  | |- Keeps _ _ _ (_create_anonymous_session _ _ _) =>
      unfold _create_anonymous_session
  | |- Keeps _ _ _ (_get_identity_status _ _ _ _) =>
      unfold _get_identity_status
  | |- Keeps _ _ _ (_authenticate_with_password _ _ _) =>
      unfold _authenticate_with_password
  | |- Keeps _ _ _ (_create_authenticated_session _ _ _) =>
      unfold _create_authenticated_session
  end.

(** The chain of a client that holds no token never assigns to the
    module-level header dictionary: each of its requests passes headers
    of its own, or goes out while no token is held. *)
Lemma authentication_chain_same_headers :
  Moves E quiet same_headers (authentication_chain py (request py (S d))).
Proof.
  unfold authentication_chain.
  repeat
    lazymatch goal with
    | |- Moves _ _ _ (bind (modify (set_client (with_access_token _))) _) =>
        intros st w _; unfold same_headers; cbn;
        destruct (getitem _ "accessTokenExpiresAt"); cbn; [reflexivity|];
        destruct (fromisoformat _ _); reflexivity
    | |- Moves _ _ _ (bind _ _) =>
        apply (Moves_bind E quiet same_headers same_headers_trans); [|intro]
    | |- Keeps _ _ _ _ => quiet_step
    end.
Qed.

Lemma _authenticate_same_headers st (w : World E) :
  quiet st ->
  SXM_REQUEST_HEADERS
    (final (run E w (_authenticate py (request py (S d)) st))) =
  SXM_REQUEST_HEADERS st.
Proof.
  intro Hq. unfold _authenticate.
  rewrite run_bind_coro. cbn [called modify run].
  pose proof (Moves_try_except E quiet same_headers same_headers_trans
                (authentication_chain py (request py (S d))) "RequestError"
                (authentication_failed py) authentication_chain_same_headers)
    as Hm.
  apply (Hm (fun e s w' _ => Logic.eq_refl) (emit (EvCall "_authenticate") st) w).
  exact Hq.
Qed.

End Quiet.

Lemma quiet_cleared st : quiet (cleared st).
Proof. split; reflexivity. Qed.

(** X5.  When the re-authentication that an expired token starts raises, the
    request ends with that exception and the client is left without
    expiration, the shared header dictionary as it was.  So the next
    request starts no chain: it is sent at once, and when it passes no
    headers and the client holds no token it goes out with the shared
    dictionary as it is, the [Authorization] of the expired token
    included if an earlier request stored it there. *)
Theorem failed_refresh_is_not_retried :
  forall (E : Env) (py : Builtins) (d : nat) (w : World E) (st : State)
         (m : string) (u : PyVal) (kw : Kwargs) (exp : datetime) (e : Exn),
    _access_token_expiration (client st) = Some exp ->
    now_ge (clock st) exp = inr true ->
    result (run E w (_authenticate py (request py (S d)) (cleared st))) =
      inl e ->
    let first := run E w (request py (S (S d)) m u kw st) in
    result first = inl e
    /\ _access_token_expiration (client (final first)) = None
    /\ SXM_REQUEST_HEADERS (final first) = SXM_REQUEST_HEADERS st
    /\ forall (w2 : World E) (m2 : string) (u2 : PyVal) (js : option PyVal),
         let next := run E w2 (request py (S d) m2 u2
                                 {| kw_headers := None; kw_json := js |}
                                 (final first)) in
         calls "_authenticate" (trace (final next)) =
           calls "_authenticate" (trace (final first))
         /\ client (final next) = client (final first)
         /\ exists req logs,
              trace (final next) = trace (final first) ++ EvHttp req :: logs
              /\ requests logs = []
              /\ req_method req = m2 /\ req_url req = u2
              /\ (truthy (_access_token (client (final first))) = false ->
                  req_headers req = SXM_REQUEST_HEADERS st).
Proof.
  intros E py d w st m u kw exp e He Hn Hc first.
  pose proof (failed_authentication_no_expiry E py d (cleared st) e w
                (no_expiry_cleared st) Hc) as Hne.
  pose proof (_authenticate_same_headers E py d (cleared st) w
                (quiet_cleared st)) as Hh.
  assert (Hfinal : final first =
                   final (run E w (_authenticate py (request py (S d))
                                     (cleared st)))
                   /\ result first = inl e).
  { unfold first. rewrite (request_expired_run E py d m u kw st exp w He Hn).
    destruct (run E w (_authenticate py (request py (S d)) (cleared st)))
      as [[s [e' | a]] w1]; [|discriminate].
    cbn in Hc |- *. injection Hc as ->. auto. }
  destruct Hfinal as [Hfin Hres]. rewrite Hfin.
  split; [exact Hres|]. split; [exact Hne|]. split; [exact Hh|].
  intros w2 m2 u2 js next. unfold next.
  rewrite request_no_expiry by exact Hne.
  split; [apply calls_after_send|].
  destruct (send_run E py m2 u2 {| kw_headers := None; kw_json := js |}
              (final (run E w (_authenticate py (request py (S d))
                                 (cleared st)))) w2)
    as (logs & Ht & Hr & _ & Hcl & _).
  split; [exact Hcl|].
  eexists; exists logs. split; [exact Ht|]. split; [exact Hr|].
  split; [reflexivity|]. split; [reflexivity|].
  intro Hfalse. unfold outgoing, outgoing_headers.
  cbn [req_headers kw_headers]. rewrite Hfalse. exact Hh.
Qed.

(* ================================================================== *)
(** ** The shared header dictionary after [connect] *)
(* ================================================================== *)


Lemma send_shares_bearer E py m u js :
  Ensures E (bearer_shared py)
    (send py m u {| kw_headers := None; kw_json := js |}).
Proof.
  intros st w a _. rewrite send_run_exact. cbn [final fst].
  unfold bearer_shared. rewrite received_headers, received_client.
  unfold sending. cbn [kw_headers].
  destruct (truthy (_access_token (client st))) eqn:Ht; cbn.
  - intros _. apply dict_get_set_same.
  - rewrite Ht. discriminate.
Qed.

Lemma request_shares_bearer E py d m u js :
  Ensures E (bearer_shared py)
    (request py d m u {| kw_headers := None; kw_json := js |}).
Proof.
  destruct d as [|d]; cbn [request].
  - intros st w a. cbn. discriminate.
  - unfold request_frame. apply Ensures_bind. intros _.
    apply send_shares_bearer.
Qed.

Lemma connect_shares_bearer E py d : Ensures E (bearer_shared py) (connect py d).
Proof.
  unfold connect. do 2 (apply Ensures_bind; intros _).
  unfold _load_config. intros st w a. rewrite run_bind_coro.
  pose proof (request_shares_bearer E py d "GET"
                (PStr "https://www.siriusxm.com/player") None st w) as Hr.
  change {| kw_headers := None; kw_json := None |} with no_kwargs in Hr.
  destruct (run E w (request py d "GET" (PStr "https://www.siriusxm.com/player")
                       no_kwargs st)) as [[s [e | html]] w1];
    cbn [final result fst snd] in *; [discriminate|].
  specialize (Hr html Logic.eq_refl).
  destruct html as [| b | z | text | bs | xs | kvs]; cbn; try discriminate.
  destruct (hydrated_config py text); cbn; [discriminate|].
  intros _. exact Hr.
Qed.

(** X4.  When [connect] has returned with a token that counts as true,
    the module-level dictionary [SXM_REQUEST_HEADERS] carries
    [Bearer <token>] as [Authorization].  The dictionary belongs to the
    module, not to the client: another client of the same process, new
    and without token, sends that very header with every request for
    which it passes no headers. *)
Theorem connect_leaves_the_bearer_in_the_shared_headers :
  forall (E : Env) (py : Builtins) (d : nat) (w : World E) (st : State),
    let connected := run E w (connect py d st) in
    result connected = inr tt ->
    truthy (_access_token (client (final connected))) = true ->
    let token := _access_token (client (final connected)) in
    dict_get String.eqb (SXM_REQUEST_HEADERS (final connected)) "Authorization"
      = Some ("Bearer " ++ py_str py token)%string
    /\ forall (environ : string -> option string)
              (username password : option string) (w2 : World E)
              (m : string) (u : PyVal) (js : option PyVal),
         let other :=
           set_client (fun _ => SxmClient__init__ environ username password)
             (final connected) in
         exists req logs,
           trace (final (run E w2 (request py (S d) m u
                                     {| kw_headers := None; kw_json := js |}
                                     other))) =
             trace other ++ EvHttp req :: logs
           /\ req_url req = u
           /\ dict_get String.eqb (req_headers req) "Authorization" =
              Some ("Bearer " ++ py_str py token)%string.
Proof.
  intros E py d w st connected Hres Ht token.
  pose proof (connect_shares_bearer E py d st w tt Hres Ht) as Hb.
  fold connected in Hb. split; [exact Hb|].
  intros environ username password w2 m u js other.
  rewrite request_no_expiry by reflexivity.
  destruct (send_run E py m u {| kw_headers := None; kw_json := js |} other w2)
    as (logs & Htr & _).
  exists (outgoing py m u {| kw_headers := None; kw_json := js |} other), logs.
  split; [exact Htr|]. split; [reflexivity|]. exact Hb.
Qed.

(* ================================================================== *)
(** ** The expiration the chain stores *)
(* ================================================================== *)


Lemma _authenticate_stores_expiration E py req :
  Ensures E (expiration_stored py) (_authenticate py req).
Proof.
  unfold _authenticate. apply Ensures_bind; intros _.
  apply Ensures_try_except.
  - unfold authentication_chain.
    do 16 (apply Ensures_bind; intro).
    intros st w r. unfold expiration_stored. cbn.
    destruct (getitem (_authenticated_session (client st)) "accessToken")
      as [e | tok]; cbn; [discriminate|].
    destruct (getitem (_authenticated_session (client st))
                "accessTokenExpiresAt") as [e | ex] eqn:Hx; cbn;
      [discriminate|].
    destruct (fromisoformat py ex) as [e | dt] eqn:Hd; cbn; [discriminate|].
    intros _. exists ex, dt. auto.
  - intros e st w r. cbn. discriminate.
Qed.

(** X6.  When the service gives the expiration of the token without UTC
    offset, so that [datetime.fromisoformat] makes a naive datetime of
    it, the authentication returns, and from then on every request
    raises [TypeError] in its expiry check, the comparison of the aware
    present with the naive expiration: nothing is sent and nothing
    changes, so the next request fails alike. *)
Theorem a_naive_expiration_fails_every_request :
  forall (E : Env) (py : Builtins) (w : World E) (st : State)
         (req : string -> PyVal -> Kwargs -> Coro PyVal)
         (expires_at : PyVal) (t : Z),
    let chain := run E w (_authenticate py req st) in
    result chain = inr tt ->
    getitem (_authenticated_session (client (final chain)))
      "accessTokenExpiresAt" = inr expires_at ->
    fromisoformat py expires_at = inr (Naive t) ->
    forall (d : nat) (m : string) (u : PyVal) (kw : Kwargs) (now : Z),
      request py (S d) m u kw (set_clock now (final chain)) =
      Done (set_clock now (final chain))
        (inl (TypeError
                "can't compare offset-naive and offset-aware datetimes")).
Proof.
  intros E py w st req expires_at t chain Hres Hx Hn d m u kw now.
  destruct (_authenticate_stores_expiration E py req st w tt Hres)
    as (ex & dt & Hx' & Hd & He).
  fold chain in Hx', He. rewrite Hx in Hx'. injection Hx' as <-.
  rewrite Hn in Hd. injection Hd as <-.
  rewrite request_unfold.
  rewrite (refresh_incomparable _ (set_clock now (final chain)) (Naive t)
             (TypeError "can't compare offset-naive and offset-aware datetimes"));
    [reflexivity | exact He | reflexivity].
Qed.

(* ================================================================== *)
(** ** The requests of the authentication chain *)
(* ================================================================== *)


Section ChainGrants.

Variable E : Env.
Variable py : Builtins.
Variable d : nat.

Ltac pure_step H :=
  rewrite run_bind_coro in H;
  cbn [gets eval modify ret Monad_Coro run] in H.

Ltac eval_step H x Hx :=
  pure_step H;
  lazymatch type of H with
  | context [match ?r with inl _ => _ | inr _ => _ end] =>
      destruct r as [? | x] eqn:Hx; [discriminate|]
  end.

Ltac request_step H v w1 Hq :=
  rewrite run_bind_coro in H;
  lazymatch type of H with
  | context [run E ?w (request py (S d) ?m ?u ?kw ?s)] =>
      let s1 := fresh "s" in
      let H1 := fresh "H" in
      destruct (run E w (request py (S d) m u kw s)) as [[s1 [? | v]] w1] eqn:H1;
      [discriminate|];
      apply request_quiet_returns in H1; [subst s1 | exact Hq]
  end.

(** The chain of a client that holds a device session and no token,
    when it returns: four requests have gone out, each authorized by
    what the step before has obtained. *)
Lemma authentication_chain_requests st s (w w0 : World E) :
  quiet st ->
  truthy (_device_session (client st)) = true ->
  run E w (authentication_chain py (request py (S d)) st) = (s, inr tt, w0) ->
  exists r1 r2 r3 r4 grant anonymous_token authentication_grant,
    trace s = trace st ++ [EvHttp r1; EvHttp r2; EvHttp r3; EvHttp r4]
    /\ getitem (_device_session (client st)) "grant" = inr grant
    /\ getitem (_anonymous_session (client s)) "accessToken" =
       inr anonymous_token
    /\ getitem (_authentication_response (client s)) "grant" =
       inr authentication_grant
    /\ (req_method r1, req_url r1, authorization r1) =
       ("POST",
        PStr "https://api.edge-gateway.siriusxm.com/session/v1/sessions/anonymous",
        Some (bearer py grant))
    /\ (req_method r2, req_url r2, authorization r2) =
       ("GET",
        PStr ("https://api.edge-gateway.siriusxm.com/identity/v1/identities/status?handle="
              ++ str_opt (_username (client st))),
        Some (bearer py anonymous_token))
    /\ (req_method r3, req_url r3, authorization r3) =
       ("POST", PStr password_url, Some (bearer py anonymous_token))
    /\ req_json r3 =
       Some (PDict [("handle", opt_str (_username (client st)));
                    ("password", opt_str (_password (client st)))])
    /\ (req_method r4, req_url r4, authorization r4) =
       ("POST",
        PStr "https://api.edge-gateway.siriusxm.com/session/v1/sessions/authenticated",
        Some (bearer py authentication_grant)).
Proof.
  intros Hq Hd Hin. pose proof Hq as [Hn Ht].
  unfold authentication_chain in Hin.
  pure_step Hin. rewrite Hd in Hin. cbn [negb] in Hin.
  pure_step Hin. pure_step Hin.
  eval_step Hin grant Hg.
  rewrite run_bind_coro in Hin. unfold _create_anonymous_session in Hin.
  pure_step Hin. request_step Hin v1 w1 Hq.
  cbn [modify run] in Hin.
  pure_step Hin.
  eval_step Hin anonymous_token Ha.
  rewrite run_bind_coro in Hin. unfold _get_identity_status in Hin.
  pure_step Hin.
  lazymatch type of Hin with
  | context [run E ?w (request py (S d) ?m ?u ?kw ?s)] =>
      destruct (run E w (request py (S d) m u kw s))
        as [[s2 [? | identity_status]] w2] eqn:H2;
      [discriminate|];
      apply request_quiet_returns in H2; [subst s2 | exact Hq]
  end.
  eval_step Hin has_password Hp.
  rewrite run_bind_coro in Hin.
  destruct (truthy has_password); cbn [negb] in Hin;
    [|cbn in Hin; discriminate].
  cbn [run] in Hin.
  pure_step Hin.
  eval_step Hin anonymous_token' Ha'.
  rewrite run_bind_coro in Hin. unfold _authenticate_with_password in Hin.
  pure_step Hin. pure_step Hin. request_step Hin v3 w3 Hq.
  cbn [modify run] in Hin.
  pure_step Hin.
  eval_step Hin authentication_grant Hag.
  rewrite run_bind_coro in Hin. unfold _create_authenticated_session in Hin.
  pure_step Hin. request_step Hin v4 w4 Hq.
  cbn [modify run] in Hin.
  pure_step Hin.
  eval_step Hin access_token Hat.
  pure_step Hin. pure_step Hin.
  eval_step Hin expires_at Hex.
  eval_step Hin expiration Hexp.
  cbn [modify run] in Hin. injection Hin as <- _.
  cbn in Ha, Ha', Hag. rewrite Ha in Ha'. injection Ha' as <-.
  do 4 eexists. exists grant, anonymous_token, authentication_grant.
  split; [cbn; rewrite <- !app_assoc; reflexivity|].
  split; [reflexivity|]. split; [exact Ha|]. split; [exact Hag|].
  unfold authorization, plain_request; cbn [req_method req_url req_headers
                                             req_json kw_headers kw_json].
  rewrite !dict_get_set_same. repeat split.
Qed.

End ChainGrants.

(** X7.  On a client that holds a device session and neither token nor
    expiration, an [_authenticate] that returns has sent four requests:
    the anonymous session is asked for with [Bearer <grant>] of the
    device session as [Authorization], the identity status and the
    password authentication with [Bearer <accessToken>] of the anonymous
    session, and the authenticated session with [Bearer <grant>] of the
    password authentication; the password request carries the user name
    and the password. *)
Theorem authentication_passes_each_grant_on :
  forall (E : Env) (py : Builtins) (d : nat) (w : World E) (st : State),
    _access_token_expiration (client st) = None ->
    truthy (_access_token (client st)) = false ->
    truthy (_device_session (client st)) = true ->
    let chain := run E w (_authenticate py (request py (S d)) st) in
    result chain = inr tt ->
    exists r1 r2 r3 r4 grant anonymous_token authentication_grant,
      requests (trace (final chain)) = requests (trace st) ++ [r1; r2; r3; r4]
      /\ getitem (_device_session (client st)) "grant" = inr grant
      /\ getitem (_anonymous_session (client (final chain))) "accessToken" =
         inr anonymous_token
      /\ getitem (_authentication_response (client (final chain))) "grant" =
         inr authentication_grant
      /\ (req_method r1, req_url r1, authorization r1) =
         ("POST",
          PStr "https://api.edge-gateway.siriusxm.com/session/v1/sessions/anonymous",
          Some ("Bearer " ++ py_str py grant)%string)
      /\ (req_method r2, req_url r2, authorization r2) =
         ("GET",
          PStr ("https://api.edge-gateway.siriusxm.com/identity/v1/identities/status?handle="
                ++ str_opt (_username (client st))),
          Some ("Bearer " ++ py_str py anonymous_token)%string)
      /\ (req_method r3, req_url r3, authorization r3) =
         ("POST", PStr password_url, Some ("Bearer " ++ py_str py anonymous_token)%string)
      /\ req_json r3 =
         Some (PDict [("handle", opt_str (_username (client st)));
                      ("password", opt_str (_password (client st)))])
      /\ (req_method r4, req_url r4, authorization r4) =
         ("POST",
          PStr "https://api.edge-gateway.siriusxm.com/session/v1/sessions/authenticated",
          Some ("Bearer " ++ py_str py authentication_grant)%string).
Proof.
  intros E py d w st Hn Ht Hd chain Hres. unfold chain in *. clear chain.
  unfold _authenticate in *.
  rewrite run_bind_coro in Hres |- *. cbn [called modify run] in Hres |- *.
  rewrite run_try_except in Hres |- *.
  destruct (run E w (authentication_chain py (request py (S d))
                       (emit (EvCall "_authenticate") st)))
    as [[s [e | []]] w0] eqn:Hin.
  - exfalso. destruct (String.eqb (exn_class e) "RequestError");
      cbn in Hres; discriminate.
  - apply authentication_chain_requests in Hin;
      [|split; assumption | exact Hd].
    destruct Hin as (r1 & r2 & r3 & r4 & g & a & ag & Htr & H).
    exists r1, r2, r3, r4, g, a, ag. split; [|exact H].
    cbn [final fst]. rewrite Htr. cbn [trace emit].
    rewrite <- app_assoc, requests_app. reflexivity.
Qed.

(* ================================================================== *)
(** ** What the client never raises *)
(* ================================================================== *)


Section NeverRaised.

Variable E : Env.
Variable py : Builtins.
Hypothesis HE : foreign_failures E.

Lemma getitem_raises v k e :
  getitem v k = inl e -> not_AuthenticationError e.
Proof.
  destruct v as [| b | z | s | bs | xs | kvs]; cbn;
    try (intros [= <-]; discriminate).
  destruct (dict_get String.eqb kvs k); [discriminate|].
  intros [= <-]; discriminate.
Qed.

Lemma fromisoformat_raises v e :
  fromisoformat py v = inl e -> not_AuthenticationError e.
Proof.
  destruct v as [| b | z | s | bs | xs | kvs]; cbn;
    try (intros [= <-]; discriminate).
  destruct (parse_iso py s); [discriminate|].
  intros [= <-]; discriminate.
Qed.

Lemma now_ge_raises t dt e : now_ge t dt = inl e -> not_AuthenticationError e.
Proof. destruct dt; cbn; [discriminate|]. intros [= <-]; discriminate. Qed.

Lemma Throws_bind_eval {A B} P (r : Result A) (f : A -> Coro B) :
  (forall e, r = inl e -> P e) ->
  (forall a, r = inr a -> Throws E P (f a)) ->
  Throws E P (bind (eval r) f).
Proof.
  intros Hr Hf st w e. destruct r as [e' | a]; cbn.
  - intros [= <-]. now apply Hr.
  - now apply Hf.
Qed.

Lemma send_Throws m u kw : Throws E not_AuthenticationError (send py m u kw).
Proof.
  intros st w e. rewrite send_run_exact. cbn [result fst snd].
  destruct (serve E w (outgoing py m u kw st)) as [o w'] eqn:Hs. cbn [fst].
  destruct o as [r | err | err]; unfold reply.
  - destruct (String.eqb (content_type r) "application/json").
    + destruct (resp_json r); [discriminate|]. intros [= <-]; discriminate.
    + destruct (existsb (String.eqb (content_type r)) text_content_types);
        discriminate.
  - intros [= <-]; discriminate.
  - intros [= <-]. apply (HE _ _ _ _ Hs).
Qed.

Ltac throws_step req_Throws :=
  lazymatch goal with
  | |- Throws _ _ (bind (eval (getitem _ _)) _) =>
      apply Throws_bind_eval; [apply getitem_raises | intros ? _]
  | |- Throws _ _ (bind (eval (fromisoformat _ _)) _) =>
      apply Throws_bind_eval; [apply fromisoformat_raises | intros ? _]
  | |- Throws _ _ (bind (eval (now_ge _ _)) _) =>
      apply Throws_bind_eval; [apply now_ge_raises | intros ? _]
  | |- Throws _ _ (bind (eval (AuthenticationError _ _)) _) =>
      apply Throws_bind_eval;
      [ intros ? [= <-]; discriminate | intros ? [=] ]
  | |- Throws _ _ (eval (now_ge _ _)) => apply Throws_eval, now_ge_raises
  | |- Throws _ _ (bind _ _) => apply Throws_bind; [|intro]
  | |- Throws _ _ (ret _) => apply Throws_ret
  | |- Throws _ _ (gets _) => apply Throws_gets
  | |- Throws _ _ get_state => apply Throws_get_state
  | |- Throws _ _ (modify _) => apply Throws_modify
  | |- Throws _ _ (log _) => apply Throws_modify
  | |- Throws _ _ (called _) => apply Throws_modify
  | |- Throws _ _ (if ?b then _ else _) => destruct b
  | |- Throws _ _ (match ?x with _ => _ end) => destruct x
  | |- Throws _ _ (_create_device_session _) => unfold _create_device_session
  | |- Throws _ _ (_create_anonymous_session _ _ _) =>
      unfold _create_anonymous_session
  | |- Throws _ _ (_get_identity_status _ _ _ _) =>
      unfold _get_identity_status
  | |- Throws _ _ (_authenticate_with_password _ _ _) =>
      unfold _authenticate_with_password
  | |- Throws _ _ (_create_authenticated_session _ _ _) =>
      unfold _create_authenticated_session
  | |- Throws _ _ _ => apply req_Throws
  end.

Section Chain.

Variable req : string -> PyVal -> Kwargs -> Coro PyVal.
Hypothesis req_Throws :
  forall m u kw, Throws E not_AuthenticationError (req m u kw).

Lemma authentication_chain_Throws :
  Throws E not_AuthenticationError (authentication_chain py req).
Proof. unfold authentication_chain. repeat throws_step req_Throws. Qed.

(** What [_authenticate] raises is neither a [RequestError], which its
    handler catches, nor an [AuthenticationError], which the handler
    fails to construct. *)
Lemma _authenticate_Throws :
  Throws E (fun e => not_AuthenticationError e /\ exn_class e <> "RequestError")
    (_authenticate py req).
Proof.
  unfold _authenticate.
  apply Throws_bind; [apply Throws_modify | intros _].
  apply Throws_try_except.
  - eapply Throws_weaken; [apply authentication_chain_Throws|].
    cbn. auto.
  - intro e. unfold authentication_failed.
    apply Throws_bind; [apply Throws_gets | intro c].
    apply Throws_bind_eval; [|intros ? [=]].
    intros e' [= <-]. split; discriminate.
Qed.

End Chain.

Lemma request_Throws d m u kw :
  Throws E not_AuthenticationError (request py d m u kw).
Proof.
  revert m u kw. induction d as [|d IH]; intros m u kw; cbn [request].
  - apply Throws_raise. discriminate.
  - unfold request_frame, refresh_if_expired.
    repeat
      lazymatch goal with
      | |- Throws _ _ (_authenticate _ _) =>
          eapply Throws_weaken; [apply _authenticate_Throws, IH | cbn; tauto]
      | |- Throws _ _ (send _ _ _ _) => apply send_Throws
      | |- Throws _ _ _ => throws_step IH
      end.
Qed.

End NeverRaised.

(** X8.  No run of [request] or of [_authenticate] raises
    [AuthenticationError], whatever the transport answers (it raises no
    exception of the package itself): each [raise AuthenticationError]
    of [_authenticate] fails in the constructor.  And [_authenticate]
    raises no [RequestError] either: its handler catches those of its
    requests and raises the constructor's [TypeError] in their place. *)
Theorem AuthenticationError_is_never_raised :
  forall (E : Env) (py : Builtins) (d : nat) (w : World E) (st : State)
         (e : Exn),
    (forall (w w' : World E) req e',
        serve E w req = (OtherFailure e', w') ->
        exn_class e' <> "AuthenticationError"
        /\ exn_class e' <> "RequestError") ->
    (forall m u kw,
        result (run E w (request py d m u kw st)) = inl e ->
        exn_class e <> "AuthenticationError")
    /\ (result (run E w (_authenticate py (request py d) st)) = inl e ->
        exn_class e <> "AuthenticationError"
        /\ exn_class e <> "RequestError").
Proof.
  intros E py d w st e HE. split.
  - intros m u kw. apply (request_Throws E py HE d m u kw st w e).
  - apply (_authenticate_Throws E py (request py d)
             (request_Throws E py HE d) st w e).
Qed.


(* ================================================================== *)
(** ** The aiohttp session of the client *)
(* ================================================================== *)

(** X9.  A session that the caller has given to the client, and keeps open,
    stays the session of the client through any sequence of requests and
    disconnections: the client uses it for every request, creates no
    session of its own, and [disconnect] does not close it. *)
Theorem the_callers_session_is_never_closed :
  forall (ops : list SessionOp) (s : nat) (h : Http),
    _http_client_session h = Some s ->
    _http_client_session_internal h = false ->
    closed h s = false ->
    (forall op, In op ops -> op <> OpClose s) ->
    let h' := session_run ops h in
    _http_client_session h' = Some s
    /\ _http_client_session_internal h' = false
    /\ closed h' s = false
    /\ created h' = created h
    /\ fst (_get_http_client_session h') = s.
Proof.
  intros ops s. induction ops as [|op ops IH]; intros h Hs Hi Hc Hops h'.
  - cbn in h'. unfold h'. repeat split; auto.
    unfold _get_http_client_session. now rewrite Hs, Hc.
  - unfold h'. cbn [session_run fold_left].
    change (fold_left session_step ops (session_step h op))
      with (session_run ops (session_step h op)).
    assert (Hstep : _http_client_session (session_step h op) = Some s
                    /\ _http_client_session_internal (session_step h op) = false
                    /\ closed (session_step h op) s = false
                    /\ created (session_step h op) = created h).
    { destruct op as [| | s']; cbn [session_step].
      - unfold _get_http_client_session. rewrite Hs, Hc. cbn. auto.
      - unfold disconnect. rewrite Hi. auto.
      - cbn. repeat split; auto.
        destruct (Nat.eqb s s') eqn:He; [|exact Hc].
        apply Nat.eqb_eq in He; subst s'.
        exfalso. apply (Hops (OpClose s)); [now left | reflexivity]. }
    destruct Hstep as (H1 & H2 & H3 & H4).
    destruct (IH (session_step h op) H1 H2 H3) as (K1 & K2 & K3 & K4 & K5).
    { intros op' Hin. apply Hops. now right. }
    repeat split; auto. congruence.
Qed.

Lemma tidy_step first h op : tidy first h -> tidy first (session_step h op).
Proof.
  intro Ht. pose proof Ht as [Hle Hinv].
  destruct op as [| | s']; cbn [session_step].
  - unfold _get_http_client_session.
    destruct (_http_client_session h) as [s|] eqn:Hs;
      [destruct (closed h s) eqn:Hc|]; cbn; [|exact Ht|].
    + split; cbn; [lia|]. intros a Ha.
      destruct (Nat.eqb a (created h)) eqn:He.
      * apply Nat.eqb_eq in He. subst a. auto.
      * intro Hca. apply Nat.eqb_neq in He.
        destruct (Hinv a) as [Hsa _]; [lia | exact Hca |].
        injection Hsa as ->. congruence.
    + split; cbn; [lia|]. intros a Ha.
      destruct (Nat.eqb a (created h)) eqn:He.
      * apply Nat.eqb_eq in He. subst a. auto.
      * intro Hca. apply Nat.eqb_neq in He.
        destruct (Hinv a) as [Hsa _]; [lia | exact Hca |].
        discriminate.
  - unfold disconnect.
    destruct (_http_client_session_internal h) eqn:Hi; [|exact Ht].
    destruct (_http_client_session h) as [s|] eqn:Hs; [|exact Ht].
    split; cbn; [exact Hle|]. intros a Ha.
    destruct (Nat.eqb a s) eqn:He; [discriminate|].
    intro Hca. apply Nat.eqb_neq in He.
    destruct (Hinv a Ha Hca) as [Hsa _]. congruence.
  - split; cbn; [exact Hle|]. intros a Ha.
    destruct (Nat.eqb a s'); [discriminate|]. apply Hinv, Ha.
Qed.

Lemma tidy_run first ops h : tidy first h -> tidy first (session_run ops h).
Proof.
  revert h. induction ops as [|op ops IH]; intros h H; [exact H|].
  cbn [session_run fold_left]. apply IH, tidy_step, H.
Qed.

(** X10.  The client leaks no session.  Through any sequence of requests,
    disconnections and closings by others, of the sessions the client has
    created at most one is open, the one it holds and marks as its own;
    after [disconnect] all of them are closed, and it holds none.  The
    session a request gets is open. *)
Theorem the_client_leaks_no_session :
  forall (ops : list SessionOp) (session : option nat) (closed0 : nat -> bool)
         (created0 : nat),
    let h := session_run ops (session__init__ session closed0 created0) in
    (forall a, created0 <= a < created h -> closed h a = false ->
               _http_client_session h = Some a
               /\ _http_client_session_internal h = true)
    /\ (forall a, created0 <= a < created (disconnect h) ->
                  closed (disconnect h) a = true)
    /\ (_http_client_session_internal h = true ->
        _http_client_session (disconnect h) = None)
    /\ closed (snd (_get_http_client_session h))
         (fst (_get_http_client_session h)) = false.
Proof.
  intros ops session closed0 created0 h.
  assert (Ht : tidy created0 h).
  { apply tidy_run. split; [cbn; lia|]. cbn. intros a Ha. lia. }
  split; [apply Ht|]. split; [|split].
  - intros a Ha.
    pose proof (tidy_step created0 h OpDisconnect Ht) as [_ Hd].
    cbn [session_step] in Hd.
    destruct (closed (disconnect h) a) eqn:Hc; [reflexivity|].
    destruct (Hd a Ha Hc) as [Hs Hi]. exfalso. revert Hs Hi. unfold disconnect.
    destruct (_http_client_session_internal h) eqn:Hi';
      [destruct (_http_client_session h) eqn:Hs'|]; cbn; congruence.
  - intro Hi. unfold disconnect. rewrite Hi.
    destruct (_http_client_session h) eqn:Hs; [reflexivity | exact Hs].
  - unfold _get_http_client_session.
    destruct (_http_client_session h) as [s|];
      [destruct (closed h s) eqn:Hc|]; cbn; auto; now rewrite Nat.eqb_refl.
Qed.

(* ================================================================== *)
(** ** The listing methods *)
(* ================================================================== *)

Lemma comprehension_returns {A B} (f : A -> Result B) xs ys :
  comprehension f xs = inr ys <-> Forall2 (fun x y => f x = inr y) xs ys.
Proof.
  revert ys; induction xs as [|x xs IH]; intro ys; cbn.
  - split.
    + intros [= <-]. constructor.
    + intro H. inversion H. reflexivity.
  - split.
    + destruct (f x) as [e | y] eqn:Hx; cbn; [discriminate|].
      destruct (comprehension f xs) as [e | ys'] eqn:Hc; cbn; [discriminate|].
      intros [= <-]. constructor; [exact Hx | now apply IH].
    + intro H. inversion H as [|x' y xs' ys' Hx Hr]; subst.
      rewrite Hx. cbn. apply IH in Hr. rewrite Hr. reflexivity.
Qed.

Lemma comprehension_raises {A B} (f : A -> Result B) before x after e :
  Forall (fun b => exists y, f b = inr y) before ->
  f x = inl e ->
  comprehension f (before ++ x :: after) = inl e.
Proof.
  intros Hb Hx. induction Hb as [|b before [y Hy] _ IH]; cbn.
  - now rewrite Hx.
  - now rewrite Hy, IH.
Qed.

Lemma get_channels_run E py d st (w : World E) :
  run E w (get_channels py d st) =
  match run E w (request py d "GET" (PStr channels_url) json_true st) with
  | (st', inr resp, w') =>
      (st',
       and_then (container_items resp) (fun items =>
       and_then (comprehension channel_summary items) (fun ys =>
       inr (PList ys))),
       w')
  | (st', inl e, w') => (st', inl e, w')
  end.
Proof.
  unfold get_channels. rewrite run_bind_coro.
  destruct (run E w (request py d "GET" (PStr channels_url) json_true st))
    as [[st' [e | resp]] w']; [reflexivity|].
  cbn. destruct (container_items resp) as [e | items]; cbn; [reflexivity|].
  destruct (comprehension channel_summary items); reflexivity.
Qed.

(** X12.  [get_channels] returns one summary for each item of the first set
    of the container, in the order of the items; an item that is not
    well formed ends the call with the error of its subscript, and no
    list is returned.  Nothing of the client changes after the request
    has returned. *)
Theorem get_channels_one_summary_per_item :
  forall (E : Env) (py : Builtins) (d : nat) (w : World E) (st : State),
    let sent := run E w (request py d "GET" (PStr channels_url) json_true st) in
    let whole := run E w (get_channels py d st) in
    final whole = final sent
    /\ (forall v, result whole = inr v ->
          exists resp items ys,
            result sent = inr resp /\ container_items resp = inr items
            /\ v = PList ys
            /\ Forall2 (fun c y => channel_summary c = inr y) items ys)
    /\ (forall resp before c after e,
          result sent = inr resp ->
          container_items resp = inr (before ++ c :: after) ->
          Forall (fun b => exists y, channel_summary b = inr y) before ->
          channel_summary c = inl e ->
          result whole = inl e).
Proof.
  intros E py d w st sent whole. unfold whole. rewrite get_channels_run.
  fold sent. destruct sent as [[st' [e | resp]] w']; cbn [final result fst snd].
  - split; [reflexivity|]. split; [discriminate|]. discriminate.
  - split; [reflexivity|]. split.
    + intros v Hv. exists resp.
      destruct (container_items resp) as [e | items]; cbn in Hv; [discriminate|].
      destruct (comprehension channel_summary items) as [e | ys] eqn:Hc;
        cbn in Hv; [discriminate|].
      injection Hv as <-. exists items, ys. repeat split.
      now apply comprehension_returns.
    + intros resp' before c after e [= <-] Hi Hb Hc. rewrite Hi. cbn.
      now rewrite (comprehension_raises _ _ _ _ _ Hb Hc).
Qed.

Lemma dict_items_spec seen kvs k x :
  In (k, x) (dict_items seen kvs) <->
  existsb (String.eqb k) seen = false /\ dict_get String.eqb kvs k = Some x.
Proof.
  revert seen. induction kvs as [|[k0 v0] kvs IH]; intro seen; cbn.
  - split; [intros [] | intros [_ [=]]].
  - destruct (existsb (String.eqb k0) seen) eqn:Hk0.
    + rewrite IH. destruct (String.eqb k k0) eqn:Hk; [|reflexivity].
      apply String.eqb_eq in Hk; subst k0. rewrite Hk0.
      split; intros [[=] _].
    + cbn. rewrite IH. cbn. destruct (String.eqb k k0) eqn:Hk.
      * apply String.eqb_eq in Hk; subst k0. rewrite Hk0. cbn. split.
        -- intros [[= <-] | [[=] _]]. auto.
        -- intros [_ [= <-]]. now left.
      * cbn. split.
        -- intros [[= -> _] | H]; [|exact H].
           rewrite String.eqb_refl in Hk. discriminate.
        -- intro H. now right.
Qed.

Lemma dict_items_fresh seen kvs k :
  In k (map fst (dict_items seen kvs)) -> existsb (String.eqb k) seen = false.
Proof.
  rewrite in_map_iff. intros [[k' x] [<- H]]. now apply dict_items_spec in H.
Qed.

Lemma dict_items_NoDup seen kvs : NoDup (map fst (dict_items seen kvs)).
Proof.
  revert seen. induction kvs as [|[k0 v0] kvs IH]; intro seen; cbn.
  - constructor.
  - destruct (existsb (String.eqb k0) seen); [apply IH|].
    cbn. constructor; [|apply IH].
    intro H. apply dict_items_fresh in H. cbn in H.
    now rewrite String.eqb_refl in H.
Qed.

Lemma get_library_run E py d st (w : World E) :
  run E w (get_library py d st) =
  match run E w (request py d "GET" (PStr library_url) json_true st) with
  | (st', inr resp, w') =>
      (st',
       and_then (getitem resp "allDataMap") (fun all_data =>
       and_then (py_values all_data) (fun values => inr (PList values))),
       w')
  | (st', inl e, w') => (st', inl e, w')
  end.
Proof.
  unfold get_library. rewrite run_bind_coro.
  destruct (run E w (request py d "GET" (PStr library_url) json_true st))
    as [[st' [e | resp]] w']; [reflexivity|].
  cbn. destruct (getitem resp "allDataMap") as [e | a]; cbn; [reflexivity|].
  destruct (py_values a); reflexivity.
Qed.

(** X11.  What [get_library] returns is the list of the values of the
    dictionary under [allDataMap] of the response: one value for each of
    its keys, the one the key looks up. *)
Theorem get_library_lists_each_value_once :
  forall (E : Env) (py : Builtins) (d : nat) (w : World E) (st : State)
         (v : PyVal),
    result (run E w (get_library py d st)) = inr v ->
    exists resp all_data entries,
      result (run E w (request py d "GET" (PStr library_url) json_true st)) =
        inr resp
      /\ getitem resp "allDataMap" = inr (PDict all_data)
      /\ v = PList (map snd entries)
      /\ NoDup (map fst entries)
      /\ forall k x, In (k, x) entries <->
                     dict_get String.eqb all_data k = Some x.
Proof.
  intros E py d w st v. rewrite get_library_run.
  destruct (run E w (request py d "GET" (PStr library_url) json_true st))
    as [[st' [e | resp]] w']; cbn [result fst snd]; [discriminate|].
  destruct (getitem resp "allDataMap") as [e | all_data] eqn:Ha; cbn;
    [discriminate|].
  destruct all_data as [| b | z | s | bs | xs | kvs]; cbn; try discriminate.
  intros [= <-]. exists resp, kvs, (dict_items [] kvs).
  split; [reflexivity|]. split; [exact Ha|]. split; [reflexivity|].
  split; [apply dict_items_NoDup|].
  intros k x. rewrite dict_items_spec. cbn. tauto.
Qed.

Lemma channel_summary_entries c y :
  channel_summary c = inr y ->
  exists channelNumber unentitled type id title title_short description images,
    y = PDict [("channelNumber", channelNumber);
               ("unentitled", unentitled);
               ("type", type);
               ("id", id);
               ("title", title);
               ("title_short", title_short);
               ("description", description);
               ("images", images)]
    /\ path c ["decorations"; "channelNumber"] = inr channelNumber
    /\ path c ["decorations"; "unentitled"] = inr unentitled
    /\ path c ["entity"; "type"] = inr type
    /\ path c ["entity"; "id"] = inr id
    /\ path c ["entity"; "texts"; "title"; "default"] = inr title
    /\ and_then (path c ["entity"; "texts"; "title"])
         (fun t => py_get t "short") = inr title_short
    /\ path c ["entity"; "texts"; "description"; "default"] = inr description
    /\ path c ["entity"; "images"] = inr images.
Proof.
  unfold channel_summary.
  repeat
    lazymatch goal with
    | |- and_then ?r _ = _ -> _ =>
        destruct r as [? | ?]; cbn [and_then]; [discriminate|]
    end.
  intros [= <-]. do 8 eexists. repeat split.
Qed.

(** X13.  The summary [get_channels] makes of an item has eight entries.
    The short title is optional: an item whose title has no [short] gets
    [None] for [title_short].  Every other field is required: an item
    without one of them, as without [description.default], has no
    summary. *)
Theorem channel_summary_needs_all_but_the_short_title :
  forall (c : PyVal),
    (forall y, channel_summary c = inr y ->
       exists entries title,
         y = PDict entries
         /\ map fst entries =
            ["channelNumber"; "unentitled"; "type"; "id"; "title";
             "title_short"; "description"; "images"]
         /\ path c ["entity"; "texts"; "title"] = inr (PDict title)
         /\ getitem y "title" = getitem (PDict title) "default"
         /\ getitem y "title_short" =
            inr (match dict_get String.eqb title "short" with
                 | Some short => short
                 | None => PNone
                 end)
         /\ getitem y "id" = path c ["entity"; "id"]
         /\ getitem y "description" =
            path c ["entity"; "texts"; "description"; "default"])
    /\ (forall keys e,
          In keys [["decorations"; "channelNumber"];
                   ["decorations"; "unentitled"];
                   ["entity"; "type"]; ["entity"; "id"];
                   ["entity"; "texts"; "title"; "default"];
                   ["entity"; "texts"; "description"; "default"];
                   ["entity"; "images"]] ->
          path c keys = inl e ->
          exists e', channel_summary c = inl e').
Proof.
  intro c. split.
  - intros y Hy.
    destruct (channel_summary_entries c y Hy)
      as (n & u & t & i & ti & ts & de & im & -> & Hn & Hu & Ht & Hi & Hti
          & Hts & Hde & Him).
    cbn [path] in Hi, Hde, Hti, Hts |- *.
    destruct (getitem c "entity") as [e | entity]; cbn [and_then] in *;
      [discriminate|].
    destruct (getitem entity "texts") as [e | texts]; cbn [and_then] in *;
      [discriminate|].
    destruct (getitem texts "title") as [e | title]; cbn [and_then] in *;
      [discriminate|].
    destruct title as [| b | z | s | bs | xs | title]; try discriminate.
    eexists; exists title. split; [reflexivity|]. split; [reflexivity|].
    split; [reflexivity|]. cbn in Hts. injection Hts as <-.
    destruct (getitem (PDict title) "default") as [e | x];
      cbn [and_then] in Hti; [discriminate|]. injection Hti as ->.
    split; [reflexivity|]. split; [reflexivity|].
    rewrite Hi, Hde. split; reflexivity.
  - intros keys e Hin Hp.
    destruct (channel_summary c) as [e' | y] eqn:Hy; [now exists e'|].
    exfalso.
    destruct (channel_summary_entries c y Hy)
      as (n & u & t & i & ti & ts & de & im & _ & Hn & Hu & Ht & Hi & Hti
          & _ & Hde & Him).
    cbn [In] in Hin.
    repeat (destruct Hin as [<- | Hin]; [congruence|]). exact Hin.
Qed.


Lemma get_podcast_episodes_run E py d id st (w : World E) :
  run E w (get_podcast_episodes py d id st) =
  match run E w (request py d "GET" (PStr (podcast_url id)) json_true st) with
  | (st', inr resp, w') =>
      (st',
       and_then (container_items resp) (fun items =>
       and_then (comprehension (fun r => getitem r "entity") items) (fun ys =>
       inr (PList ys))),
       w')
  | (st', inl e, w') => (st', inl e, w')
  end.
Proof.
  unfold get_podcast_episodes. rewrite run_bind_coro.
  destruct (run E w (request py d "GET" (PStr (podcast_url id)) json_true st))
    as [[st' [e | resp]] w']; [reflexivity|].
  cbn. destruct (container_items resp) as [e | items]; cbn; [reflexivity|].
  destruct (comprehension (fun r => getitem r "entity") items); reflexivity.
Qed.

(** A subscript with a string on a text or on bytes raises
    [TypeError]. *)
Lemma getitem_of_a_body v k :
  (exists s, v = PStr s) \/ (exists b, v = PBytes b) ->
  exists msg, getitem v k = inl (TypeError msg).
Proof. intros [[s ->] | [b ->]]; eexists; reflexivity. Qed.

Lemma reply_not_json py u r :
  content_type r <> "application/json" ->
  exists v, reply py u (Responded r) = inr v
            /\ ((exists s, v = PStr s) \/ (exists b, v = PBytes b)).
Proof.
  intro H. apply String.eqb_neq in H. unfold reply. rewrite H.
  destruct (existsb (String.eqb (content_type r)) text_content_types);
    eexists; split; eauto.
Qed.

(** X15.  The listing methods need a JSON answer: when the service answers
    with a body of another content type (a page of HTML, as for an
    error), the request returns its text or its bytes, and the method
    raises [TypeError] on its first subscript. *)
Theorem listing_raises_TypeError_without_json :
  forall (E : Env) (py : Builtins) (d : nat) (w : World E) (st : State),
    (forall exp, _access_token_expiration (client st) = Some exp ->
                 now_ge (clock st) exp = inr false) ->
    (forall req, exists r w',
        serve E w req = (Responded r, w')
        /\ content_type r <> "application/json") ->
    (exists msg, result (run E w (get_library py (S d) st)) =
                 inl (TypeError msg))
    /\ (exists msg, result (run E w (get_channels py (S d) st)) =
                    inl (TypeError msg))
    /\ (forall id, exists msg,
          result (run E w (get_podcast_episodes py (S d) id st)) =
          inl (TypeError msg)).
Proof.
  intros E py d w st Hn Hs.
  assert (Hreq : forall m u kw,
             exists s' v w',
               run E w (request py (S d) m u kw st) = (s', inr v, w')
               /\ ((exists s, v = PStr s) \/ (exists b, v = PBytes b))).
  { intros m u kw. rewrite request_run_exact by exact Hn.
    destruct (Hs (outgoing py m u kw st)) as (r & w' & -> & Hc).
    cbn [fst snd].
    destruct (reply_not_json py u r Hc) as (v & -> & Hv).
    do 3 eexists. split; [reflexivity | exact Hv]. }
  split; [|split].
  - rewrite get_library_run.
    destruct (Hreq "GET" (PStr library_url) json_true)
      as (s' & v & w' & -> & Hv).
    destruct (getitem_of_a_body v "allDataMap" Hv) as [msg Hm].
    exists msg. cbn. now rewrite Hm.
  - rewrite get_channels_run.
    destruct (Hreq "GET" (PStr channels_url) json_true)
      as (s' & v & w' & -> & Hv).
    destruct (getitem_of_a_body v "container" Hv) as [msg Hm].
    exists msg. cbn. unfold container_items. now rewrite Hm.
  - intro id. rewrite get_podcast_episodes_run.
    destruct (Hreq "GET" (PStr (podcast_url id)) json_true)
      as (s' & v & w' & -> & Hv).
    destruct (getitem_of_a_body v "container" Hv) as [msg Hm].
    exists msg. cbn. unfold container_items. now rewrite Hm.
Qed.

(** X14.  [get_podcast_episodes] asks for the container of the podcast, the
    id placed in the query as it is given, and returns the [entity] of
    each item of its first set, in the order of the items; an item
    without [entity] ends the call with its [KeyError]. *)
Theorem get_podcast_episodes_lists_the_entities :
  forall (E : Env) (py : Builtins) (d : nat) (w : World E) (st : State)
         (id : string),
    let url := ("https://api.edge-gateway.siriusxm.com/relationship/v1/container/aod?&entityType=show-podcast&entityId="
                ++ id ++ "&offset=0&size=1000&maxResponses=1000")%string in
    let sent := run E w (request py d "GET" (PStr url) json_true st) in
    let whole := run E w (get_podcast_episodes py d id st) in
    final whole = final sent
    /\ (forall v, result whole = inr v ->
          exists resp items entities,
            result sent = inr resp /\ container_items resp = inr items
            /\ v = PList entities
            /\ Forall2 (fun r e => getitem r "entity" = inr e) items entities)
    /\ (forall resp before r after,
          result sent = inr resp ->
          container_items resp = inr (before ++ PDict r :: after) ->
          Forall (fun b => exists e, getitem b "entity" = inr e) before ->
          dict_get String.eqb r "entity" = None ->
          result whole = inl (KeyError "entity")).
Proof.
  intros E py d w st id url sent whole. unfold whole.
  rewrite get_podcast_episodes_run.
  change (podcast_url id) with url. fold sent.
  destruct sent as [[st' [e | resp]] w']; cbn [final result fst snd].
  - split; [reflexivity|]. split; [discriminate|]. discriminate.
  - split; [reflexivity|]. split.
    + intros v Hv. exists resp.
      destruct (container_items resp) as [e | items]; cbn in Hv; [discriminate|].
      destruct (comprehension (fun r => getitem r "entity") items)
        as [e | ys] eqn:Hc; cbn in Hv; [discriminate|].
      injection Hv as <-. exists items, ys. repeat split.
      now apply comprehension_returns.
    + intros resp' before r after [= <-] Hi Hb Hr. rewrite Hi. cbn.
      rewrite (comprehension_raises _ before (PDict r) after (KeyError "entity"));
        [reflexivity | exact Hb |].
      cbn. now rewrite Hr.
Qed.

(* ================================================================== *)
(** ** The runs of [get_stream] and of [initialize] *)
(* ================================================================== *)


Section StreamRuns.

Variable E : Env.
Variable py : Builtins.
Variable depth : nat.

Lemma handle_of_looked_up t i st :
  dict_get key_eqb (_streams (client (looked_up t i st))) (t, i) =
  Some (handle_of t i st).
Proof.
  unfold looked_up, handle_of.
  destruct (dict_get key_eqb (_streams (client st)) (t, i)) eqn:H; cbn.
  - exact H.
  - apply dict_get_set_same_key.
Qed.

(** The run of [get_stream], in full: the lookup, then [initialize] on
    a handle that is not initialized. *)
Lemma get_stream_run t i st (w : World E) :
  run E w (get_stream py depth t i st) =
  if initialized (objects (looked_up t i st) (handle_of t i st)) then
    (looked_up t i st, inr (handle_of t i st), w)
  else
    match run E w (initialize py depth (handle_of t i st) (looked_up t i st))
    with
    | (st', inr _, w') => (st', inr (handle_of t i st), w')
    | (st', inl e, w') => (st', inl e, w')
    end.
Proof.
  unfold get_stream, looked_up, handle_of.
  cbn [bind Monad_Coro called modify susp_bind gets client emit].
  destruct (dict_get key_eqb (_streams (client st)) (t, i)) as [addr|] eqn:Hr.
  - cbn [susp_bind ret Monad_Coro gets client emit]. rewrite Hr.
    cbn [susp_bind ret Monad_Coro deref gets].
    destruct (initialized (objects (emit (EvCall "get_stream") st) addr));
      cbn [negb]; [reflexivity|].
    rewrite run_bind.
    destruct (run E w (initialize py depth addr (emit (EvCall "get_stream") st)))
      as [[st' [e | []]] w']; reflexivity.
  - cbn [new_object susp_bind bind Monad_Coro modify gets client
           set_client set_allocated set_objects emit with_streams _streams
           allocated objects].
    rewrite dict_get_set_same_key.
    cbn [susp_bind ret Monad_Coro deref gets objects set_client
           set_allocated set_objects emit].
    rewrite store_same. cbn [initialized SxmStream__init__ negb].
    rewrite run_bind.
    match goal with
    | |- context [run E w (initialize py depth ?a ?s)] =>
        destruct (run E w (initialize py depth a s)) as [[st' [e | []]] w']
    end; reflexivity.
Qed.

End StreamRuns.

(** *** Invariants of [initialize] *)

Section StreamRules.

Variable E : Env.
Variable py : Builtins.
Variable depth : nat.
Variable self : nat.
Variable I : State -> Prop.
Variable R : State -> State -> Prop.
Hypothesis HI : Indifferent I R.
Hypothesis tune_ok :
  forall v, Respects I R (assigned self (with_tune_source v)).
Hypothesis bitrate_ok :
  forall b u, Respects I R (assigned self (with_bitrate b u)).

Let HS := indifferent_stable I R HI.
Let R_trans := stable_trans I R HS.

Ltac stream_step :=
  lazymatch goal with
  | |- Keeps _ _ _ (bind _ _) => apply (Keeps_bind E I R R_trans); [|intro]
  | |- Keeps _ _ _ (request _ _ _ _ _) => apply (request_Keeps E py I R HI)
  | |- Keeps _ _ _ (assign _ (with_tune_source _)) =>
      apply Keeps_modify, tune_ok
  | |- Keeps _ _ _ (assign _ (with_bitrate _ _)) =>
      apply Keeps_modify, bitrate_ok
  | |- Keeps _ _ _ (for_each _ _) =>
      apply (Keeps_for_each E I R (stable_refl I R HS) R_trans); intro
  | |- Keeps _ _ _ (probe_bitrate _ _ _) => unfold probe_bitrate
  | |- Keeps _ _ _ _ => keep_step HS
  end.

Lemma probe_bitrate_Keeps sb b : Keeps E I R (probe_bitrate self sb b).
Proof. repeat stream_step. Qed.

(** A run of [initialize] that raises has kept [I]. *)
Lemma initialize_Raising :
  (forall st, I st -> I (emit (EvCall "initialize") st)) ->
  Raising E I I (initialize py depth self).
Proof.
  intros Hcall st w e Hst. unfold initialize.
  rewrite run_bind_coro. cbn [called modify run].
  revert e.
  match goal with
  | |- forall e, result (run E w (?c ?s)) = inl e -> _ =>
      change (forall e, result (run E w (c s)) = inl e ->
                        I (final (run E w (c s))));
      assert (Hr : Raising E I I c)
  end.
  { repeat
      lazymatch goal with
      | |- Raising _ _ _ (bind _ (fun _ => assign _ (with_initialized _))) =>
          apply (Raising_bind E I I R); [| intros _ | auto]
      | |- Raising _ _ _ (bind _ _) =>
          apply (Raising_bind E I I R); [| intro | auto]
      | |- Raising _ _ _ (assign _ (with_initialized _)) =>
          apply Raising_returns; intros; cbn; discriminate
      | |- Keeps _ _ _ _ => stream_step
      end. }
  intros e He. apply (Hr _ w e (Hcall st Hst) He).
Qed.

(** A run of [initialize] keeps [I] and stays within [R] from the
    record of the call on. *)
Lemma initialize_Keeps :
  (forall st, I st -> I (emit (EvCall "initialize") st)) ->
  Respects I R (assigned self (with_initialized true)) ->
  forall st w, I st ->
    R (emit (EvCall "initialize") st)
      (final (run E w (initialize py depth self st)))
    /\ I (final (run E w (initialize py depth self st))).
Proof.
  intros Hcall Hinit st w Hst. unfold initialize.
  rewrite run_bind_coro. cbn [called modify run].
  match goal with
  | |- R _ (final (run E w (?c ?s))) /\ _ =>
      change (R s (final (run E w (c s))) /\ I (final (run E w (c s))));
      assert (Hk : Keeps E I R c)
  end.
  { repeat
      lazymatch goal with
      | |- Keeps _ _ _ (assign _ (with_initialized _)) =>
          apply Keeps_modify, Hinit
      | |- Keeps _ _ _ _ => stream_step
      end. }
  apply Hk, Hcall, Hst.
Qed.

End StreamRules.

(* ================================================================== *)
(** ** The handles of the client *)
(* ================================================================== *)


Lemma AllReturns_run {A} E (Q : State -> A -> Prop) (m : Susp A) :
  AllReturns Q m ->
  forall (w : World E) st a w', run E w m = (st, inr a, w') -> Q st a.
Proof.
  induction m as [s [e | a0] | s req k IH]; cbn; intros H w st a w'.
  - discriminate.
  - now intros [= <- <- <-].
  - destruct (serve E w req) as [o w1]. apply IH, H.
Qed.

Ltac indifferent :=
  split; [split|..];
  try (intros; unfold Respects; intros; cbn; auto; fail).

Lemma Indifferent_registry : Indifferent (fun _ => True) same_registry.
Proof.
  unfold same_registry. indifferent.
  intros a b c [H1 H2] [H3 H4]. split; congruence.
Qed.

Lemma Indifferent_initializations :
  Indifferent (fun _ => True) same_initializations.
Proof.
  unfold same_initializations.
  split; [split|..]; try (intros; congruence);
    intros; intros st _; cbn -[calls]; rewrite ?calls_app; cbn; split; auto; lia.
Qed.

Lemma Indifferent_pending t i addr :
  Indifferent (pending t i addr) (fun _ _ => True).
Proof. unfold pending. indifferent. Qed.

Lemma Indifferent_elsewhere addr key :
  Indifferent (fun _ => True) (same_elsewhere addr key).
Proof.
  unfold same_elsewhere. indifferent.
  intros a b c [H1 H2] [H3 H4]. split; congruence.
Qed.

Lemma assigned_registry self f :
  Respects (fun _ => True) same_registry (assigned self f).
Proof. intros st _. unfold same_registry. cbn. auto. Qed.

Lemma assigned_initializations self f :
  Respects (fun _ => True) same_initializations (assigned self f).
Proof. intros st _. unfold same_initializations. cbn. auto. Qed.

(** A call of [get_stream] that returns leaves the handle it returns
    registered for the pair, and initialized. *)
Lemma get_stream_returns_registered E py d t i st st1 addr (w w1 : World E) :
  run E w (get_stream py d t i st) = (st1, inr addr, w1) ->
  dict_get key_eqb (_streams (client st1)) (t, i) = Some addr
  /\ initialized (objects st1 addr) = true.
Proof.
  intro H. split.
  - rewrite get_stream_run in H.
    destruct (initialized (objects (looked_up t i st) (handle_of t i st))).
    + injection H as <- <- _. apply handle_of_looked_up.
    + pose proof (initialize_Keeps E py d (handle_of t i st) (fun _ => True)
                    same_registry Indifferent_registry
                    (fun v => assigned_registry _ _)
                    (fun b u => assigned_registry _ _)
                    (fun _ _ => Logic.I) (assigned_registry _ _)
                    (looked_up t i st) w Logic.I) as [[Hk _] _].
      destruct (run E w (initialize py d (handle_of t i st) (looked_up t i st)))
        as [[s [e | []]] w']; [discriminate|].
      injection H as <- <- _. cbn in Hk. rewrite Hk.
      apply handle_of_looked_up.
  - apply (AllReturns_run E _ _ (get_stream_returns_initialized py d t i st)
             w st1 addr w1 H).
Qed.

(** In a state in which the pair has an initialized handle,
    [get_stream] returns it at once. *)
Lemma get_stream_cached py d t i st addr :
  dict_get key_eqb (_streams (client st)) (t, i) = Some addr ->
  initialized (objects st addr) = true ->
  get_stream py d t i st = Done (emit (EvCall "get_stream") st) (inr addr).
Proof.
  intros Hr Hi. unfold get_stream.
  cbn [bind Monad_Coro called modify susp_bind gets client emit].
  rewrite Hr. cbn [susp_bind ret Monad_Coro gets client emit]. rewrite Hr.
  cbn [susp_bind ret Monad_Coro deref gets objects emit].
  rewrite Hi. reflexivity.
Qed.

(** X16.  After a call of [get_stream] has returned a handle, a second call
    for the same pair returns the same handle without suspending: it
    sends no request and does not run [initialize] again. *)
Theorem get_stream_again_returns_at_once :
  forall (E : Env) (py : Builtins) (d : nat) (w w1 : World E)
         (st st1 : State) (t i : string) (addr : nat),
    run E w (get_stream py d t i st) = (st1, inr addr, w1) ->
    get_stream py d t i st1 = Done (emit (EvCall "get_stream") st1) (inr addr).
Proof.
  intros E py d w w1 st st1 t i addr H.
  destruct (get_stream_returns_registered E py d t i st st1 addr w w1 H)
    as [Hr Hi].
  now apply get_stream_cached.
Qed.

Section HandleFacts.

Variable E : Env.
Variable py : Builtins.
Variable d : nat.

(** A run of [initialize] is one call of it, and neither registers nor
    creates a handle. *)
Lemma initialize_counts self st (w : World E) :
  calls "initialize" (trace (final (run E w (initialize py d self st)))) =
  S (calls "initialize" (trace st)).
Proof.
  pose proof (initialize_Keeps E py d self (fun _ => True)
                same_initializations Indifferent_initializations
                (fun v => assigned_initializations _ _)
                (fun b u => assigned_initializations _ _)
                (fun _ _ => Logic.I) (assigned_initializations _ _)
                st w Logic.I) as [Hk _].
  unfold same_initializations in Hk. rewrite Hk.
  cbn -[calls]. rewrite calls_app. cbn. lia.
Qed.

Lemma initialize_registry self st (w : World E) :
  same_registry st (final (run E w (initialize py d self st))).
Proof.
  pose proof (initialize_Keeps E py d self (fun _ => True)
                same_registry Indifferent_registry
                (fun v => assigned_registry _ _)
                (fun b u => assigned_registry _ _)
                (fun _ _ => Logic.I) (assigned_registry _ _)
                st w Logic.I) as [Hk _].
  exact Hk.
Qed.

Lemma assigned_pending t i addr f :
  (forall o, initialized (f o) = initialized o) ->
  Respects (pending t i addr) (fun _ _ => True) (assigned addr f).
Proof.
  intros Hf st [Hr Hi]. split; [exact Logic.I|]. split; [exact Hr|].
  cbn. now rewrite store_same, Hf.
Qed.

(** A run of [initialize] that raises leaves the handle as it found
    it: registered, and not initialized. *)
Lemma initialize_raises_pending t i addr st e (w : World E) :
  pending t i addr st ->
  result (run E w (initialize py d addr st)) = inl e ->
  pending t i addr (final (run E w (initialize py d addr st))).
Proof.
  intros Hp He.
  refine (initialize_Raising E py d addr (pending t i addr) (fun _ _ => True)
            (Indifferent_pending t i addr) _ _ _ st w e Hp He).
  - intro v. now apply assigned_pending.
  - intros b u. now apply assigned_pending.
  - intros s Hs. exact Hs.
Qed.

End HandleFacts.

(** X17.  A call of [get_stream] that raises leaves the handle of the pair
    registered and not initialized.  The next call for the pair creates
    no handle: it runs [initialize] once more, on that handle, and that
    is the handle it returns when it returns. *)
Theorem get_stream_failure_keeps_the_handle :
  forall (E : Env) (py : Builtins) (d : nat) (w : World E) (st : State)
         (t i : string) (e : Exn),
    result (run E w (get_stream py d t i st)) = inl e ->
    let st1 := final (run E w (get_stream py d t i st)) in
    let addr := handle_of t i st in
    dict_get key_eqb (_streams (client st1)) (t, i) = Some addr
    /\ initialized (objects st1 addr) = false
    /\ forall w2 : World E,
         let again := run E w2 (get_stream py d t i st1) in
         allocated (final again) = allocated st1
         /\ calls "initialize" (trace (final again)) =
            S (calls "initialize" (trace st1))
         /\ forall a, result again = inr a -> a = addr.
Proof.
  intros E py d w st t i e He st1 addr.
  assert (Hp : pending t i addr st1).
  { unfold st1. rewrite get_stream_run in He |- *. fold addr in He |- *.
    destruct (initialized (objects (looked_up t i st) addr)) eqn:Hi;
      [discriminate|].
    assert (Hp : pending t i addr (looked_up t i st)).
    { split; [apply handle_of_looked_up | exact Hi]. }
    pose proof (fun e' => initialize_raises_pending E py d t i addr
                            (looked_up t i st) e' w Hp) as Hr.
    destruct (run E w (initialize py d addr (looked_up t i st)))
      as [[s [e' | []]] w']; [|discriminate].
    apply (Hr e'). reflexivity. }
  destruct Hp as [Hr Hi]. split; [exact Hr|]. split; [exact Hi|].
  intros w2 again. unfold again. rewrite get_stream_run.
  assert (Hl : looked_up t i st1 = emit (EvCall "get_stream") st1).
  { unfold looked_up. now rewrite Hr. }
  assert (Hh : handle_of t i st1 = addr).
  { unfold handle_of. now rewrite Hr. }
  rewrite Hl, Hh. cbn [objects emit]. rewrite Hi.
  pose proof (initialize_counts E py d addr (emit (EvCall "get_stream") st1) w2)
    as Hc.
  pose proof (initialize_registry E py d addr (emit (EvCall "get_stream") st1) w2)
    as [_ Ha].
  destruct (run E w2 (initialize py d addr (emit (EvCall "get_stream") st1)))
    as [[s [e' | []]] w']; cbn [final result fst snd] in *.
  - split; [exact Ha|]. split; [|discriminate].
    rewrite Hc. cbn -[calls]. rewrite calls_app. cbn. lia.
  - split; [exact Ha|]. split; [|now intros a [= <-]].
    rewrite Hc. cbn -[calls]. rewrite calls_app. cbn. lia.
Qed.

Lemma key_eqb_eq a b : key_eqb a b = true <-> a = b.
Proof.
  destruct a as [a1 a2], b as [b1 b2]. unfold key_eqb. cbn.
  rewrite andb_true_iff, !String.eqb_eq. split.
  - now intros [-> ->].
  - now intros [= -> ->].
Qed.

Lemma dict_get_set_other_key {V : Type} (d : list (EntityKey * V)) k k' v :
  key_eqb k' k = false ->
  dict_get key_eqb (dict_set key_eqb d k v) k' = dict_get key_eqb d k'.
Proof.
  intro Hne. induction d as [|[k0 v0] d IH]; cbn.
  - now rewrite Hne.
  - destruct (key_eqb k k0) eqn:Hk; cbn.
    + apply key_eqb_eq in Hk; subst k0. now rewrite Hne.
    + destruct (key_eqb k' k0); auto.
Qed.

Lemma assigned_elsewhere self addr key f :
  addr <> self ->
  Respects (fun _ => True) (same_elsewhere addr key) (assigned self f).
Proof.
  intros Hne st _. split; [|exact Logic.I]. split; [|reflexivity].
  cbn. unfold store. apply Nat.eqb_neq in Hne. now rewrite Hne.
Qed.

(** X18.  A call of [get_stream] for a pair touches nothing of the other
    pairs: the handle registered for another pair is the same afterwards,
    and so is every other handle that existed, whether the call returns
    or raises. *)
Theorem get_stream_leaves_the_other_handles :
  forall (E : Env) (py : Builtins) (d : nat) (w : World E) (st : State)
         (t i : string) (other : EntityKey) (addr : nat),
    other <> (t, i) ->
    addr < allocated st ->
    dict_get key_eqb (_streams (client st)) (t, i) <> Some addr ->
    let st1 := final (run E w (get_stream py d t i st)) in
    dict_get key_eqb (_streams (client st1)) other =
      dict_get key_eqb (_streams (client st)) other
    /\ objects st1 addr = objects st addr.
Proof.
  intros E py d w st t i other addr Hk Ha Hr st1.
  assert (Hne : addr <> handle_of t i st).
  { unfold handle_of.
    destruct (dict_get key_eqb (_streams (client st)) (t, i)) as [a|];
      [congruence | lia]. }
  assert (Hkey : key_eqb other (t, i) = false).
  { destruct (key_eqb other (t, i)) eqn:H; [|reflexivity].
    apply key_eqb_eq in H. contradiction. }
  assert (Hl : same_elsewhere addr other st (looked_up t i st)).
  { unfold same_elsewhere, looked_up.
    destruct (dict_get key_eqb (_streams (client st)) (t, i)); cbn.
    - auto.
    - split; [|now apply dict_get_set_other_key].
      unfold store. assert (H : Nat.eqb addr (allocated st) = false).
      { apply Nat.eqb_neq. lia. }
      now rewrite H. }
  assert (Hs : same_elsewhere addr other st st1).
  { unfold st1. rewrite get_stream_run.
    destruct (initialized (objects (looked_up t i st) (handle_of t i st)));
      [exact Hl|].
    pose proof (initialize_Keeps E py d (handle_of t i st) (fun _ => True)
                  (same_elsewhere addr other) (Indifferent_elsewhere _ _)
                  (fun v => assigned_elsewhere _ _ _ _ Hne)
                  (fun b u => assigned_elsewhere _ _ _ _ Hne)
                  (fun _ _ => Logic.I) (assigned_elsewhere _ _ _ _ Hne)
                  (looked_up t i st) w Logic.I) as [[Ho Hd] _].
    destruct Hl as [Ho' Hd'].
    destruct (run E w (initialize py d (handle_of t i st) (looked_up t i st)))
      as [[s [e | []]] w']; cbn [final fst] in *;
      split; cbn in Ho, Hd; congruence. }
  destruct Hs as [Ho Hd]. split; assumption.
Qed.

(* ================================================================== *)
(** ** The playlist handler *)
(* ================================================================== *)

Section HandlerFacts.

Variable E : Env.
Variable py : Builtins.
Variable d : nat.

Lemma get_playlist_initializations self bitrate :
  Keeps E (fun _ => True) same_initializations
    (get_playlist py d self bitrate).
Proof.
  unfold get_playlist.
  apply (Keeps_bind E _ _
           (stable_trans _ _ (indifferent_stable _ _ Indifferent_initializations))).
  - apply Keeps_deref. intro; reflexivity.
  - intro o. apply request_Keeps, Indifferent_initializations.
Qed.

(** The handler, from the state in which [get_stream] has returned the
    handle: one more call of [initialize], whether it then returns or
    raises. *)
Lemma playlist_handler_from_handle t i st stream (w : World E) :
  let rest :=
    (initialize py d stream ;;
     playlist_data <- get_playlist py d stream BITRATE_256 ;;
     proxy_playlist_data <-
       eval (Proxy.rewrite_playlist_value playlist_data t i) ;;
     ret {| Proxy.body := proxy_playlist_data;
            Proxy.response_content_type := "application/x-mpegURL" |})
      : Coro Proxy.Response in
  calls "initialize" (trace (final (run E w (rest st)))) =
  S (calls "initialize" (trace st)).
Proof.
  intro rest. unfold rest. rewrite run_bind_coro.
  pose proof (initialize_counts E py d stream st w) as Hc.
  destruct (run E w (initialize py d stream st)) as [[s1 [e | []]] w1];
    cbn [final fst] in Hc; [exact Hc|].
  rewrite run_bind_coro.
  pose proof (get_playlist_initializations stream BITRATE_256 s1 w1 Logic.I)
    as [Hk _].
  unfold same_initializations in Hk.
  destruct (run E w1 (get_playlist py d stream BITRATE_256 s1))
    as [[s2 [e | data]] w2]; cbn [final fst] in Hk |- *; [congruence|].
  rewrite run_bind_coro.
  destruct (Proxy.rewrite_playlist_value data t i); cbn -[calls]; congruence.
Qed.

End HandlerFacts.

(** X22.  The playlist handler of the proxy runs [initialize] on every
    request, after [get_stream] has returned the handle: once for a pair
    whose handle is initialized (whether the handler then returns or
    raises), and twice, when it returns, for a pair that had no
    initialized handle. *)
Theorem playlist_handler_initializes_again :
  forall (E : Env) (py : Builtins) (d : nat) (w : World E) (st : State)
         (t i : string),
    let whole := run E w (Proxy.get_playlist py d t i st) in
    (forall addr,
        dict_get key_eqb (_streams (client st)) (t, i) = Some addr ->
        initialized (objects st addr) = true ->
        calls "initialize" (trace (final whole)) =
        1 + calls "initialize" (trace st))
    /\ ((forall addr,
           dict_get key_eqb (_streams (client st)) (t, i) = Some addr ->
           initialized (objects st addr) = false) ->
        forall r, result whole = inr r ->
          calls "initialize" (trace (final whole)) =
          2 + calls "initialize" (trace st)).
Proof.
  intros E py d w st t i whole. unfold whole, Proxy.get_playlist. split.
  - intros addr Hr Hi. rewrite run_bind_coro.
    rewrite (get_stream_cached py d t i st addr Hr Hi). cbn [run].
    rewrite (playlist_handler_from_handle E py d t i _ addr w).
    cbn -[calls]. rewrite calls_app. cbn. lia.
  - intros Hu r. rewrite run_bind_coro, get_stream_run.
    assert (Hi : initialized (objects (looked_up t i st) (handle_of t i st))
                 = false).
    { unfold looked_up, handle_of.
      destruct (dict_get key_eqb (_streams (client st)) (t, i)) as [a|] eqn:Hr;
        cbn.
      - now apply Hu.
      - now rewrite store_same. }
    rewrite Hi.
    pose proof (initialize_counts E py d (handle_of t i st) (looked_up t i st) w)
      as Hc.
    assert (Hl : calls "initialize" (trace (looked_up t i st)) =
                 calls "initialize" (trace st)).
    { unfold looked_up.
      destruct (dict_get key_eqb (_streams (client st)) (t, i));
        cbn -[calls]; rewrite calls_app; cbn; lia. }
    destruct (run E w (initialize py d (handle_of t i st) (looked_up t i st)))
      as [[s1 [e | []]] w1]; cbn [final fst] in Hc; [discriminate|].
    intros _.
    rewrite (playlist_handler_from_handle E py d t i s1 (handle_of t i st) w1).
    lia.
Qed.

(* ================================================================== *)
(** ** The base URL and the directory of the segments *)
(* ================================================================== *)


Module PyStrMore.
Import PyStr PyStrFacts.

Lemma rcut_none sep s : rcut sep s = None -> mem sep s = false.
Proof.
  induction s as [|c s IH]; cbn; [reflexivity|].
  destruct (rcut sep s) as [[a b]|]; [discriminate|].
  destruct (Ascii.eqb c sep) eqn:Hc; [discriminate|].
  intros _. rewrite Ascii.eqb_sym, Hc. cbn. now apply IH.
Qed.

Lemma rcut_elim sep s a b :
  rcut sep s = Some (a, b) ->
  s = (a ++ String sep b)%string /\ mem sep b = false.
Proof.
  revert a b. induction s as [|c s IH]; intros a b; cbn; [discriminate|].
  destruct (rcut sep s) as [[a' b']|] eqn:Hr.
  - intros [= <- <-]. destruct (IH a' b' Logic.eq_refl) as [-> Hb]. auto.
  - destruct (Ascii.eqb c sep) eqn:Hc; [|discriminate].
    intros [= <- <-]. apply Ascii.eqb_eq in Hc. subst c.
    split; [reflexivity | now apply rcut_none].
Qed.

Lemma split_app sep a b :
  split sep (a ++ String sep b) = split sep a ++ split sep b.
Proof.
  induction a as [|c a IH]; cbn.
  - now rewrite Ascii.eqb_refl.
  - destruct (Ascii.eqb c sep); rewrite IH.
    + reflexivity.
    + pose proof (split_not_nil sep a) as Hn.
      destruct (split sep a); [contradiction | reflexivity].
Qed.

Lemma second_to_last_app {A} (xs : list A) a b :
  second_to_last (xs ++ [a; b]) = Some a.
Proof.
  induction xs as [|x xs IH]; [reflexivity|].
  cbn [app]. destruct (xs ++ [a; b]) as [|y [|z zs]] eqn:He.
  - destruct xs; discriminate.
  - destruct xs as [|? [|? ?]]; discriminate.
  - cbn in IH |- *. exact IH.
Qed.

Lemma last_component sep s :
  exists init d, split sep s = init ++ [d] /\ mem sep d = false.
Proof.
  pose proof (split_not_nil sep s) as Hn.
  destruct (exists_last Hn) as (init & d & He).
  exists init, d. split; [exact He|].
  apply (split_parts_no_sep sep s). rewrite He, in_app_iff. cbn. auto.
Qed.

End PyStrMore.

Lemma base_url_of_manifest o manifest :
  streams_by_bitrate_url o = inr (PStr manifest) ->
  base_url o = inr (hd manifest (PyStr.rsplit1 PyStr.slash manifest)).
Proof. intro H. unfold base_url. rewrite H. reflexivity. Qed.

(** X21.  The base URL of a handle is the manifest URL up to its last slash
    (the whole of it when it has none), and [get_segment] asks for the
    segment in the directory of the playlist when the playlist is one
    directory below the base: the playlist [base/dir/file] has its
    segments at [base/dir/segment_file].  For a playlist directly at the
    base, [base/file], the directory is the last component of the base
    itself, once more. *)
Theorem segments_are_fetched_beside_the_playlist :
  forall (py : Builtins) (depth : nat) (st : State) (self : nat)
         (manifest : string),
    streams_by_bitrate_url (objects st self) = inr (PStr manifest) ->
    exists base,
      base_url (objects st self) = inr base
      /\ ((PyStr.mem PyStr.slash manifest = false /\ base = manifest)
          \/ exists file, manifest = (base ++ "/" ++ file)%string
                          /\ PyStr.mem PyStr.slash file = false)
      /\ (forall bitrate dir file segment_file,
            get_or_none (_streams_by_bitrate (objects st self)) bitrate =
              Some (base ++ "/" ++ dir ++ "/" ++ file)%string ->
            PyStr.mem PyStr.slash dir = false ->
            PyStr.mem PyStr.slash file = false ->
            get_segment py depth self segment_file bitrate st =
            request py depth "GET"
              (PStr (base ++ "/" ++ dir ++ "/" ++ segment_file)) no_kwargs st)
      /\ (forall bitrate file segment_file,
            get_or_none (_streams_by_bitrate (objects st self)) bitrate =
              Some (base ++ "/" ++ file)%string ->
            PyStr.mem PyStr.slash file = false ->
            exists init parent,
              PyStr.split PyStr.slash base = init ++ [parent]
              /\ get_segment py depth self segment_file bitrate st =
                 request py depth "GET"
                   (PStr (base ++ "/" ++ parent ++ "/" ++ segment_file))
                   no_kwargs st).
Proof.
  intros py depth st self manifest Hm.
  pose proof (base_url_of_manifest _ _ Hm) as Hb.
  exists (hd manifest (PyStr.rsplit1 PyStr.slash manifest)).
  split; [exact Hb|]. split; [|split].
  - unfold PyStr.rsplit1.
    destruct (PyStr.rcut PyStr.slash manifest) as [[a b]|] eqn:Hr; cbn [hd].
    + right. apply PyStrMore.rcut_elim in Hr as [-> Hf]. now exists b.
    + left. split; [now apply PyStrMore.rcut_none | reflexivity].
  - intros bitrate dir file seg Hu Hd Hf.
    unfold get_segment. rewrite bind_deref. cbn. rewrite Hu. cbn.
    fold PyStr.slash. rewrite !PyStrMore.split_app.
    rewrite (PyStrFacts.split_no_sep _ _ Hd), (PyStrFacts.split_no_sep _ _ Hf).
    cbn [app]. rewrite PyStrMore.second_to_last_app. cbn. rewrite Hb.
    reflexivity.
  - intros bitrate file seg Hu Hf.
    destruct (PyStrMore.last_component PyStr.slash
                (hd manifest (PyStr.rsplit1 PyStr.slash manifest)))
      as (init & parent & Hs & _).
    exists init, parent. split; [exact Hs|].
    unfold get_segment. rewrite bind_deref. cbn. rewrite Hu. cbn.
    fold PyStr.slash.
    rewrite PyStrMore.split_app, Hs, (PyStrFacts.split_no_sep _ _ Hf).
    rewrite <- app_assoc. cbn [app].
    rewrite PyStrMore.second_to_last_app. cbn. rewrite Hb. reflexivity.
Qed.

(* ================================================================== *)
(** ** What [strip] leaves *)
(* ================================================================== *)


Module StripFacts.
Import PyStr PyStrFacts.

Lemma lstrip_head s :
  lstrip s = "" \/ exists c r, lstrip s = String c r /\ isspace c = false.
Proof.
  induction s as [|c s IH]; cbn; [now left|].
  destruct (isspace c) eqn:Hc; [exact IH|]. right. eauto.
Qed.

Lemma rstrip_cons c s :
  rstrip (String c s) =
  match rstrip s with
  | EmptyString => if isspace c then EmptyString else String c EmptyString
  | r => String c r
  end.
Proof. reflexivity. Qed.

Lemma rstrip_keeps_head c s :
  isspace c = false -> exists r, rstrip (String c s) = String c r.
Proof.
  intro Hc. rewrite rstrip_cons. destruct (rstrip s); rewrite ?Hc; eauto.
Qed.

Lemma rstrip_last s :
  rstrip s = "" \/
  exists r c, rstrip s = (r ++ String c "")%string /\ isspace c = false.
Proof.
  induction s as [|c s IH]; [now left|]. rewrite rstrip_cons.
  destruct IH as [-> | (r & d & -> & Hd)].
  - destruct (isspace c) eqn:Hc; [now left|]. right. exists "", c. auto.
  - right. destruct (r ++ String d "")%string as [|x y] eqn:He.
    + destruct r; discriminate.
    + exists (String c r), d. cbn. now rewrite He.
Qed.

(** What [strip] leaves is empty or trimmed. *)
Lemma strip_trimmed s : strip s = "" \/ trimmed (strip s).
Proof.
  unfold strip.
  destruct (lstrip_head s) as [-> | (c & r & -> & Hc)]; [now left|].
  right. split.
  - destruct (rstrip_keeps_head c r Hc) as [r' ->]. eauto.
  - destruct (rstrip_last (String c r)) as [H | H]; [|exact H].
    destruct (rstrip_keeps_head c r Hc) as [r' Hr]. congruence.
Qed.

Lemma mem_lstrip x s : mem x (lstrip s) = true -> mem x s = true.
Proof.
  induction s as [|c s IH]; cbn; [discriminate|].
  destruct (isspace c); [|cbn; auto].
  intro H. rewrite (IH H). apply orb_true_r.
Qed.

Lemma mem_rstrip x s : mem x (rstrip s) = true -> mem x s = true.
Proof.
  induction s as [|c s IH]; [discriminate|]. rewrite rstrip_cons. cbn [mem].
  destruct (rstrip s) as [|d r].
  - destruct (isspace c); cbn; [discriminate|].
    rewrite orb_false_r. intros ->. reflexivity.
  - cbn [mem] in *. intro H. apply orb_true_iff in H as [H | H].
    + now rewrite H.
    + rewrite (IH H). apply orb_true_r.
Qed.

Lemma mem_strip x s : mem x s = false -> mem x (strip s) = false.
Proof.
  intro H. destruct (mem x (strip s)) eqn:Hm; [|reflexivity].
  unfold strip in Hm. apply mem_rstrip, mem_lstrip in Hm. congruence.
Qed.

Lemma prefix_cons a n c s :
  String.prefix (String a n) (String c s) =
  if Ascii.eqb a c then String.prefix n s else false.
Proof.
  cbn. destruct (ascii_dec a c) as [-> | Hne].
  - now rewrite Ascii.eqb_refl.
  - apply Ascii.eqb_neq in Hne. now rewrite Hne.
Qed.

Lemma contains_lstrip a n s :
  isspace a = false ->
  contains (String a n) s = true -> contains (String a n) (lstrip s) = true.
Proof.
  intro Ha. induction s as [|c s IH]; [discriminate|].
  cbn [lstrip]. destruct (isspace c) eqn:Hc; [|auto].
  cbn [contains]. rewrite prefix_cons.
  destruct (Ascii.eqb a c) eqn:He.
  - apply Ascii.eqb_eq in He. congruence.
  - exact IH.
Qed.

(** A prefix that does not end in white space survives [rstrip]. *)
Lemma prefix_rstrip n s :
  (exists r c, n = (r ++ String c "")%string /\ isspace c = false) ->
  String.prefix n s = true -> String.prefix n (rstrip s) = true.
Proof.
  revert s. induction n as [|a n IH]; intros s Hn.
  - destruct Hn as (r & c & He & _). destruct r; discriminate.
  - destruct s as [|c s]; [discriminate|].
    rewrite prefix_cons. destruct (Ascii.eqb a c) eqn:He; [|discriminate].
    apply Ascii.eqb_eq in He. subst c. intro Hp.
    rewrite rstrip_cons. destruct n as [|b n].
    + destruct Hn as (r & c & Hr & Hc).
      assert (c = a) as ->.
      { destruct r as [|x r]; [now injection Hr as ->|].
        destruct r; discriminate. }
      destruct (rstrip s); rewrite ?Hc, prefix_cons, Ascii.eqb_refl;
        reflexivity.
    + assert (Hn' : exists r c, String b n = (r ++ String c "")%string
                                /\ isspace c = false).
      { destruct Hn as (r & c & Hr & Hc). destruct r as [|x r].
        - discriminate.
        - injection Hr as _ Hr. eauto. }
      specialize (IH s Hn' Hp).
      destruct (rstrip s) as [|d r]; [discriminate|].
      rewrite prefix_cons, Ascii.eqb_refl. exact IH.
Qed.

Lemma contains_rstrip n s :
  (exists r c, n = (r ++ String c "")%string /\ isspace c = false) ->
  contains n s = true -> contains n (rstrip s) = true.
Proof.
  intro Hn. induction s as [|c s IH].
  - destruct Hn as (r & x & -> & _). destruct r; discriminate.
  - intro H. cbn [contains] in H.
    destruct (String.prefix n (String c s)) eqn:Hp.
    + pose proof (prefix_rstrip n _ Hn Hp) as Hr.
      destruct (rstrip (String c s)); cbn [contains]; now rewrite Hr.
    + specialize (IH H). rewrite rstrip_cons.
      destruct (rstrip s) as [|d r] eqn:Hr.
      * destruct Hn as (r & x & -> & _). destruct r; discriminate.
      * cbn [contains] in IH |- *. rewrite IH.
        now destruct (String.prefix n (String c (String d r))).
Qed.

Lemma contains_strip a n s :
  isspace a = false ->
  (exists r c, String a n = (r ++ String c "")%string /\ isspace c = false) ->
  contains (String a n) s = true -> contains (String a n) (strip s) = true.
Proof.
  intros Ha Hn H. unfold strip.
  apply contains_rstrip; [exact Hn|]. now apply contains_lstrip.
Qed.

End StripFacts.

(* ================================================================== *)
(** ** What [initialize] stores *)
(* ================================================================== *)


Lemma needle_ends bitrate :
  exists r c, playlist_needle bitrate = (r ++ String c "")%string
              /\ PyStr.isspace c = false.
Proof.
  exists ("_" ++ bitrate ++ "_full_v3.m3u")%string, "8"%char.
  split; [|reflexivity]. unfold playlist_needle. cbn. f_equal.
  now rewrite PyStrFacts.append_assoc.
Qed.

(** The URL the loop of [initialize] stores for a line: the base URL,
    a slash, and the line without the white space around it, which still
    holds the name the line was found by. *)
Lemma probe_trimmed text base bitrate url :
  probe text base bitrate = Some url ->
  exists name,
    url = (base ++ "/" ++ name)%string
    /\ trimmed name
    /\ PyStr.mem PyStr.newline name = false
    /\ PyStr.contains (playlist_needle bitrate) name = true.
Proof.
  unfold probe, search_playlist_line.
  destruct (find _ _) as [line|] eqn:Hf; [|discriminate].
  intros [= <-]. apply find_some in Hf as [Hin Hc].
  exists (PyStr.strip line). split; [reflexivity|].
  assert (Hs : PyStr.contains (playlist_needle bitrate) (PyStr.strip line)
               = true).
  { unfold playlist_needle in *. cbn [append] in *.
    apply StripFacts.contains_strip; [reflexivity | | exact Hc].
    apply (needle_ends bitrate). }
  split; [|split; [|exact Hs]].
  - destruct (StripFacts.strip_trimmed line) as [He | Ht]; [|exact Ht].
    rewrite He in Hs. discriminate.
  - apply StripFacts.mem_strip.
    apply (PyStrFacts.split_parts_no_sep _ _ _ Hin).
Qed.

Section Probing.

Variable self : nat.

Lemma probe_bitrate_done sb bitrate st :
  exists st' r, probe_bitrate self sb bitrate st = Done st' r.
Proof.
  unfold probe_bitrate. cbn.
  destruct (re_search_playlist bitrate sb) as [e | [line|]]; cbn;
    try (do 2 eexists; reflexivity).
  destruct (base_url (objects st self)); cbn; do 2 eexists; reflexivity.
Qed.

Lemma for_each_probe_done sb bitrates st :
  exists st' r, for_each bitrates (probe_bitrate self sb) st = Done st' r.
Proof.
  revert st. induction bitrates as [|b bs IH]; intro st; cbn [for_each].
  - do 2 eexists; reflexivity.
  - cbn [bind Monad_Coro].
    destruct (probe_bitrate_done sb b st) as (s1 & [e | []] & ->);
      cbn [susp_bind]; [do 2 eexists; reflexivity | apply IH].
Qed.

(** The loop, when it returns on a handle that has no base URL, has
    found no line. *)
Lemma for_each_probe_without_base text e bitrates :
  forall st st',
    base_url (objects st self) = inl e ->
    for_each bitrates (probe_bitrate self (PStr text)) st = Done st' (inr tt) ->
    (forall b, In b bitrates -> search_playlist_line b text = None)
    /\ forall base,
         objects st' self = probe_all text base bitrates (objects st self).
Proof.
  induction bitrates as [|b bs IH]; intros st st' Hb; cbn [for_each].
  - cbn. intros [= <-]. split; [intros b []|]. reflexivity.
  - cbn [bind Monad_Coro]. unfold probe_bitrate at 1, probe_all. cbn.
    unfold probe.
    destruct (search_playlist_line b text) as [line|] eqn:Hs; cbn.
    + rewrite Hb. cbn. discriminate.
    + intros H. apply IH in H; [|cbn; rewrite store_same; exact Hb].
      destruct H as [Hnone Hobj]. split.
      * intros b' [<- | Hin]; auto.
      * intro base. rewrite (Hobj base). cbn. rewrite store_same.
        reflexivity.
Qed.

End Probing.

(** A run of [initialize] that returns has read the manifest as a text
    and stored, for each bitrate of the probe order, what the loop makes
    of that text; where it has stored a URL, the handle has a base
    URL. *)
Lemma initialize_returns_probed E py d self st st' (w w' : World E) :
  run E w (initialize py d self st) = (st', inr tt, w') ->
  exists text base,
    forall bitrate,
      In bitrate probe_order ->
      get_or_none (_streams_by_bitrate (objects st' self)) bitrate =
        probe text base bitrate
      /\ (forall url, probe text base bitrate = Some url ->
                      base_url (objects st' self) = inr base).
Proof.
  unfold initialize. rewrite run_bind_coro. cbn [called modify run].
  rewrite run_bind_coro. unfold deref at 1. cbn [gets run].
  rewrite run_bind_coro.
  match goal with
  | |- context [run E w (request py d ?m ?u ?kw ?s)] =>
      pose proof (request_keeps_objects E py d m u kw s w) as Ho1;
      destruct (run E w (request py d m u kw s)) as [[s1 [e | ts]] w1]
  end; [discriminate|].
  cbn [final fst objects emit] in Ho1.
  rewrite run_bind_coro. cbn [assign modify run].
  rewrite run_bind_coro. unfold deref at 1. cbn [gets run].
  rewrite run_bind_coro. cbn [eval run].
  match goal with
  | |- context [streams_by_bitrate_url ?o] =>
      destruct (streams_by_bitrate_url o) as [e | murl] eqn:Hm
  end; [discriminate|].
  rewrite run_bind_coro.
  match goal with
  | |- context [run E w1 (request py d ?m ?u ?kw ?s)] =>
      pose proof (request_keeps_objects E py d m u kw s w1) as Ho2;
      destruct (run E w1 (request py d m u kw s)) as [[s2 [e | sb]] w2]
  end; [discriminate|].
  cbn [final fst] in Ho2.
  rewrite run_bind_coro.
  destruct (for_each_probe_done self sb probe_order s2)
    as (s3 & r & Hloop).
  rewrite Hloop. cbn [run].
  destruct r as [e | []]; [discriminate|].
  cbn [assign modify run]. intros [= <- _].
  destruct sb as [| b | z | text | bs | xs | kvs];
    try (cbn in Hloop; discriminate).
  destruct (base_url (objects s2 self)) as [e | base] eqn:Hb.
  - exists text, "". intros bitrate Hin.
    destruct (for_each_probe_without_base self text e _ _ _ Hb Hloop)
      as [Hnone Hobj].
    cbn [objects set_objects]. rewrite store_same, (Hobj "").
    change (_streams_by_bitrate (with_initialized true ?o))
      with (_streams_by_bitrate o).
    unfold get_or_none. rewrite probe_all_order by exact Hin.
    split; [reflexivity|].
    intros url Hu. unfold probe in Hu. rewrite (Hnone bitrate Hin) in Hu.
    discriminate.
  - exists text, base. intros bitrate Hin.
    destruct (for_each_probe self text base probe_order s2 Hb)
      as (s3' & Hloop' & Ho3).
    rewrite Hloop in Hloop'. injection Hloop' as <-.
    cbn [objects set_objects]. rewrite store_same, Ho3.
    change (_streams_by_bitrate (with_initialized true ?o))
      with (_streams_by_bitrate o).
    unfold get_or_none. rewrite probe_all_order by exact Hin.
    split; [reflexivity|]. intros url _.
    unfold base_url in Hb |- *. cbn. unfold probe_all. cbn. exact Hb.
Qed.

(** X19.  Every URL that a run of [initialize] has stored is the base URL of
    the handle, a slash, and a name that neither begins nor ends with
    white space, has no line break in it and holds
    [_<bitrate>_full_v3.m3u8]: the carriage return of a manifest with
    CRLF line ends, or the indentation of a line, is not part of it. *)
Theorem initialize_stores_trimmed_urls :
  forall (E : Env) (py : Builtins) (d : nat) (w w' : World E)
         (st st' : State) (self : nat),
    run E w (initialize py d self st) = (st', inr tt, w') ->
    forall bitrate url,
      In bitrate probe_order ->
      get_or_none (_streams_by_bitrate (objects st' self)) bitrate = Some url ->
      exists base name,
        base_url (objects st' self) = inr base
        /\ url = (base ++ "/" ++ name)%string
        /\ trimmed name
        /\ PyStr.mem PyStr.newline name = false
        /\ PyStr.contains (playlist_needle bitrate) name = true.
Proof.
  intros E py d w w' st st' self Hrun bitrate url Hin Hu.
  destruct (initialize_returns_probed E py d self st st' w w' Hrun)
    as (text & base & H).
  destruct (H bitrate Hin) as [Hg Hb]. rewrite Hg in Hu.
  destruct (probe_trimmed text base bitrate url Hu) as (name & He & Ht).
  exists base, name. split; [now apply (Hb url)|]. split; assumption.
Qed.

(** X20.  After a run of [initialize] that has returned, [get_segment] for a
    bitrate of the probe order either raises [AttributeError] before
    anything is sent, when the manifest had no playlist for the bitrate,
    or sends its request, for a segment in a directory under the base
    URL: neither the stored URL nor the base URL makes it fail. *)
Theorem get_segment_after_initialize :
  forall (E : Env) (py : Builtins) (d : nat) (w w' : World E)
         (st st' : State) (self : nat),
    run E w (initialize py d self st) = (st', inr tt, w') ->
    forall bitrate segment_file,
      In bitrate probe_order ->
      match get_or_none (_streams_by_bitrate (objects st' self)) bitrate with
      | None =>
          get_segment py d self segment_file bitrate st' =
          Done st'
            (inl (AttributeError "'NoneType' object has no attribute 'split'"))
      | Some url =>
          exists base dir,
            base_url (objects st' self) = inr base
            /\ PyStr.second_to_last (PyStr.split PyStr.slash url) = Some dir
            /\ get_segment py d self segment_file bitrate st' =
               request py d "GET"
                 (PStr (base ++ "/" ++ dir ++ "/" ++ segment_file)) no_kwargs st'
      end.
Proof.
  intros E py d w w' st st' self Hrun bitrate seg Hin.
  destruct (initialize_returns_probed E py d self st st' w w' Hrun)
    as (text & base & H).
  destruct (H bitrate Hin) as [Hg Hb].
  destruct (get_or_none (_streams_by_bitrate (objects st' self)) bitrate)
    as [url|] eqn:Hu.
  - symmetry in Hg. specialize (Hb url Hg).
    destruct (PyStrFacts.second_to_last_component PyStr.slash url
                (probe_has_slash text base bitrate url Hg))
      as (pre & dir & file & _ & _ & _ & _ & Hs).
    exists base, dir. split; [exact Hb|]. split; [exact Hs|].
    unfold get_segment. rewrite bind_deref. cbn. rewrite Hu. cbn.
    fold PyStr.slash. rewrite Hs. cbn. rewrite Hb. reflexivity.
  - unfold get_segment. rewrite bind_deref. cbn. rewrite Hu. reflexivity.
Qed.

(* ================================================================== *)
(** ** The rewrite, line by line *)
(* ================================================================== *)


Module LineFacts.
Import Proxy ProxySpec ProxyFacts.

Lemma strip_prefix_line p s rest :
  PyStr.mem PyStr.newline p = false ->
  strip_prefix p (s ++ String PyStr.newline rest) =
  match strip_prefix p s with
  | Some r => Some (r ++ String PyStr.newline rest)%string
  | None => None
  end.
Proof.
  revert s. induction p as [|a p IH]; intros s Hp; [reflexivity|].
  cbn [PyStr.mem] in Hp. apply orb_false_iff in Hp as [Ha Hp].
  destruct s as [|b s]; cbn [append strip_prefix].
  - rewrite Ascii.eqb_sym, Ha. reflexivity.
  - destruct (Ascii.eqb a b); [now apply IH | reflexivity].
Qed.

Lemma until_quote_line s rest :
  PyStr.mem PyStr.newline s = false ->
  until_quote (s ++ String PyStr.newline rest) =
  match until_quote s with
  | Some (g, r) => Some (g, (r ++ String PyStr.newline rest)%string)
  | None => None
  end.
Proof.
  induction s as [|c s IH]; intro Hs.
  - reflexivity.
  - cbn [PyStr.mem] in Hs. apply orb_false_iff in Hs as [Hc Hs].
    cbn [append until_quote].
    destruct (Ascii.eqb c PyStr.dquote); [reflexivity|].
    rewrite Ascii.eqb_sym, Hc, (IH Hs).
    destruct (until_quote s) as [[g r]|]; reflexivity.
Qed.

Lemma lazy_group_line s rest :
  PyStr.mem PyStr.newline s = false ->
  lazy_group (s ++ String PyStr.newline rest) =
  match lazy_group s with
  | Some (g, r) => Some (g, (r ++ String PyStr.newline rest)%string)
  | None => None
  end.
Proof.
  destruct s as [|c s]; intro Hs.
  - cbn. reflexivity.
  - cbn [PyStr.mem] in Hs. apply orb_false_iff in Hs as [Hc Hs].
    cbn [append lazy_group]. rewrite Ascii.eqb_sym, Hc.
    rewrite (until_quote_line s rest Hs).
    destruct (until_quote s) as [[g r]|]; reflexivity.
Qed.

(** A match of [find] does not reach across a line break. *)
Lemma match_here_line s rest :
  PyStr.mem PyStr.newline s = false ->
  match_here (s ++ String PyStr.newline rest) =
  match match_here s with
  | Some (g, r) => Some (g, (r ++ String PyStr.newline rest)%string)
  | None => None
  end.
Proof.
  intro Hs. unfold match_here.
  rewrite strip_prefix_line by reflexivity.
  destruct (strip_prefix key_prefix s) as [after|] eqn:Hp; [|reflexivity].
  apply lazy_group_line.
  apply strip_prefix_some in Hp. subst s.
  rewrite PyStrFacts.mem_append in Hs. now apply orb_false_iff in Hs.
Qed.

Lemma substring_app n (s r : string) :
  n <= String.length s -> substring 0 n (s ++ r) = substring 0 n s.
Proof.
  revert n. induction s as [|c s IH]; intros [|n] H; cbn in *; try lia.
  - now destruct r.
  - reflexivity.
  - now rewrite IH by lia.
Qed.

Lemma match_here_shorter s g r :
  match_here s = Some (g, r) -> String.length r < String.length s.
Proof.
  intro H. apply match_here_elim in H as [_ ->].
  rewrite !length_append. unfold key_prefix. cbn. lia.
Qed.

(** The scan goes through a text line by line. *)
Lemma sub_scan_line template s rest :
  forall skip,
    PyStr.mem PyStr.newline s = false -> skip <= String.length s ->
    sub_scan template skip (s ++ String PyStr.newline rest) =
    (sub_scan template skip s ++ String PyStr.newline (sub_scan template 0 rest))%string.
Proof.
  induction s as [|c s IH]; intros skip Hs Hk.
  - cbn in Hk. assert (skip = 0) as -> by lia. reflexivity.
  - pose proof Hs as Hs0.
    cbn [PyStr.mem] in Hs. apply orb_false_iff in Hs as [Hc Hs'].
    destruct skip as [|n].
    + cbn [append sub_scan].
      change (String c (s ++ String PyStr.newline rest))
        with (String c s ++ String PyStr.newline rest)%string.
      rewrite (match_here_line (String c s) rest Hs0).
      destruct (match_here (String c s)) as [[g r]|] eqn:Hm.
      * pose proof (match_here_shorter _ _ _ Hm) as Hlt.
        cbn [String.length] in Hlt.
        rewrite !length_append. cbn [String.length].
        replace (S (String.length s) + S (String.length rest)
                 - (String.length r + S (String.length rest)))
          with (S (String.length s) - String.length r) by lia.
        rewrite substring_app by (cbn [String.length]; lia).
        rewrite IH by (auto; lia).
        now rewrite PyStrFacts.append_assoc.
      * cbn [append]. now rewrite IH by (auto; lia).
    + cbn [append sub_scan]. apply IH; [exact Hs' | cbn in Hk; lia].
Qed.

End LineFacts.

(** X24.  The rewrite of a playlist goes line by line: the rewrite of a first
    line followed by more text is the rewrite of the line, the line break,
    and the rewrite of the rest; and a line in which no match begins is
    returned as it is.  This holds for every entity type and id the
    replacement can be made of (the rewrite raises for the others,
    whatever the text). *)
Theorem rewrite_playlist_goes_line_by_line :
  forall (entity_type entity_id line rest : string),
    PyStr.mem PyStr.newline line = false ->
    Proxy.rewrite_playlist (line ++ String PyStr.newline rest)
      entity_type entity_id =
    and_then (Proxy.rewrite_playlist line entity_type entity_id) (fun l =>
    and_then (Proxy.rewrite_playlist rest entity_type entity_id) (fun r =>
    inr (l ++ String PyStr.newline r)%string))
    /\ ((forall a b, line = (a ++ b)%string -> ~ ProxySpec.key_match b) ->
        forall out,
          Proxy.rewrite_playlist line entity_type entity_id = inr out ->
          out = line).
Proof.
  intros t i line rest Hl. unfold Proxy.rewrite_playlist, Proxy.re_sub_key.
  destruct (Proxy.parse_template _ _) as [e | template]; cbn [and_then].
  - split; [reflexivity | discriminate].
  - split.
    + f_equal. apply LineFacts.sub_scan_line; [exact Hl | lia].
    + intros H out [= <-]. now apply ProxyFacts.sub_scan_copy.
Qed.

(* ================================================================== *)
(** ** The properties at work *)
(* ================================================================== *)

(** C1 as stated fails when the authenticated session that the chain
    obtains carries an empty access token: the connected client, two
    minutes on, re-authenticates once, holds the new (empty) token, and
    its request goes out with the bearer of the expired token, which an
    earlier request has left in the shared header dictionary. *)
Lemma request_after_expiry_may_send_the_expired_token :
  _access_token (client Scenario.expired) = PStr "token-4"
  /\ _access_token_expiration (client Scenario.expired) = Some (Aware 100)
  /\ now_ge (clock Scenario.expired) (Aware 100) = inr true
  /\ let whole := run Catalog.empty_token 7
                    (request Scenario.py 2 "GET" Scenario.player_url
                       no_kwargs Scenario.expired) in
     result whole = inr (PStr "<html></html>")
     /\ calls "_authenticate" (trace (final whole)) =
        S (calls "_authenticate" (trace Scenario.expired))
     /\ _access_token (client (final whole)) = PStr ""
     /\ option_map (fun r => (req_url r, authorization r))
          (hd_error (rev (requests (trace (final whole))))) =
        Some (Scenario.player_url, Some "Bearer token-4").
Proof. vm_compute. repeat split. Qed.

(** The amended C1 on the connected client, two minutes on: its token
    has expired, and a request brings the chains started from one to
    two. *)
Lemma request_after_expiry_witness :
  _access_token_expiration (client Scenario.expired) = Some (Aware 100)
  /\ now_ge (clock Scenario.expired) (Aware 100) = inr true
  /\ calls "_authenticate"
       (trace (final (run (Scenario.env Scenario.with_password) 7
                        (request Scenario.py 2 "GET" (PStr tune_source_url)
                           no_kwargs Scenario.expired)))) =
     S (calls "_authenticate" (trace Scenario.expired)).
Proof.
  split; [vm_compute; reflexivity|]. split; [reflexivity|].
  exact (proj1 (proj2
           (request_after_expiry_reauthenticates_once
              (Scenario.env Scenario.with_password) Scenario.py 7
              Scenario.expired 0 "GET" (PStr tune_source_url) no_kwargs
              (Aware 100) Logic.eq_refl Logic.eq_refl))).
Defined.

(** C8 as stated fails on a client that has never authenticated: it
    holds neither token nor expiration, and its request goes out at once,
    with no chain started and the token state still absent. *)
Lemma request_without_token_starts_no_chain :
  _access_token (client Scenario.fresh) = PNone
  /\ _access_token_expiration (client Scenario.fresh) = None
  /\ let whole := run (Scenario.env Scenario.with_password) 0
                    (request Scenario.py 2 "GET" Scenario.player_url
                       no_kwargs Scenario.fresh) in
     calls "_authenticate" (trace (final whole)) = 0
     /\ map req_url (requests (trace (final whole))) = [Scenario.player_url]
     /\ _access_token (client (final whole)) = PNone
     /\ result whole = inr (PStr "<html></html>").
Proof. vm_compute. repeat split. Qed.

(** The amended C8 on that client. *)
Lemma request_without_token_witness :
  _access_token_expiration (client Scenario.fresh) = None
  /\ client (final (run (Scenario.env Scenario.with_password) 0
                      (request Scenario.py 1 "GET" Scenario.player_url
                         no_kwargs Scenario.fresh))) =
     client Scenario.fresh.
Proof.
  split; [reflexivity|].
  exact (proj1 (proj2
           (request_without_token_is_sent_directly
              (Scenario.env Scenario.with_password) Scenario.py 0
              Scenario.fresh 0 "GET" Scenario.player_url no_kwargs
              Logic.eq_refl))).
Defined.

(** C2 as stated fails on the tuned handle, which holds [None] for
    96k: [get_playlist] raises no [NotAvailableError]; it hands a request
    with [None] for URL to the transport, and raises what the transport
    raises for it. *)
Lemma get_playlist_of_missing_bitrate_reaches_transport :
  get_or_none (_streams_by_bitrate (objects Scenario.tuned 0)) "96k" = None
  /\ let whole := run (Scenario.env Scenario.with_password) 9
                    (get_playlist Scenario.py 2 0 "96k" Scenario.tuned) in
     result whole =
       inl (TypeError "Constructor parameter should be str")
     /\ (forall e, result whole = inl e -> exn_class e <> "NotAvailableError")
     /\ last (map req_url (requests (trace (final whole)))) (PStr "") = PNone.
Proof.
  split; [vm_compute; reflexivity|].
  split; [vm_compute; reflexivity|].
  split; [|vm_compute; reflexivity].
  intros e He. vm_compute in He. injection He as <-. vm_compute. discriminate.
Qed.

(** The amended C2 on the tuned handle. *)
Lemma get_playlist_witness :
  (forall exp,
      _access_token_expiration (client Scenario.tuned) = Some exp ->
      now_ge (clock Scenario.tuned) exp = inr false)
  /\ get_playlist Scenario.py 1 0 "96k" Scenario.tuned =
     request Scenario.py 1 "GET" PNone no_kwargs Scenario.tuned.
Proof.
  assert (H : forall exp,
             _access_token_expiration (client Scenario.tuned) = Some exp ->
             now_ge (clock Scenario.tuned) exp = inr false).
  { intros exp He. vm_compute in He. injection He as <-.
    vm_compute. reflexivity. }
  split; [exact H|].
  exact (proj1 (get_playlist_requests_the_stored_value
                  (Scenario.env Scenario.with_password) Scenario.py 0 9
                  Scenario.tuned 0 "96k" H)).
Defined.

(** C4 as stated fails on the manifest of the scenario, whose 64k line
    has white space around the name: the handle holds the base URL
    followed by the stripped line, not by the line. *)
Lemma initialize_strips_the_matched_line :
  search_playlist_line "64k" Scenario.manifest =
    Some "  64k/ch9_64k_full_v3.m3u8 "
  /\ base_url (objects Scenario.tuned 0) =
       inr "https://cdn.example.com/live/ch9"
  /\ initialized (objects Scenario.tuned 0) = true
  /\ get_or_none (_streams_by_bitrate (objects Scenario.tuned 0)) "64k" =
       Some "https://cdn.example.com/live/ch9/64k/ch9_64k_full_v3.m3u8"
  /\ get_or_none (_streams_by_bitrate (objects Scenario.tuned 0)) "64k" <>
       Some ("https://cdn.example.com/live/ch9" ++ "/"
             ++ "  64k/ch9_64k_full_v3.m3u8 ")%string.
Proof.
  repeat split; try (vm_compute; reflexivity).
  vm_compute. discriminate.
Qed.

(** The amended C4 on the connected client with a new handle. *)
Lemma initialize_witness :
  let E := Scenario.env Scenario.with_password in
  let first := run E 7
                 (request Scenario.py 2 "POST" (PStr tune_source_url)
                    (tune_kwargs (objects Scenario.registered 0))
                    (emit (EvCall "initialize") Scenario.registered)) in
  let st1' := set_objects
                (fun h => store 0 (with_tune_source Scenario.tune_source (h 0)) h)
                (final first) in
  let second := run E (snd first)
                  (request Scenario.py 2 "GET" (PStr Scenario.manifest_url)
                     no_kwargs st1') in
  first = (final first, inr Scenario.tune_source, snd first)
  /\ streams_by_bitrate_url
       (with_tune_source Scenario.tune_source (objects Scenario.registered 0)) =
     inr (PStr Scenario.manifest_url)
  /\ second = (final second, inr (PStr Scenario.manifest), snd second)
  /\ result (run E 7 (initialize Scenario.py 2 0 Scenario.registered)) = inr tt.
Proof.
  intros E first st1' second.
  assert (H1 : first = (final first, inr Scenario.tune_source, snd first))
    by (vm_compute; reflexivity).
  assert (H2 : streams_by_bitrate_url
                 (with_tune_source Scenario.tune_source
                    (objects Scenario.registered 0)) =
               inr (PStr Scenario.manifest_url))
    by (vm_compute; reflexivity).
  assert (H3 : second = (final second, inr (PStr Scenario.manifest), snd second))
    by (vm_compute; reflexivity).
  split; [exact H1|]. split; [exact H2|]. split; [exact H3|].
  exact (proj1 (initialize_maps_each_bitrate E Scenario.py 2 7 (snd first)
                  (snd second) Scenario.registered (final first)
                  (final second) 0 Scenario.tune_source Scenario.manifest_url
                  Scenario.manifest H1 H2 H3)).
Defined.



(** C9 as stated fails on the connected client: two calls for the same
    pair, the second started while the first is suspended, both return
    the one handle, initialized, after two tune-source requests. *)
Lemma two_calls_send_two_tune_source_requests :
  tasks Scenario.two_calls = [Finished (inr 0); Finished (inr 0)]
  /\ Scenario.tune_requests Scenario.connected = 0
  /\ Scenario.tune_requests (shared Scenario.two_calls) = 2
  /\ Scenario.tune_requests (shared Scenario.two_calls) <> 1
  /\ calls "initialize" (trace (shared Scenario.two_calls)) = 2
  /\ allocated (shared Scenario.two_calls) = 1
  /\ initialized (objects (shared Scenario.two_calls) 0) = true.
Proof.
  repeat split; try (vm_compute; reflexivity).
  vm_compute. discriminate.
Qed.

(** The amended C9 on the connected client. *)
Lemma concurrent_get_stream_witness :
  (forall exp,
      _access_token_expiration (client Scenario.connected) = Some exp ->
      now_ge (clock Scenario.connected) exp = inr false)
  /\ (forall addr,
        dict_get key_eqb (_streams (client Scenario.connected))
          ("channel-linear", "ch9") = Some addr ->
        initialized (objects Scenario.connected addr) = false)
  /\ forall st',
       AllReturns (fun st'' addr => initialized (objects st'' addr) = true)
         (get_stream Scenario.py 1 "channel-linear" "ch9" st').
Proof.
  assert (H1 : forall exp,
             _access_token_expiration (client Scenario.connected) = Some exp ->
             now_ge (clock Scenario.connected) exp = inr false).
  { intros exp He. vm_compute in He. injection He as <-.
    vm_compute. reflexivity. }
  assert (H2 : forall addr,
             dict_get key_eqb (_streams (client Scenario.connected))
               ("channel-linear", "ch9") = Some addr ->
             initialized (objects Scenario.connected addr) = false).
  { intros addr Ha. vm_compute in Ha. discriminate. }
  split; [exact H1|]. split; [exact H2|].
  exact (proj2 (concurrent_get_stream_initializes_twice
                  (Scenario.env Scenario.with_password) Scenario.py 0 7
                  Scenario.connected "channel-linear" "ch9" H1 H2)).
Defined.

(* ================================================================== *)
(** ** The further properties on the scenarios *)
(* ================================================================== *)

(** The rewrite for the channel of the scenario, on a text without key
    line. *)
Lemma rewrite_playlist_plain_witness :
  PyStr.mem PyStr.backslash "channel-linear" = false
  /\ PyStr.mem PyStr.backslash "ch9" = false
  /\ Proxy.rewrite_playlist "#EXTM3U" "channel-linear" "ch9" = inr "#EXTM3U".
Proof.
  split; [reflexivity|]. split; [reflexivity|].
  apply (proj1 (rewrite_playlist_plain_entities "channel-linear" "ch9"
                  Logic.eq_refl Logic.eq_refl)).
  intros a b Heq (uri & rest & _ & Hb). subst b.
  apply (f_equal String.length) in Heq.
  rewrite !ProxyFacts.length_append in Heq. cbn in Heq. lia.
Defined.

(** The library of the catalogue, listed for the connected client. *)
Lemma get_library_witness :
  result (run Catalog.env 7 (get_library Scenario.py 2 Scenario.connected)) =
    inr (PList [PDict [("title", PStr "A")]; PDict [("title", PStr "B")]])
  /\ exists resp all_data entries,
       result (run Catalog.env 7
                 (request Scenario.py 2 "GET" (PStr library_url) json_true
                    Scenario.connected)) = inr resp
       /\ getitem resp "allDataMap" = inr (PDict all_data)
       /\ PList [PDict [("title", PStr "A")]; PDict [("title", PStr "B")]] =
          PList (map snd entries)
       /\ NoDup (map fst entries)
       /\ forall k x, In (k, x) entries <->
                      dict_get String.eqb all_data k = Some x.
Proof.
  assert (H : result (run Catalog.env 7
                        (get_library Scenario.py 2 Scenario.connected)) =
              inr (PList [PDict [("title", PStr "A")];
                          PDict [("title", PStr "B")]])).
  { vm_compute. reflexivity. }
  split; [exact H|].
  exact (get_library_lists_each_value_once Catalog.env Scenario.py 2 7
           Scenario.connected _ H).
Defined.

(** The listing methods against a service that answers with HTML. *)
Lemma listing_without_json_witness :
  (forall exp,
      _access_token_expiration (client Scenario.connected) = Some exp ->
      now_ge (clock Scenario.connected) exp = inr false)
  /\ exists msg,
       result (run Catalog.html_env 7
                 (get_library Scenario.py 1 Scenario.connected)) =
       inl (TypeError msg).
Proof.
  assert (H : forall exp,
             _access_token_expiration (client Scenario.connected) = Some exp ->
             now_ge (clock Scenario.connected) exp = inr false).
  { intros exp He. vm_compute in He. injection He as <-.
    vm_compute. reflexivity. }
  split; [exact H|].
  refine (proj1 (listing_raises_TypeError_without_json Catalog.html_env
                   Scenario.py 0 7 Scenario.connected H _)).
  intro req. do 2 eexists. split; [reflexivity|]. vm_compute. discriminate.
Defined.

(** A second call for the channel of the scenario. *)
Lemma get_stream_again_witness :
  run (Scenario.env Scenario.with_password) 7
    (get_stream Scenario.py 2 "channel-linear" "ch9" Scenario.connected) =
    (Scenario.tuned, inr 0, 9)
  /\ get_stream Scenario.py 2 "channel-linear" "ch9" Scenario.tuned =
     Done (emit (EvCall "get_stream") Scenario.tuned) (inr 0).
Proof.
  assert (H : run (Scenario.env Scenario.with_password) 7
                (get_stream Scenario.py 2 "channel-linear" "ch9"
                   Scenario.connected) = (Scenario.tuned, inr 0, 9)).
  { vm_compute. reflexivity. }
  split; [exact H|].
  exact (get_stream_again_returns_at_once
           (Scenario.env Scenario.with_password) Scenario.py 2 7 9
           Scenario.connected Scenario.tuned "channel-linear" "ch9" 0 H).
Defined.

(** A call for the channel while the service cannot be reached. *)
Lemma get_stream_failure_witness :
  exists e,
    result (run Catalog.offline 7
              (get_stream Scenario.py 2 "channel-linear" "ch9"
                 Scenario.connected)) = inl e
    /\ initialized
         (objects
            (final (run Catalog.offline 7
                      (get_stream Scenario.py 2 "channel-linear" "ch9"
                         Scenario.connected)))
            (handle_of "channel-linear" "ch9" Scenario.connected)) = false.
Proof.
  eexists. split; [vm_compute; reflexivity|].
  refine (proj1 (proj2 (get_stream_failure_keeps_the_handle Catalog.offline
                          Scenario.py 2 7 Scenario.connected
                          "channel-linear" "ch9" _ _))).
  vm_compute. reflexivity.
Defined.

(** A call for another channel leaves the handle of the first. *)
Lemma get_stream_other_witness :
  ("channel-linear", "ch9") <> ("channel-linear", "ch10")
  /\ 0 < allocated Scenario.tuned
  /\ dict_get key_eqb (_streams (client Scenario.tuned))
       ("channel-linear", "ch10") <> Some 0
  /\ objects
       (final (run (Scenario.env Scenario.with_password) 9
                 (get_stream Scenario.py 2 "channel-linear" "ch10"
                    Scenario.tuned))) 0 =
     objects Scenario.tuned 0.
Proof.
  assert (H1 : ("channel-linear", "ch9") <> ("channel-linear", "ch10"))
    by discriminate.
  assert (H2 : 0 < allocated Scenario.tuned) by (vm_compute; lia).
  assert (H3 : dict_get key_eqb (_streams (client Scenario.tuned))
                 ("channel-linear", "ch10") <> Some 0)
    by (vm_compute; discriminate).
  split; [exact H1|]. split; [exact H2|]. split; [exact H3|].
  exact (proj2 (get_stream_leaves_the_other_handles
                  (Scenario.env Scenario.with_password) Scenario.py 2 9
                  Scenario.tuned "channel-linear" "ch10"
                  ("channel-linear", "ch9") 0 H1 H2 H3)).
Defined.

Lemma connected_asks_no_refresh :
  forall exp,
    _access_token_expiration (client Scenario.connected) = Some exp ->
    now_ge (clock Scenario.connected) exp = inr false.
Proof.
  intros exp He. vm_compute in He. injection He as <-. vm_compute. reflexivity.
Defined.


(** A request of the connected client that passes no headers. *)
Lemma request_stores_the_bearer_witness :
  (forall exp,
      _access_token_expiration (client Scenario.connected) = Some exp ->
      now_ge (clock Scenario.connected) exp = inr false)
  /\ truthy (_access_token (client Scenario.connected)) = true
  /\ dict_get String.eqb
       (SXM_REQUEST_HEADERS
          (final (run (Scenario.env Scenario.with_password) 7
                    (request Scenario.py 1 "GET" Scenario.player_url
                       {| kw_headers := None; kw_json := None |}
                       Scenario.connected))))
       "Authorization" =
     Some ("Bearer " ++ py_str Scenario.py (_access_token (client Scenario.connected)))%string.
Proof.
  split; [exact connected_asks_no_refresh|]. split; [reflexivity|].
  exact (proj1 (proj2 (request_stores_the_bearer_in_the_shared_headers
                         (Scenario.env Scenario.with_password) Scenario.py 0 7
                         Scenario.connected "GET" Scenario.player_url None
                         connected_asks_no_refresh Logic.eq_refl))).
Defined.

(** A request of the connected client with an [Authorization] of the
    caller. *)
Lemma request_overrides_witness :
  (forall exp,
      _access_token_expiration (client Scenario.connected) = Some exp ->
      now_ge (clock Scenario.connected) exp = inr false)
  /\ truthy (_access_token (client Scenario.connected)) = true
  /\ exists req logs,
       trace (final (run (Scenario.env Scenario.with_password) 7
                       (request Scenario.py 1 "GET" Scenario.player_url
                          {| kw_headers := Some [("Authorization", "Basic dXNlcg==");
                                                 ("Accept", "text/html")];
                             kw_json := None |}
                          Scenario.connected))) =
         trace Scenario.connected ++ EvHttp req :: logs
       /\ dict_get String.eqb (req_headers req) "Authorization" =
          Some ("Bearer " ++ py_str Scenario.py (_access_token (client Scenario.connected)))%string.
Proof.
  split; [exact connected_asks_no_refresh|]. split; [reflexivity|].
  destruct (request_overrides_the_callers_authorization
              (Scenario.env Scenario.with_password) Scenario.py 0 7
              Scenario.connected "GET" Scenario.player_url
              [("Authorization", "Basic dXNlcg=="); ("Accept", "text/html")]
              None connected_asks_no_refresh Logic.eq_refl)
    as (req & logs & H1 & _ & H2 & _).
  exists req, logs. auto.
Defined.

(** The refresh of the expired client against a service that reports
    no password. *)
Lemma failed_refresh_witness :
  _access_token_expiration (client Scenario.expired) = Some (Aware 100)
  /\ now_ge (clock Scenario.expired) (Aware 100) = inr true
  /\ exists e,
       result (run (Scenario.env Scenario.without_password) 7
                 (_authenticate Scenario.py (request Scenario.py 1)
                    (cleared Scenario.expired))) = inl e
       /\ result (run (Scenario.env Scenario.without_password) 7
                    (request Scenario.py 2 "GET" Scenario.player_url no_kwargs
                       Scenario.expired)) = inl e.
Proof.
  split; [reflexivity|]. split; [reflexivity|].
  eexists. split; [vm_compute; reflexivity|].
  refine (proj1 (failed_refresh_is_not_retried
                   (Scenario.env Scenario.without_password) Scenario.py 0 7
                   Scenario.expired "GET" Scenario.player_url no_kwargs
                   (Aware 100) _ Logic.eq_refl Logic.eq_refl _)).
  vm_compute. reflexivity.
Defined.

(** The chain of the expired client, from the state in which [request]
    starts it. *)
Lemma authentication_grants_witness :
  _access_token_expiration (client (cleared Scenario.expired)) = None
  /\ truthy (_access_token (client (cleared Scenario.expired))) = false
  /\ truthy (_device_session (client (cleared Scenario.expired))) = true
  /\ result (run (Scenario.env Scenario.with_password) 7
               (_authenticate Scenario.py (request Scenario.py 1)
                  (cleared Scenario.expired))) = inr tt
  /\ exists r1 r2 r3 r4 grant anonymous_token authentication_grant,
       requests
         (trace (final (run (Scenario.env Scenario.with_password) 7
                          (_authenticate Scenario.py (request Scenario.py 1)
                             (cleared Scenario.expired))))) =
       requests (trace (cleared Scenario.expired)) ++ [r1; r2; r3; r4]
       /\ getitem (_device_session (client (cleared Scenario.expired)))
            "grant" = inr grant
       /\ getitem
            (_anonymous_session
               (client (final (run (Scenario.env Scenario.with_password) 7
                                 (_authenticate Scenario.py
                                    (request Scenario.py 1)
                                    (cleared Scenario.expired))))))
            "accessToken" = inr anonymous_token
       /\ getitem
            (_authentication_response
               (client (final (run (Scenario.env Scenario.with_password) 7
                                 (_authenticate Scenario.py
                                    (request Scenario.py 1)
                                    (cleared Scenario.expired))))))
            "grant" = inr authentication_grant
       /\ (req_method r1, req_url r1, authorization r1) =
          ("POST",
           PStr "https://api.edge-gateway.siriusxm.com/session/v1/sessions/anonymous",
           Some ("Bearer " ++ py_str Scenario.py grant)%string).
Proof.
  assert (H : result (run (Scenario.env Scenario.with_password) 7
                        (_authenticate Scenario.py (request Scenario.py 1)
                           (cleared Scenario.expired))) = inr tt).
  { vm_compute. reflexivity. }
  split; [reflexivity|]. split; [reflexivity|]. split; [reflexivity|].
  split; [exact H|].
  destruct (authentication_passes_each_grant_on
              (Scenario.env Scenario.with_password) Scenario.py 0 7
              (cleared Scenario.expired) Logic.eq_refl Logic.eq_refl
              Logic.eq_refl H)
    as (r1 & r2 & r3 & r4 & g & a & ag & H1 & H2 & H3 & H4 & H5 & _).
  exists r1, r2, r3, r4, g, a, ag. auto.
Defined.

Lemma scenario_failures_are_foreign svc :
  forall (w w' : World (Scenario.env svc)) req e',
    serve (Scenario.env svc) w req = (OtherFailure e', w') ->
    exn_class e' <> "AuthenticationError" /\ exn_class e' <> "RequestError".
Proof.
  intros w w' req e'. cbn. unfold Scenario.answer.
  destruct (req_url req) as [| b | z | u | bs | xs | kvs];
    try (intros [= <- _]; split; discriminate).
  repeat match goal with
         | |- context [if ?c then _ else _] => destruct c
         end; discriminate.
Defined.

(** What the client raises against the service of the scenario when it
    reports no password. *)
Lemma AuthenticationError_witness :
  (forall (w w' : World (Scenario.env Scenario.without_password)) req e',
      serve (Scenario.env Scenario.without_password) w req =
        (OtherFailure e', w') ->
      exn_class e' <> "AuthenticationError" /\ exn_class e' <> "RequestError")
  /\ (result (run (Scenario.env Scenario.without_password) 1
                (_authenticate Scenario.py (request Scenario.py 2)
                   Scenario.fresh)) =
      inl (TypeError
             "AuthenticationError.__init__() missing 1 required positional argument: 'original_exception'") ->
      exn_class
        (TypeError
           "AuthenticationError.__init__() missing 1 required positional argument: 'original_exception'")
      <> "AuthenticationError"
      /\ exn_class
           (TypeError
              "AuthenticationError.__init__() missing 1 required positional argument: 'original_exception'")
         <> "RequestError").
Proof.
  split; [apply scenario_failures_are_foreign|].
  exact (proj2 (AuthenticationError_is_never_raised
                  (Scenario.env Scenario.without_password) Scenario.py 2 1
                  Scenario.fresh _
                  (scenario_failures_are_foreign Scenario.without_password))).
Defined.

(** The client with the session of its caller, through two requests
    and a disconnection, another session being closed in between. *)
Lemma callers_session_witness :
  _http_client_session Catalog.with_session = Some 0
  /\ _http_client_session_internal Catalog.with_session = false
  /\ closed Catalog.with_session 0 = false
  /\ closed (session_run [OpRequest; OpClose 1; OpDisconnect; OpRequest]
               Catalog.with_session) 0 = false.
Proof.
  split; [reflexivity|]. split; [reflexivity|]. split; [reflexivity|].
  refine (proj1 (proj2 (proj2 (the_callers_session_is_never_closed
                                 [OpRequest; OpClose 1; OpDisconnect; OpRequest]
                                 0 Catalog.with_session Logic.eq_refl
                                 Logic.eq_refl Logic.eq_refl _)))).
  intros op [<- | [<- | [<- | [<- | []]]]]; discriminate.
Defined.

(** The base URL of the tuned handle. *)
Lemma segments_beside_the_playlist_witness :
  streams_by_bitrate_url (objects Scenario.tuned 0) =
    inr (PStr Scenario.manifest_url)
  /\ exists base,
       base_url (objects Scenario.tuned 0) = inr base
       /\ ((PyStr.mem PyStr.slash Scenario.manifest_url = false
            /\ base = Scenario.manifest_url)
           \/ exists file, Scenario.manifest_url = (base ++ "/" ++ file)%string
                           /\ PyStr.mem PyStr.slash file = false).
Proof.
  assert (H : streams_by_bitrate_url (objects Scenario.tuned 0) =
              inr (PStr Scenario.manifest_url)).
  { vm_compute. reflexivity. }
  split; [exact H|].
  destruct (segments_are_fetched_beside_the_playlist Scenario.py 2
              Scenario.tuned 0 Scenario.manifest_url H)
    as (base & Hb & Hd & _).
  exists base. auto.
Defined.

Lemma initialized_run_returns :
  run (Scenario.env Scenario.with_password) 7
    (initialize Scenario.py 2 0 Scenario.registered) =
  (final Catalog.initialized_run, inr tt, snd Catalog.initialized_run).
Proof. vm_compute. reflexivity. Defined.

(** The URL stored for 64k from the manifest of the scenario, whose
    64k line has white space around the name. *)
Lemma initialize_trimmed_witness :
  In "64k" probe_order
  /\ get_or_none
       (_streams_by_bitrate (objects (final Catalog.initialized_run) 0)) "64k" =
     Some "https://cdn.example.com/live/ch9/64k/ch9_64k_full_v3.m3u8"
  /\ exists base name,
       base_url (objects (final Catalog.initialized_run) 0) = inr base
       /\ "https://cdn.example.com/live/ch9/64k/ch9_64k_full_v3.m3u8" =
          (base ++ "/" ++ name)%string
       /\ trimmed name
       /\ PyStr.mem PyStr.newline name = false
       /\ PyStr.contains (playlist_needle "64k") name = true.
Proof.
  assert (Hin : In "64k" probe_order) by (cbn; auto).
  assert (Hu : get_or_none
                 (_streams_by_bitrate (objects (final Catalog.initialized_run) 0))
                 "64k" =
               Some "https://cdn.example.com/live/ch9/64k/ch9_64k_full_v3.m3u8").
  { vm_compute. reflexivity. }
  split; [exact Hin|]. split; [exact Hu|].
  exact (initialize_stores_trimmed_urls
           (Scenario.env Scenario.with_password) Scenario.py 2 7
           (snd Catalog.initialized_run) Scenario.registered (final Catalog.initialized_run) 0
           initialized_run_returns "64k" _ Hin Hu).
Defined.

(** A segment of 96k, which the manifest of the scenario lacks. *)
Lemma get_segment_after_initialize_witness :
  In "96k" probe_order
  /\ match get_or_none
             (_streams_by_bitrate (objects (final Catalog.initialized_run) 0)) "96k"
     with
     | None =>
         get_segment Scenario.py 2 0 "ch9_96k_1.aac" "96k"
           (final Catalog.initialized_run) =
         Done (final Catalog.initialized_run)
           (inl (AttributeError "'NoneType' object has no attribute 'split'"))
     | Some url =>
         exists base dir,
           base_url (objects (final Catalog.initialized_run) 0) = inr base
           /\ PyStr.second_to_last (PyStr.split PyStr.slash url) = Some dir
           /\ get_segment Scenario.py 2 0 "ch9_96k_1.aac" "96k"
                (final Catalog.initialized_run) =
              request Scenario.py 2 "GET"
                (PStr (base ++ "/" ++ dir ++ "/" ++ "ch9_96k_1.aac"))
                no_kwargs (final Catalog.initialized_run)
     end.
Proof.
  assert (Hin : In "96k" probe_order) by (cbn; auto).
  split; [exact Hin|].
  exact (get_segment_after_initialize
           (Scenario.env Scenario.with_password) Scenario.py 2 7
           (snd Catalog.initialized_run) Scenario.registered (final Catalog.initialized_run) 0
           initialized_run_returns "96k" "ch9_96k_1.aac" Hin).
Defined.

(** The first line of the playlist of the scenario and the rest. *)
Lemma rewrite_line_by_line_witness :
  PyStr.mem PyStr.newline "#EXTM3U" = false
  /\ Proxy.rewrite_playlist
       ("#EXTM3U" ++ String PyStr.newline "#EXTINF:9.75,") "channel-linear"
       "ch9" =
     and_then (Proxy.rewrite_playlist "#EXTM3U" "channel-linear" "ch9")
       (fun l =>
        and_then (Proxy.rewrite_playlist "#EXTINF:9.75," "channel-linear" "ch9")
          (fun r => inr (l ++ String PyStr.newline r)%string)).
Proof.
  split; [reflexivity|].
  exact (proj1 (rewrite_playlist_goes_line_by_line "channel-linear" "ch9"
                  "#EXTM3U" "#EXTINF:9.75," Logic.eq_refl)).
Defined.

(** The client authenticated with built-ins that read the expiration
    as a naive datetime. *)
Lemma naive_expiration_witness :
  let chain :=
    final (run (Scenario.env Scenario.with_password) 0
             (_authenticate Catalog.naive_py (request Catalog.naive_py 2)
                Scenario.fresh)) in
  result (run (Scenario.env Scenario.with_password) 0
            (_authenticate Catalog.naive_py (request Catalog.naive_py 2)
               Scenario.fresh)) = inr tt
  /\ getitem (_authenticated_session (client chain)) "accessTokenExpiresAt" =
     inr (PStr "100")
  /\ fromisoformat Catalog.naive_py (PStr "100") = inr (Naive 100)
  /\ request Catalog.naive_py 1 "GET" Scenario.player_url no_kwargs
       (set_clock 0 chain) =
     Done (set_clock 0 chain)
       (inl (TypeError
               "can't compare offset-naive and offset-aware datetimes")).
Proof.
  assert (H1 : result (run (Scenario.env Scenario.with_password) 0
                         (_authenticate Catalog.naive_py
                            (request Catalog.naive_py 2) Scenario.fresh)) =
               inr tt) by (vm_compute; reflexivity).
  assert (H2 : getitem
                 (_authenticated_session
                    (client
                       (final (run (Scenario.env Scenario.with_password) 0
                                 (_authenticate Catalog.naive_py
                                    (request Catalog.naive_py 2)
                                    Scenario.fresh)))))
                 "accessTokenExpiresAt" = inr (PStr "100"))
    by (vm_compute; reflexivity).
  split; [exact H1|]. split; [exact H2|]. split; [reflexivity|].
  exact (a_naive_expiration_fails_every_request
           (Scenario.env Scenario.with_password) Catalog.naive_py 0
           Scenario.fresh (request Catalog.naive_py 2) (PStr "100") 100
           H1 H2 Logic.eq_refl 0 "GET" Scenario.player_url no_kwargs 0).
Defined.

(** The shared dictionary after [connect] in the scenario. *)
Lemma connect_shares_the_bearer_witness :
  let connected :=
    final (run (Scenario.env Scenario.with_password) 0
             (connect Scenario.py 2 Scenario.fresh)) in
  result (run (Scenario.env Scenario.with_password) 0
            (connect Scenario.py 2 Scenario.fresh)) = inr tt
  /\ truthy (_access_token (client connected)) = true
  /\ dict_get String.eqb (SXM_REQUEST_HEADERS connected) "Authorization" =
     Some ("Bearer " ++ py_str Scenario.py (_access_token (client connected)))%string.
Proof.
  assert (H1 : result (run (Scenario.env Scenario.with_password) 0
                         (connect Scenario.py 2 Scenario.fresh)) = inr tt)
    by (vm_compute; reflexivity).
  assert (H2 : truthy
                 (_access_token
                    (client
                       (final (run (Scenario.env Scenario.with_password) 0
                                 (connect Scenario.py 2 Scenario.fresh))))) =
               true) by (vm_compute; reflexivity).
  split; [exact H1|]. split; [exact H2|].
  exact (proj1 (connect_leaves_the_bearer_in_the_shared_headers
                  (Scenario.env Scenario.with_password) Scenario.py 2 0
                  Scenario.fresh H1 H2)).
Defined.
